(** * PDF content-stream regeneration: a shallow embedding of [pdf_creater.py]

    The development follows the layout of the Python module: number
    formatting as used by the f-strings, the ToUnicode CMap writer and
    parser, the render units and their context, the unit collector and
    stream assembler, and finally the effectful part (post-processing in a
    child process, the write orchestrator) over an explicit world.  After
    the parser come the helpers that rebuild the CMaps of a saved document
    ([to_int], [parse_truetype_data], [reproduce_cmap]), and at the end of
    the definitions the font maps and the batching of the paragraph
    translator ([il_translator_llm_only.py]).

    Conventions.
    - A Python [int] is a [Z].
    - A Python [str] is modelled by its UTF-8 bytes, a [string]; [bytes]
      and the [BitStream] operator buffers (only ever appended whole
      byte strings) are [string]s too, so [.encode()] is the identity.
    - A Python [dict] is a [gmap], a [set] a [gset]; a value that may be
      [None] is an [option]. *)

From Stdlib Require Import ZArith Lia Ascii String Sorted.
From stdpp Require Import gmap strings list.

Local Open Scope list_scope.
Local Open Scope Z_scope.

(** ** Python number formatting *)

(** The line feed, written [\n] in the source. *)
Definition nl : string := String "010"%char EmptyString.

(** One digit in base at most 16, lower case as printed by [x] and [d]. *)
Definition digit_char (d : Z) : ascii :=
  match d with
  | 0 => "0" | 1 => "1" | 2 => "2" | 3 => "3" | 4 => "4" | 5 => "5" | 6 => "6"
  | 7 => "7" | 8 => "8" | 9 => "9" | 10 => "a" | 11 => "b" | 12 => "c"
  | 13 => "d" | 14 => "e" | _ => "f"
  end%char.

(** The [n] low-order digits of [v] in base [b], most significant first. *)
Fixpoint digits_fixed (b : Z) (n : nat) (v : Z) : string :=
  match n with
  | O => ""
  | S n' => digits_fixed b n' (v / b) +:+ String (digit_char (v mod b)) ""
  end.

(** How many digits a non-negative [v] needs in base [b] (one for zero). *)
Fixpoint digit_count_fuel (fuel : nat) (b v : Z) : nat :=
  match fuel with
  | O => 1
  | S f => if v <? b then 1%nat else S (digit_count_fuel f b (v / b))
  end.

Definition digit_count (b v : Z) : nat :=
  digit_count_fuel (Z.to_nat (Z.log2 v)) b v.

(** [format(v, "0{w}x")] and [format(v, "0{w}d")]: sign-aware zero padding to
    a minimum width [w]; a longer number is printed in full. *)
Definition format_zero_padded (b : Z) (w : nat) (v : Z) : string :=
  if v <? 0
  then "-" +:+ digits_fixed b (Nat.max (w - 1) (digit_count b (- v))) (- v)
  else digits_fixed b (Nat.max w (digit_count b v)) v.

(** [f"{v:04x}"]. *)
Definition format_04x (v : Z) : string := format_zero_padded 16 4 v.

(** [f"{v}"] for an [int]. *)
Definition format_d (v : Z) : string := format_zero_padded 10 0 v.

(** The byte [c] lies between the codes [lo] and [hi]. *)
Definition in_range (lo hi : nat) (c : ascii) : bool :=
  let n := nat_of_ascii c in (lo <=? n)%nat && (n <=? hi)%nat.

(** [str.upper] on ASCII letters. *)
Definition upper_char (c : ascii) : ascii :=
  let n := nat_of_ascii c in
  if (97 <=? n)%nat && (n <=? 122)%nat then ascii_of_nat (n - 32) else c.

Fixpoint upper (s : string) : string :=
  match s with
  | EmptyString => EmptyString
  | String c s' => String (upper_char c) (upper s')
  end.

(** [sep.join(l)]. *)
Fixpoint join (sep : string) (l : list string) : string :=
  match l with
  | [] => ""
  | [x] => x
  | x :: rest => x +:+ sep +:+ join sep rest
  end.

(** ** [batched] *)

(** [batched(iterable, n)]: successive [islice]s of [n] items until one comes
    back empty.  Every round consumes at least one item, so the length of the
    input bounds the number of rounds. *)
Fixpoint batched_fuel {A} (fuel : nat) (n : nat) (l : list A) : list (list A) :=
  match fuel with
  | O => []
  | S f =>
      match take n l with
      | [] => []
      | b => b :: batched_fuel f n (drop n l)
      end
  end.

Definition batched {A} (l : list A) (n : nat) : list (list A) :=
  batched_fuel (length l) n l.

(** ** The ToUnicode CMap writer *)

(** A CMap: glyph index to code point. *)
Abbreviation cmap_t := (gmap Z Z).

Definition cmap_header : string :=
  "/CIDInit /ProcSet findresource begin" +:+ nl +:+
  "12 dict begin" +:+ nl +:+
  "begincmap" +:+ nl +:+
  "/CIDSystemInfo <</Registry(Adobe)/Ordering(UCS)/Supplement 0>> def" +:+ nl +:+
  "/CMapName /Adobe-Identity-UCS def" +:+ nl +:+
  "/CMapType 2 def" +:+ nl +:+
  "1 begincodespacerange" +:+ nl +:+
  "<0000> <FFFF>" +:+ nl +:+
  "endcodespacerange".

Definition cmap_footer : list string :=
  ["endcmap"; "CMapName currentdict /CMap defineresource pop"; "end"; "end"].

(** [[(x, cmap[x]) for x in used if x in cmap]]. *)
Definition used_entries (cmap : cmap_t) (used : list Z) : list (Z * Z) :=
  omap (fun x => match cmap !! x with Some c => Some (x, c) | None => None end) used.

(** The halves written for a code point of [0x10000] and above. *)
Definition high_surrogate (c : Z) : Z := 0xD800 + Z.shiftr (c - 0x10000) 10.
Definition low_surrogate (c : Z) : Z := 0xDC00 + Z.land (c - 0x10000) 0x3FF.

(** One [<glyph><code>] line of a [bfchar] block. *)
Definition bfchar_line (gc : Z * Z) : string :=
  let '(g, c) := gc in
  if c <? 0x10000
  then "<" +:+ format_04x g +:+ "><" +:+ format_04x c +:+ ">"
  else "<" +:+ format_04x g +:+ "><" +:+ format_04x (high_surrogate c)
           +:+ format_04x (low_surrogate c) +:+ ">".

(** One block: its count line, its entries, its closing line. *)
Definition bfchar_block (b : list (Z * Z)) : list string :=
  (format_d (Z.of_nat (length b)) +:+ " beginbfchar") :: map bfchar_line b ++ ["endbfchar"].

Definition make_tounicode_lines (cmap : cmap_t) (used : list Z) : list string :=
  cmap_header :: concat (map bfchar_block (batched (used_entries cmap used) 100)) ++ cmap_footer.

Definition make_tounicode (cmap : cmap_t) (used : list Z) : string :=
  join nl (make_tounicode_lines cmap used).

(** ** Exceptions and the state-and-exception monad *)

(** The exceptions the modelled code can meet.  [LibraryError] stands for
    whatever an external collaborator (the PDF library, the file system, the
    process API) raises. *)
Inductive exn : Type :=
| ValueError
| TypeError
| AttributeError
| IndexError
| KeyError
| LibraryError (code : Z).

Inductive outcome (A : Type) : Type :=
| Ok (a : A)
| Raise (e : exn).
Arguments Ok {A} a.
Arguments Raise {A} e.

(** A computation over a mutable state [S]: it returns or raises, and the
    state it leaves behind is kept either way (a mutation done before an
    exception is not rolled back). *)
Definition M (S A : Type) : Type := S -> outcome A * S.

Definition ret {S A} (a : A) : M S A := fun s => (Ok a, s).

Definition bind {S A B} (m : M S A) (k : A -> M S B) : M S B :=
  fun s => match m s with
           | (Ok a, s') => k a s'
           | (Raise e, s') => (Raise e, s')
           end.

Definition raise {S A} (e : exn) : M S A := fun s => (Raise e, s).

(** [try: m  except: h]. *)
Definition try_except {S A} (m : M S A) (h : exn -> M S A) : M S A :=
  fun s => match m s with
           | (Ok a, s') => (Ok a, s')
           | (Raise e, s') => h e s'
           end.

#[global] Instance M_ret {S} : MRet (M S) := fun A => @ret S A.
#[global] Instance M_bind {S} : MBind (M S) := fun A B k m => @bind S A B m k.

(** [for x in l: body x]. *)
Fixpoint for_each {S A} (l : list A) (body : A -> M S unit) : M S unit :=
  match l with
  | [] => mret tt
  | x :: rest => body x;; for_each rest body
  end.

Definition append (b : string) : M string unit := fun buf => (Ok tt, buf +:+ b).

(** An already computed result (of a pure helper that may raise) used as a
    step of a computation. *)
Definition lift_outcome {S A} (o : outcome A) : M S A := fun s => (o, s).

(** [m] only appends to its buffer: what it returns and what it appends do
    not depend on what the buffer holds. *)
Definition appends {A} (m : M string A) : Prop :=
  forall buf, m buf = (fst (m ""), buf +:+ snd (m "")).

(** ** What the code takes from outside

    Python's [float] and its formatting, and the two repository helpers the
    module imports ([matrix_to_bytes], [zstd_decompress]) whose sources are not
    part of this module. *)
Class Primitives (float : Type) : Type := {
  format_f : float -> string;          (* [f"{v:f}"] *)
  format_F : float -> string;          (* [f"{v:F}"] *)
  format_6f : float -> string;         (* [f"{v:.6f}"] *)
  fneg : float -> float;               (* [-v] *)
  fsub : float -> float -> float;      (* [v - w] *)
  matrix_to_bytes : list float -> outcome string;
  zstd_decompress : string -> string;
}.

(** ** The document tree (the fields this module reads) *)

(** An attribute read with [getattr(obj, name, default)]: it may be missing,
    hold [None], or hold a value. *)
Inductive attr (A : Type) : Type :=
| Missing
| HoldsNone
| Holds (a : A).
Arguments Missing {A}.
Arguments HoldsNone {A}.
Arguments Holds {A} a.

(** [getattr(obj, name, default)], the result still possibly [None]. *)
Definition getattr {A} (a : attr A) (default : A) : option A :=
  match a with
  | Missing => Some default
  | HoldsNone => None
  | Holds v => Some v
  end.

Section DocumentTree.
Context {float : Type}.

Record Box : Type := {
  box_x : float; box_y : float; box_x2 : float; box_y2 : float }.

Record GraphicState : Type := {
  passthrough_per_char_instruction : option string }.

Record PdfStyle : Type := {
  font_id : string;
  font_size : float;
  graphic_state : option GraphicState }.

Record PdfCharacter : Type := {
  char_unicode : option string;
  pdf_character_id : option Z;
  pdf_style : PdfStyle;
  vertical : bool;
  box : Box;
  char_xobj_id : option string;
  char_render_order : attr Z }.

Record PdfXobjForm : Type := { do_args : string }.

Record PdfFormSubtype : Type := { pdf_xobj_form : option PdfXobjForm }.

(** [relocation_transform] is falsy both as [None] and as the empty list;
    the list stands for both. *)
Record PdfForm : Type := {
  relocation_transform : list float;
  pdf_matrix : list float;
  form_graphic_state : GraphicState;
  pdf_form_subtype : PdfFormSubtype;
  form_xobj_id : option string;
  form_render_order : attr Z }.

Record PdfRectangle : Type := {
  rect_graphic_state : GraphicState;
  rect_line_width : option float;
  rect_box : Box;
  fill_background : bool;
  rect_xobj_id : option string }.

Record PdfPath : Type := {
  path_x : float; path_y : float; op : string; has_xy : bool }.

(** A path item is a [PdfPath] or a [PdfOriginalPath] wrapping one. *)
Inductive path_item : Type :=
| PlainPath (p : PdfPath)
| OriginalPath (p : PdfPath).

Record PdfCurve : Type := {
  curve_relocation_transform : list float;
  ctm : list float;
  curve_graphic_state : GraphicState;
  pdf_original_path : list path_item;
  pdf_path : list path_item;
  evenodd : bool;
  curve_xobj_id : option string }.

Record PdfFormula : Type := {
  formula_pdf_character : list PdfCharacter;
  formula_pdf_form : list PdfForm }.

Record PdfParagraphComposition : Type := {
  comp_pdf_character : option PdfCharacter;
  comp_pdf_formula : option PdfFormula }.

Record PdfParagraph : Type := {
  pdf_paragraph_composition : list PdfParagraphComposition }.

Record PdfFont : Type := {
  pdf_font_id : string;
  encoding_length : option Z }.

(** An XObject is identified by its id, the key of the per-XObject tables; a
    unit's [xobj_id] names one, or is [None]. *)
Record PdfXobject : Type := {
  xobj_xobj_id : string;
  xref_id : Z;
  xobj_pdf_font : list PdfFont;
  base_operations : string }.

Record Page : Type := {
  page_number : Z;
  cropbox : Box;
  page_pdf_font : list PdfFont;
  pdf_xobject : list PdfXobject;
  pdf_character : list PdfCharacter;
  pdf_paragraph : list PdfParagraph;
  pdf_form : list PdfForm }.

Record Document : Type := { page : list Page }.

(** ** Render units *)

Inductive unit_payload : Type :=
| CharacterPayload (char : PdfCharacter)
| FormPayload (form : PdfForm)
| RectanglePayload (rectangle : PdfRectangle) (line_width : float)
| CurvePayload (curve : PdfCurve).

Record RenderUnit : Type := {
  render_order : Z;
  sub_render_order : Z;
  xobj_id : option string;
  payload : unit_payload }.

Definition order_sentinel : Z := 9999999999999999.

(** [RenderUnit.__init__]: an order that is [None] becomes the sentinel. *)
Definition RenderUnit_init (ro sro : option Z) (xid : option string)
    (p : unit_payload) : RenderUnit :=
  {| render_order := default order_sentinel ro;
     sub_render_order := default order_sentinel sro;
     xobj_id := xid;
     payload := p |}.

Definition CharacterRenderUnit (char : PdfCharacter) (ro sro : option Z) : RenderUnit :=
  RenderUnit_init ro sro (char_xobj_id char) (CharacterPayload char).

Definition FormRenderUnit (form : PdfForm) (ro sro : option Z) : RenderUnit :=
  RenderUnit_init ro sro (form_xobj_id form) (FormPayload form).

Definition RectangleRenderUnit (rectangle : PdfRectangle) (ro sro : option Z)
    (line_width : float) : RenderUnit :=
  RenderUnit_init ro sro (rect_xobj_id rectangle) (RectanglePayload rectangle line_width).

Definition CurveRenderUnit (curve : PdfCurve) (ro sro : option Z) : RenderUnit :=
  RenderUnit_init ro sro (curve_xobj_id curve) (CurvePayload curve).

Definition get_sort_key (u : RenderUnit) : Z * Z := (render_order u, sub_render_order u).

End DocumentTree.

Arguments Box : clear implicits.
Arguments PdfStyle : clear implicits.
Arguments PdfCharacter : clear implicits.
Arguments PdfForm : clear implicits.
Arguments PdfRectangle : clear implicits.
Arguments PdfPath : clear implicits.
Arguments path_item : clear implicits.
Arguments PdfCurve : clear implicits.
Arguments PdfFormula : clear implicits.
Arguments PdfParagraphComposition : clear implicits.
Arguments PdfParagraph : clear implicits.
Arguments Page : clear implicits.
Arguments Document : clear implicits.
Arguments unit_payload : clear implicits.
Arguments RenderUnit : clear implicits.

(** ** The render context *)

(** What a lookup in one of the encoding-length dictionaries may hold: the
    page passes one dictionary, [x_cmap], both as the fallback table (font id
    to length) and as the per-XObject table (XObject id to a table), so its
    values are lengths, [None], or tables. *)
Inductive pyval : Type :=
| PyNone
| PyInt (n : Z)
| PyDict (d : gmap string (option Z)).

Definition pyval_of_length (v : option Z) : pyval :=
  match v with
  | Some n => PyInt n
  | None => PyNone
  end.

(** [RenderContext], without the back references to the creator and the page
    that no [render] reads. *)
Record RenderContext : Type := {
  available_font_list : gset string;
  page_encoding_length_map : gmap string (option Z);
  all_encoding_length_map : gmap string pyval;
  xobj_available_fonts : gmap string (gset string);
  xobj_encoding_length_map : gmap string pyval;
  ctm_for_ops : string;
  check_font_exists : bool }.

(** [d.get(key, default)] where [key] may be [None] (never a key here). *)
Definition get_or {V} (d : gmap string V) (key : option string) (dflt : V) : V :=
  match key with
  | Some k => default dflt (d !! k)
  | None => dflt
  end.

(** [context.xobj_encoding_length_map.get(self.xobj_id, context.page_encoding_length_map)]. *)
Definition container_encoding_length_map (ctx : RenderContext) (xid : option string) : pyval :=
  get_or (xobj_encoding_length_map ctx) xid (PyDict (page_encoding_length_map ctx)).

(** [context.xobj_available_fonts.get(self.xobj_id, context.available_font_list)]. *)
Definition container_available_fonts (ctx : RenderContext) (xid : option string) : gset string :=
  get_or (xobj_available_fonts ctx) xid (available_font_list ctx).

(** [encoding_length_map.get(font_id, context.all_encoding_length_map.get(font_id))]:
    a stored value wins even when it is [None]; calling [.get] on something
    that is not a dictionary raises. *)
Definition lookup_encoding_length (ctx : RenderContext) (xid : option string)
    (fid : string) : outcome pyval :=
  match container_encoding_length_map ctx xid with
  | PyDict d =>
      match d !! fid with
      | Some v => Ok (pyval_of_length v)
      | None => Ok (default PyNone (all_encoding_length_map ctx !! fid))
      end
  | _ => Raise AttributeError
  end.

(** ** Rendering *)

Section Rendering.
Context `{Primitives float}.

(** [PDFCreater.render_graphic_state]. *)
Definition render_graphic_state (gs : option GraphicState) : M string unit :=
  match gs with
  | Some g =>
      match passthrough_per_char_instruction g with
      | Some i => if bool_decide (i = "") then mret tt else append (i +:+ " " +:+ nl)
      | None => mret tt
      end
  | None => mret tt
  end.

(** The text-showing token [f"<{cid:0{encoding_length * 2}x}>".upper()]; a
    negative width is not a format specification. *)
Definition glyph_token (cid encoding_length : Z) : outcome string :=
  if encoding_length * 2 <? 0 then Raise ValueError
  else Ok (upper ("<" +:+ format_zero_padded 16 (Z.to_nat (encoding_length * 2)) cid +:+ ">")).

(** The text block opener: font, size and text matrix. *)
Definition text_matrix_prefix (char : PdfCharacter float) : string :=
  let st := pdf_style char in
  if vertical char
  then "BT /" +:+ font_id st +:+ " " +:+ format_f (font_size st) +:+ " Tf 0 1 -1 0 "
         +:+ format_f (box_x2 (box char)) +:+ " " +:+ format_f (box_y (box char)) +:+ " Tm "
  else "BT /" +:+ font_id st +:+ " " +:+ format_f (font_size st) +:+ " Tf 1 0 0 1 "
         +:+ format_f (box_x (box char)) +:+ " " +:+ format_f (box_y (box char)) +:+ " Tm ".

(** [CharacterRenderUnit.render].  The two guards of the first line come as
    the [match] on the glyph id and the test for the line feed; neither
    appends anything. *)
Definition character_render (xid : option string) (char : PdfCharacter float)
    (context : RenderContext) : M string unit :=
  match pdf_character_id char with
  | None => mret tt
  | Some cid =>
      if bool_decide (char_unicode char = Some nl) then mret tt
      else
        let fid := font_id (pdf_style char) in
        if check_font_exists context
           && negb (bool_decide (fid ∈ container_available_fonts context xid))
        then mret tt
        else
          append "q ";;
          render_graphic_state (graphic_state (pdf_style char));;
          append (text_matrix_prefix char);;
          encoding_length ← lift_outcome (lookup_encoding_length context xid fid);
          match encoding_length with
          | PyNone => mret tt
          | PyInt n =>
              tok ← lift_outcome (glyph_token cid n);
              append (tok +:+ " Tj ET Q " +:+ nl)
          | PyDict _ => raise TypeError
          end
  end.

(** [gs.passthrough_per_char_instruction.encode()]: [None] has no [encode]. *)
Definition encode_instruction {S} (gs : GraphicState) : M S string :=
  match passthrough_per_char_instruction gs with
  | Some i => mret i
  | None => raise AttributeError
  end.

(** [try: draw_op.append(matrix_to_bytes(...))  except: pass]. *)
Definition append_matrix_soft (m : list float) : M string unit :=
  try_except (b ← lift_outcome (matrix_to_bytes m); append b) (fun _ => mret tt).

(** [FormRenderUnit.render]. *)
Definition form_render (form : PdfForm float) : M string unit :=
  append "q ";;
  (if bool_decide (relocation_transform form ≠ [])
      && bool_decide (length (relocation_transform form) = 6%nat)
   then append_matrix_soft (relocation_transform form)
   else mret tt);;
  m ← lift_outcome (matrix_to_bytes (pdf_matrix form));
  i ← encode_instruction (form_graphic_state form);
  append (m +:+ " " +:+ i +:+ " ");;
  match pdf_xobj_form (pdf_form_subtype form) with
  | Some xf => append (" /" +:+ do_args xf +:+ " Do ")
  | None => mret tt
  end;;
  append (" Q" +:+ nl).

(** [RectangleRenderUnit.render]. *)
Definition rectangle_render (r : PdfRectangle float) (line_width : float) : M string unit :=
  i ← encode_instruction (rect_graphic_state r);
  append ("q n " +:+ i);;
  let lw := default line_width (rect_line_width r) in
  let b := rect_box r in
  append (" " +:+ format_6f lw +:+ " w " +:+ format_6f (box_x b) +:+ " "
            +:+ format_6f (box_y b) +:+ " " +:+ format_6f (fsub (box_x2 b) (box_x b))
            +:+ " " +:+ format_6f (fsub (box_y2 b) (box_y b)) +:+ " re "
            +:+ (if fill_background r then "f" else "S") +:+ " Q" +:+ nl).

(** One path item of a curve. *)
Definition path_segment (it : path_item float) : string :=
  let p := match it with PlainPath p => p | OriginalPath p => p end in
  if has_xy p
  then format_F (path_x p) +:+ " " +:+ format_F (path_y p) +:+ " " +:+ op p +:+ " "
  else op p +:+ " ".

(** [CurveRenderUnit.render]. *)
Definition curve_render (c : PdfCurve float) : M string unit :=
  append "q n ";;
  (if bool_decide (curve_relocation_transform c ≠ [])
   then append_matrix_soft (curve_relocation_transform c)
   else mret tt);;
  match ctm c with
  | [] => mret tt
  | c0 :: c1 :: c2 :: c3 :: c4 :: c5 :: _ =>
      append (" " +:+ format_6f c0 +:+ " " +:+ format_6f c1 +:+ " " +:+ format_6f c2
                +:+ " " +:+ format_6f c3 +:+ " " +:+ format_6f c4 +:+ " "
                +:+ format_6f c5 +:+ " cm ")
  | _ => raise IndexError
  end;;
  i ← encode_instruction (curve_graphic_state c);
  append (" " +:+ i +:+ " ");;
  let items := match pdf_original_path c with [] => pdf_path c | l => l end in
  let pth := fold_left (fun acc it => acc +:+ path_segment it) items " " in
  append (pth +:+ (if evenodd c then " f*" else " f") +:+ " n Q" +:+ nl).

(** [unit.render(draw_op, context)], by the unit's class. *)
Definition render (u : RenderUnit float) (context : RenderContext) : M string unit :=
  match payload u with
  | CharacterPayload char => character_render (xobj_id u) char context
  | FormPayload form => form_render form
  | RectanglePayload r lw => rectangle_render r lw
  | CurvePayload c => curve_render c
  end.

(** What a render leaves in an empty buffer, and how it ends: the vocabulary
    of the statements about emitted bytes. *)
Definition emitted (u : RenderUnit float) (context : RenderContext) : string :=
  snd (render u context "").

Definition render_status (u : RenderUnit float) (context : RenderContext) : outcome unit :=
  fst (render u context "").

Definition graphic_state_bytes (gs : option GraphicState) : string :=
  snd (render_graphic_state gs "").

(** The complete text block of a character with glyph id [cid] in a font of
    encoding length [n]: save, graphic state, font and matrix, the glyph
    code, show-text, restore. *)
Definition text_block (char : PdfCharacter float) (cid n : Z) : string :=
  "q " +:+ graphic_state_bytes (graphic_state (pdf_style char))
       +:+ text_matrix_prefix char
       +:+ upper ("<" +:+ format_zero_padded 16 (Z.to_nat (n * 2)) cid +:+ ">")
       +:+ " Tj ET Q " +:+ nl.

(** The block that is left open when the glyph code cannot be written. *)
Definition open_text_block (char : PdfCharacter float) : string :=
  "q " +:+ graphic_state_bytes (graphic_state (pdf_style char))
       +:+ text_matrix_prefix char.

End Rendering.

(** Every byte of [s] satisfies [p]. *)
Fixpoint string_forall (p : ascii -> bool) (s : string) : bool :=
  match s with
  | EmptyString => true
  | String c s' => p c && string_forall p s'
  end.

(** [0-9A-F]. *)
Definition is_upper_hex (c : ascii) : bool :=
  in_range 48 57 c || in_range 65 70 c.

(** ** The unit collector *)

(** The part of [TranslationConfig] the module reads. *)
Record TranslationConfig : Type := {
  input_file : string;
  lang_out : string;
  debug : bool;
  skip_form_render : bool;
  skip_clean : bool;
  no_mono : bool }.

Section Collector.
Context {float : Type}.

(** The characters of one composition: its own character, else those of its
    formula. *)
Definition composition_chars (composition : PdfParagraphComposition float)
    : list (PdfCharacter float) :=
  match comp_pdf_character composition with
  | Some c => [c]
  | None =>
      match comp_pdf_formula composition with
      | Some f => formula_pdf_character f
      | None => []
      end
  end.

(** [PDFCreater.render_paragraph_to_char]; [self.translation_config] is the
    first argument. *)
Definition render_paragraph_to_char (self_config : TranslationConfig)
    (paragraph : PdfParagraph float) : list (PdfCharacter float) :=
  let chars := concat (map composition_chars (pdf_paragraph_composition paragraph)) in
  if bool_decide (lang_out self_config = "ar") then reverse chars else chars.

(** [enumerate]. *)
Definition enumerate {A} (l : list A) : list (Z * A) :=
  imap (fun i a => (Z.of_nat i, a)) l.

(** The forms of one composition's formula. *)
Definition composition_forms (comp : PdfParagraphComposition float) : list (PdfForm float) :=
  match comp_pdf_formula comp with
  | Some f => formula_pdf_form f
  | None => []
  end.

(** [PDFCreater.create_render_units_for_page]. *)
Definition create_render_units_for_page (self_config : TranslationConfig)
    (pg : Page float) (translation_config : TranslationConfig) : list (RenderUnit float) :=
  let chars :=
    pdf_character pg ++ concat (map (render_paragraph_to_char self_config) (pdf_paragraph pg)) in
  let char_units :=
    map (fun '(i, char) =>
           CharacterRenderUnit char (getattr (char_render_order char) 100) (Some i))
        (enumerate chars) in
  if skip_form_render translation_config then char_units
  else
    let all_forms :=
      pdf_form pg
      ++ concat (map (fun p => concat (map composition_forms (pdf_paragraph_composition p)))
                     (pdf_paragraph pg)) in
    char_units
    ++ map (fun '(i, form) =>
              FormRenderUnit form (getattr (form_render_order form) 50) (Some i))
           (enumerate all_forms).

(** ** The stream assembler *)

(** Tuple comparison of two sort keys. *)
Definition key_le (a b : Z * Z) : bool :=
  (a.1 <? b.1) || ((a.1 =? b.1) && (a.2 <=? b.2)).

(** [u] may stand before [v]: its key is not above. *)
Definition in_order (u v : RenderUnit float) : Prop :=
  key_le (get_sort_key u) (get_sort_key v) = true.

(** [sorted(render_units, key=get_sort_key)]: a stable sort, written as the
    insertion sort that puts an element before the first one not below it. *)
Fixpoint insert_by_key (u : RenderUnit float) (l : list (RenderUnit float))
    : list (RenderUnit float) :=
  match l with
  | [] => [u]
  | v :: rest =>
      if key_le (get_sort_key u) (get_sort_key v) then u :: v :: rest
      else v :: insert_by_key u rest
  end.

Definition sorted_by_key (l : list (RenderUnit float)) : list (RenderUnit float) :=
  foldr insert_by_key [] l.

(** The buffers of one page: the page's own and one per XObject id. *)
Definition buffers : Type := string * gmap string string.

(** Which buffer [xobj_draw_ops.get(unit.xobj_id, page_op)] names: [None] is
    the page buffer. *)
Definition route (xobj_draw_ops : gmap string string) (xid : option string) : option string :=
  match xid with
  | Some k => if bool_decide (k ∈ dom xobj_draw_ops) then Some k else None
  | None => None
  end.

End Collector.

Section Assembler.
Context `{Primitives float}.

(** [unit.render(xobj_draw_ops.get(unit.xobj_id, page_op), context)]: the
    unit appends to the buffer object the lookup returned. *)
Definition render_to_target (u : RenderUnit float) (context : RenderContext)
    : M buffers unit :=
  fun '(page_op, xobj_draw_ops) =>
    match xobj_id u with
    | Some k =>
        match xobj_draw_ops !! k with
        | Some buf =>
            let '(r, buf') := render u context buf in
            (r, (page_op, <[k := buf']> xobj_draw_ops))
        | None =>
            let '(r, page_op') := render u context page_op in
            (r, (page_op', xobj_draw_ops))
        end
    | None =>
        let '(r, page_op') := render u context page_op in
        (r, (page_op', xobj_draw_ops))
    end.

(** [PDFCreater.render_units_to_stream]. *)
Definition render_units_to_stream (render_units : list (RenderUnit float))
    (context : RenderContext) : M buffers unit :=
  for_each (sorted_by_key render_units) (fun u => render_to_target u context).

End Assembler.

(** ** The outside world

    The PDF library, the font mapper, the progress monitor, the file system
    and the process API are collaborators: their operations act on a world
    the module does not look into.  [Pdf] is a handle on an open document,
    [Proc] one on a child process. *)

(** The keyword arguments of [pdf.save]; [None] is an argument left out. *)
Record SaveOptions : Type := {
  garbage : option Z;
  deflate : option bool;
  clean : option bool;
  deflate_fonts : option bool;
  linear : option bool }.

Definition save_defaults : SaveOptions :=
  {| garbage := None; deflate := None; clean := None;
     deflate_fonts := None; linear := None |}.

(** The two functions a child process is started on, with their arguments:
    [_subset_fonts_process(p, o)] and [_save_pdf_clean_process(p, o, g, d, c)]. *)
Inductive process_target : Type :=
| SubsetFontsProcess (p o : string)
| SavePdfCleanProcess (p o : string) (g : Z) (d c : bool).

Class Collaborators (World Pdf Proc float : Type) : Type := {
  pymupdf_open : string -> M World Pdf;
  pdf_save : Pdf -> string -> SaveOptions -> M World unit;
  pdf_page_xref : Pdf -> Z -> M World Z;                  (* [pdf[n].xref] *)
  pdf_page_set_contents : Pdf -> Z -> Z -> M World unit;  (* [pdf[n].set_contents(x)] *)
  pdf_update_stream : Pdf -> Z -> string -> M World unit;
  pdf_get_new_xref : Pdf -> M World Z;
  pdf_update_object : Pdf -> Z -> string -> M World unit;
  pdf_xref_set_key : Pdf -> Z -> string -> string -> M World unit;
  (* The resource resolver [get_xobj_available_fonts]: it reads the font
     names declared for an object and answers the empty set on any failure,
     so it never raises. *)
  declared_fonts : Pdf -> Z -> World -> gset string;
  font_mapper_add_font : Pdf -> Document float -> M World unit;
  stage_start : string -> Z -> M World unit;              (* entering the [with] block *)
  stage_advance : M World unit;                           (* [pbar.advance()] *)
  stage_exit : M World unit;                              (* leaving the [with] block *)
  get_output_file_path : TranslationConfig -> string -> string;
  get_working_file_path : TranslationConfig -> string -> string;
  path_stem : string -> string;                           (* [Path(p).stem] *)
  path_exists : string -> M World bool;                   (* [Path(p).exists()] *)
  shutil_copy2 : string -> string -> M World unit;
  process_start : process_target -> M World Proc;         (* [Process(...)] and [p.start()] *)
  process_join : Proc -> Z -> M World unit;               (* [p.join(timeout)] *)
}.

(** [TranslateResult(mono, dual, no_watermark)]. *)
Record TranslateResult : Type := {
  mono_pdf_path : string;
  dual_pdf_path : option string;
  no_watermark_path : option string }.

(** [PDFCreater]'s own fields; [mediabox_data] keeps the order of its items. *)
Record PDFCreater (float : Type) : Type := {
  original_pdf_path : string;
  docs : Document float;
  self_translation_config : TranslationConfig;
  mediabox_data : list (Z * list (string * string)) }.
Arguments original_pdf_path {float} _.
Arguments docs {float} _.
Arguments self_translation_config {float} _.
Arguments mediabox_data {float} _.

Definition stage_name : string := "Generate drawing instructions".

Section Writer.
Context `{Primitives float} `{Collaborators World Pdf Proc float}.

(** A computation on local buffers run inside a computation on the world: its
    exception propagates, its buffers are handed back when it returns. *)
Definition run_local {S A} (m : M S A) (s : S) : M World (A * S) :=
  fun w => match m s with
           | (Ok a, s') => (Ok (a, s'), w)
           | (Raise e, _) => (Raise e, w)
           end.

(** [with stage_start(...) as pbar: body]: the block is left through
    [stage_exit] whether the body returned or raised, and an exception of the
    body then goes on. *)
Definition leaving {S A} (body : M S A) (on_exit : M S unit) : M S A :=
  fun s => match body s with
           | (Ok a, s') => bind on_exit (fun _ => ret a) s'
           | (Raise e, s') => bind on_exit (fun _ => raise e) s'
           end.

Definition with_stage {A} (name : string) (total : Z) (body : M World A) : M World A :=
  bind (stage_start name total) (fun _ => leaving body stage_exit).

Definition get_xobj_available_fonts (page_xref_id : Z) (pdf : Pdf) : M World (gset string) :=
  fun w => (Ok (declared_fonts pdf page_xref_id w), w).

Definition get_available_font_list (pdf : Pdf) (pg : Page float) : M World (gset string) :=
  xref ← pdf_page_xref pdf (page_number pg);
  get_xobj_available_fonts xref pdf.

(** [{f.font_id: f.encoding_length for f in fonts}]. *)
Definition font_lengths (fonts : list PdfFont) : gmap string (option Z) :=
  foldl (fun m f => <[pdf_font_id f := encoding_length f]> m) ∅ fonts.

(** The three per-XObject tables, as they stand after the loop over the
    page's XObjects: [x_avail], [x_ops], [x_cmap]. *)
Definition xobj_tables : Type :=
  gmap string (gset string) * gmap string string * gmap string pyval.

Definition add_xobj_tables (avail : gset string) (cmap : gmap string (option Z))
    (pdf : Pdf) (t : xobj_tables) (x : PdfXobject) : M World xobj_tables :=
  let '(x_avail, x_ops, x_cmap) := t in
  fonts ← get_xobj_available_fonts (xref_id x) pdf;
  mret (<[xobj_xobj_id x := avail ∪ fonts]> x_avail,
        <[xobj_xobj_id x := zstd_decompress (base_operations x)]> x_ops,
        <[xobj_xobj_id x := PyDict (cmap ∪ font_lengths (xobj_pdf_font x))]> x_cmap).

Fixpoint build_xobj_tables (avail : gset string) (cmap : gmap string (option Z))
    (pdf : Pdf) (xs : list PdfXobject) (t : xobj_tables) : M World xobj_tables :=
  match xs with
  | [] => mret t
  | x :: rest => t' ← add_xobj_tables avail cmap pdf t x; build_xobj_tables avail cmap pdf rest t'
  end.

(** The operator buffers [x_ops] alone: one per XObject id, a later XObject
    with the same id replacing an earlier one. *)
Definition xobj_draw_ops_of (xs : list PdfXobject) : gmap string string :=
  foldl (fun m x => <[xobj_xobj_id x := zstd_decompress (base_operations x)]> m) ∅ xs.

Definition is_character_unit (u : RenderUnit float) : bool :=
  match payload u with
  | CharacterPayload _ => true
  | _ => false
  end.

(** [PDFCreater.update_page_content_stream]. *)
Definition update_page_content_stream (self : PDFCreater float) (check : bool)
    (pg : Page float) (pdf : Pdf) (translation_config : TranslationConfig)
    (skip_char : bool) : M World unit :=
  let bx := cropbox pg in
  avail ← get_available_font_list pdf pg;
  let ctm := " 1 0 0 1 " +:+ format_f (fneg (box_x bx)) +:+ " "
               +:+ format_f (fneg (box_y bx)) +:+ " cm " in
  let cmap := font_lengths (page_pdf_font pg) in
  t ← build_xobj_tables avail cmap pdf (pdf_xobject pg) (∅, ∅, pyval_of_length <$> cmap);
  let '(x_avail, x_ops, x_cmap) := t in
  let ctx := {| available_font_list := avail;
                page_encoding_length_map := cmap;
                all_encoding_length_map := x_cmap;
                xobj_available_fonts := x_avail;
                xobj_encoding_length_map := x_cmap;
                ctm_for_ops := ctm;
                check_font_exists := check |} in
  let p_op := ctm +:+ " " +:+ nl in
  let units := create_render_units_for_page (self_translation_config self) pg translation_config in
  let units := if skip_char then filter (fun u => is_character_unit u = false) units else units in
  r ← run_local (render_units_to_stream units ctx) (p_op, x_ops);
  let '(_, (p_op', x_ops')) := r in
  for_each (pdf_xobject pg) (fun x =>
    match x_ops' !! xobj_xobj_id x with
    | Some b => pdf_update_stream pdf (xref_id x) b
    | None => raise KeyError
    end);;
  container ← pdf_get_new_xref pdf;
  pdf_update_object pdf container "<<>>";;
  pdf_update_stream pdf container p_op';;
  pdf_page_set_contents pdf (page_number pg) container.

(** ** Post-processing in a child process *)

(** [PDFCreater.subset_fonts_in_subprocess]. *)
Definition subset_fonts_in_subprocess (pdf : Pdf) (config : TranslationConfig)
    (tag : string) : M World Pdf :=
  let t_in := get_working_file_path config ("si_" +:+ tag +:+ ".pdf") in
  let t_out := get_working_file_path config ("so_" +:+ tag +:+ ".pdf") in
  pdf_save pdf t_in save_defaults;;
  p ← process_start (SubsetFontsProcess t_in t_out);
  process_join p 60;;
  present ← path_exists t_out;
  if (present : bool) then pymupdf_open t_out else mret pdf.

(** [PDFCreater.save_pdf_with_timeout]; the keyword arguments the source
    never forwards ([deflate_fonts], [linear]) are kept in the signature. *)
Definition save_pdf_with_timeout (pdf : Pdf) (output_path : string)
    (translation_config : TranslationConfig) (garbage : Z) (deflate clean : bool)
    (deflate_fonts linear : bool) (timeout : Z) (tag : string) : M World bool :=
  let t_in := get_working_file_path translation_config ("vi_" +:+ tag +:+ ".pdf") in
  let t_out := get_working_file_path translation_config ("vo_" +:+ tag +:+ ".pdf") in
  pdf_save pdf t_in save_defaults;;
  p ← process_start (SavePdfCleanProcess t_in t_out garbage deflate clean);
  process_join p timeout;;
  present ← path_exists t_out;
  if (present : bool) then shutil_copy2 t_out output_path;; mret true
  else
    pdf_save pdf output_path
      {| garbage := Some garbage; deflate := Some deflate; clean := Some false;
         deflate_fonts := None; linear := None |};;
    mret false.

(** ** The write orchestrator *)

(** The path of the monolingual output. *)
Definition mono_output_path (config : TranslationConfig) : string :=
  let bn := path_stem (input_file config) in
  let suff := if debug config then ".debug" else "" in
  get_output_file_path config (bn +:+ suff +:+ "." +:+ lang_out config +:+ ".mono.pdf").

(** The body of the [try] in [PDFCreater.write]: one pass of the write
    sequence. *)
Definition write_pass (self : PDFCreater float) (config : TranslationConfig)
    (check : bool) : M World TranslateResult :=
  let m_out := mono_output_path config in
  pdf ← pymupdf_open (original_pdf_path self);
  font_mapper_add_font pdf (docs self);;
  with_stage stage_name (Z.of_nat (length (page (docs self))))
    (for_each (page (docs self)) (fun pg =>
       update_page_content_stream self check pg pdf config false;;
       stage_advance));;
  pdf ← (if skip_clean config then mret pdf
         else subset_fonts_in_subprocess pdf config "mono");
  for_each (mediabox_data self) (fun '(xref, data) =>
    for_each data (fun '(name, bx) =>
      try_except (pdf_xref_set_key pdf xref name bx) (fun _ => mret tt)));;
  (if no_mono config then mret tt
   else save_pdf_with_timeout pdf m_out config 1 true (negb (skip_clean config))
          true false 120 "mono";; mret tt);;
  mret {| mono_pdf_path := m_out; dual_pdf_path := None; no_watermark_path := None |}.

(** [PDFCreater.write]: the pass, and on an exception the same call again
    with [check_font_exists=True] unless it was already set.  The recursion
    is bounded by [fuel]; [None] means the bound was reached. *)
Fixpoint write_fuel (fuel : nat) (self : PDFCreater float) (config : TranslationConfig)
    (check : bool) (w : World) : option (outcome TranslateResult * World) :=
  match fuel with
  | O => None
  | S f =>
      match write_pass self config check w with
      | (Ok r, w') => Some (Ok r, w')
      | (Raise e, w') =>
          if negb check then write_fuel f self config true w'
          else Some (Raise e, w')
      end
  end.

End Writer.

(** ** Regular expressions, as far as the CMap parser uses them

    A backtracking matcher in continuation-passing style: [Star] and [Plus]
    are greedy, alternatives are tried in order, and the first success of the
    continuation wins, as in Python's [re]. *)
Inductive regex : Type :=
| Class (p : ascii -> bool)
| Lit (s : string)
| Seq (r1 r2 : regex)
| Star (r : regex)
| Plus (r : regex)
| Group (r : regex).

(** [s] without the prefix [l], if it starts with it. *)
Fixpoint strip_literal (l s : string) : option string :=
  match l, s with
  | EmptyString, _ => Some s
  | String a l', String b s' => if bool_decide (a = b) then strip_literal l' s' else None
  | String _ _, EmptyString => None
  end.

Section Matcher.
Context {R : Type}.

(** A matcher takes the text left, the last capture of the named group, and
    what to do after a match. *)
Definition matcher : Type :=
  string -> option string -> (string -> option string -> option R) -> option R.

(** Greedy repetition of [ma]; each round must consume something. *)
Fixpoint star_loop (ma : matcher) (fuel : nat) : matcher :=
  fun s cap k =>
    match fuel with
    | O => k s cap
    | S f =>
        match ma s cap (fun s' cap' =>
                if (String.length s' <? String.length s)%nat
                then star_loop ma f s' cap' k else None) with
        | Some r => Some r
        | None => k s cap
        end
    end.

Fixpoint exec (r : regex) : matcher :=
  fun s cap k =>
    match r with
    | Class p =>
        match s with
        | String c s' => if p c then k s' cap else None
        | EmptyString => None
        end
    | Lit l =>
        match strip_literal l s with
        | Some s' => k s' cap
        | None => None
        end
    | Seq a b => exec a s cap (fun s' cap' => exec b s' cap' k)
    | Star a => star_loop (exec a) (String.length s) s cap k
    | Plus a => exec a s cap (fun s' cap' => star_loop (exec a) (String.length s') s' cap' k)
    | Group a =>
        exec a s cap (fun s' _ =>
          k s' (Some (substring 0 (String.length s - String.length s') s)))
    end.

End Matcher.

(** The first match of [r] that starts at the head of [s]: the text after it
    and the named group. *)
Definition match_here (r : regex) (s : string) : option (string * option string) :=
  exec r s None (fun s' cap => Some (s', cap)).

(** [re.finditer(r, s)]: the named group of every match, left to right, the
    search going on where the last match ended. *)
Fixpoint finditer_fuel (fuel : nat) (r : regex) (s : string) : list (option string) :=
  match fuel with
  | O => []
  | S f =>
      match match_here r s with
      | Some (s', cap) =>
          if (String.length s' <? String.length s)%nat
          then cap :: finditer_fuel f r s'
          else cap :: match s with
                      | String _ s1 => finditer_fuel f r s1
                      | EmptyString => []
                      end
      | None =>
          match s with
          | String _ s1 => finditer_fuel f r s1
          | EmptyString => []
          end
      end
  end.

Definition finditer (r : regex) (s : string) : list (option string) :=
  finditer_fuel (S (String.length s)) r s.

(** [\s] in a bytes pattern: space, tab, line feed, vertical tab, form feed,
    carriage return. *)
Definition is_space_byte (c : ascii) : bool :=
  in_range 9 13 c || in_range 32 32 c.

Definition re_space : regex := Class is_space_byte.

(** [[0-9a-fA-F]]. *)
Definition is_hex_byte (c : ascii) : bool :=
  in_range 48 57 c || in_range 97 102 c || in_range 65 70 c.

Definition re_hex : regex := Class is_hex_byte.

(** [<(?P<num>[a-fA-F0-9]+)>]. *)
Definition re_mapping : regex :=
  Seq (Lit "<") (Seq (Group (Plus re_hex)) (Lit ">")).

(** One token [<[0-9a-fA-F]+>] and the white space after it. *)
Definition re_token : regex :=
  Seq (Lit "<") (Seq (Plus re_hex) (Seq (Lit ">") (Star re_space))).

(** The body of a block: one or more tokens; in the source [TOKENS] below. *)
Definition re_tokens : regex := Plus re_token.

(** [\s+beginbfrange\s* (?P<r>TOKENS) endbfrange], without the blanks. *)
Definition re_bfrange : regex :=
  Seq (Plus re_space) (Seq (Lit "beginbfrange") (Seq (Star re_space)
    (Seq (Group re_tokens) (Lit "endbfrange")))).

(** [\s+beginbfchar\s* (?P<c>TOKENS) endbfchar], without the blanks. *)
Definition re_bfchar : regex :=
  Seq (Plus re_space) (Seq (Lit "beginbfchar") (Seq (Star re_space)
    (Seq (Group re_tokens) (Lit "endbfchar")))).

(** ** The ToUnicode CMap parser *)

Definition hex_value (c : ascii) : Z :=
  let n := Z.of_nat (nat_of_ascii c) in
  if in_range 48 57 c then n - 48
  else if in_range 97 102 c then n - 87
  else n - 55.

(** [int(s, 16)] on a string of hexadecimal digits. *)
Definition int16 (s : string) : Z :=
  fold_left (fun acc c => acc * 16 + hex_value c) (list_ascii_of_string s) 0.

(** [parse_mapping]. *)
Definition parse_mapping (text : string) : list Z :=
  omap (fun cap => int16 <$> cap) (finditer re_mapping text).

(** The two ranges [apply_normalization] decomposes: Kangxi radicals and CJK
    compatibility ideographs. *)
Definition is_compatibility_code (code : Z) : bool :=
  ((0x2F00 <=? code) && (code <=? 0x2FD5)) || ((0xF900 <=? code) && (code <=? 0xFAFF)).

(** [unicodedata.normalize("NFD", chr(code))] as code points, from the
    Unicode character database. *)
Class UnicodeData : Type := { normalize_nfd : Z -> list Z }.

Section Parser.
Context `{UnicodeData}.

(** [apply_normalization]; [ord] wants exactly one character. *)
Definition apply_normalization (gid code : Z) : M cmap_t unit :=
  if is_compatibility_code code
  then
    match normalize_nfd code with
    | [d] => fun cmap => (Ok tt, <[gid := d]> cmap)
    | _ => raise TypeError
    end
  else fun cmap => (Ok tt, <[gid := code]> cmap).

(** The body of the loop over the triples of a [bfrange] block; a batch that
    is not a triple cannot be unpacked. *)
Definition apply_range (batch : list Z) : M cmap_t unit :=
  match batch with
  | [s; t; v] => for_each (seqZ s (t + 1 - s)) (fun g => apply_normalization g (v + g - s))
  | _ => raise ValueError
  end.

(** The body of the loop over the pairs of a [bfchar] block. *)
Definition apply_char (batch : list Z) : M cmap_t unit :=
  match batch with
  | [g; c] => apply_normalization g c
  | _ => raise ValueError
  end.

(** [parse_tounicode_cmap]: the dictionary it returns, or the exception. *)
Definition parse_tounicode_cmap (data : string) : outcome cmap_t :=
  let m : M cmap_t unit :=
    for_each (finditer re_bfrange data) (fun x =>
      for_each (batched (parse_mapping (default "" x)) 3) apply_range);;
    for_each (finditer re_bfchar data) (fun x =>
      for_each (batched (parse_mapping (default "" x)) 2) apply_char) in
  match m ∅ with
  | (Ok _, cmap) => Ok cmap
  | (Raise e, _) => Raise e
  end.

(** One reconstruction, as [reproduce_cmap] does it for a font:
    [make_tounicode(parse_tounicode_cmap(stream), used)]. *)
Definition reconstruct (data : string) (used : list Z) : outcome string :=
  match parse_tounicode_cmap data with
  | Ok cmap => Ok (make_tounicode cmap used)
  | Raise e => Raise e
  end.

(** Reconstruction applied to its own output: parse what [make_tounicode]
    wrote for [cmap] and write it again for the same used glyphs. *)
Definition rebuild_again (cmap : cmap_t) (used : list Z) : outcome string :=
  reconstruct (make_tounicode cmap used) used.

End Parser.

(** ** Vocabulary for the round trip through the parser

    The shape of the text [make_tounicode] writes, and what it takes for the
    patterns of the parser to start, or not to start, a match in it. *)

(** The first byte of [s], if any, is outside the class [p]. *)
Definition not_head (p : ascii -> bool) (s : string) : Prop :=
  match s with
  | String c _ => p c = false
  | EmptyString => True
  end.

(** [s] without its leading run of bytes of the class [p]. *)
Fixpoint skip_class (p : ascii -> bool) (s : string) : string :=
  match s with
  | String c s' => if p c then skip_class p s' else s
  | EmptyString => EmptyString
  end.

(** The shape of the two block patterns: white space, a keyword, the rest. *)
Definition block_pattern (keyword : string) (rest : regex) : regex :=
  Seq (Plus re_space) (Seq (Lit keyword) rest).

Definition not_space (c : ascii) : bool := negb (is_space_byte c).

(** The text is empty or starts with a byte that is neither white space nor
    [b], the first byte of both block keywords. *)
Definition other_head (s : string) : Prop :=
  match s with
  | String c _ => is_space_byte c = false /\ c <> "b"%char
  | EmptyString => True
  end.

(** A definite difference between [l] and [x] before either ends. *)
Fixpoint mismatch (l x : string) : bool :=
  match l, x with
  | String a l', String b x' => if bool_decide (a = b) then mismatch l' x' else true
  | _, _ => false
  end.

(** The check that no block starts inside [a], decided inside [a] alone. *)
Fixpoint inert (keyword a : string) : bool :=
  match a with
  | EmptyString => true
  | String c a' =>
      (not_space c || mismatch keyword (skip_class is_space_byte a')) && inert keyword a'
  end.

(** No match of [r] starts inside [a] when [a] is followed by [b]. *)
Fixpoint skippable (r : regex) (a b : string) : Prop :=
  match a with
  | EmptyString => True
  | String c a' => match_here r (String c a' +:+ b) = None /\ skippable r a' b
  end.

Definition concat_str (l : list string) : string := foldr String.append "" l.

(** A token as text: [<], hexadecimal digits, [>], white space. *)
Definition token_text (t : string * string) : string :=
  "<" +:+ t.1 +:+ ">" +:+ t.2.

Definition valid_token (t : string * string) : Prop :=
  string_forall is_hex_byte t.1 = true /\ t.1 <> "" /\
  string_forall is_space_byte t.2 = true.

(** After the tokens comes something that is no token and no white space. *)
Definition ends_tokens (s : string) : Prop :=
  not_head is_space_byte s /\ strip_literal "<" s = None.

(** Decimal digits. *)
Definition is_decimal (c : ascii) : bool := in_range 48 57 c.

(** The lines after the first, each behind its line feed. *)
Definition lines_text (l : list string) : string :=
  concat_str (map (fun x => nl +:+ x) l).

(** The entries of one block, each line closed by its line feed: what the
    group of the block pattern captures. *)
Definition body_text (b : list (Z * Z)) : string :=
  concat_str (map (fun e => bfchar_line e +:+ nl) b).

Definition block_text (b : list (Z * Z)) : string :=
  nl +:+ format_d (Z.of_nat (length b)) +:+ " beginbfchar" +:+ nl
     +:+ body_text b +:+ "endbfchar".

(** An entry the round trip preserves: glyph and code are non-negative and
    the code is below U+10000. *)
Definition plain_entry (e : Z * Z) : Prop := 0 <= e.1 /\ 0 <= e.2 < 0x10000.

(** A batch as [batched] yields them, with entries the round trip keeps. *)
Definition plain_batch (b : list (Z * Z)) : Prop := b <> [] /\ Forall plain_entry b.

Definition entry_tokens (e : Z * Z) : list (string * string) :=
  [(format_04x e.1, ""); (format_04x e.2, nl)].

(** The map after writing the entries [es] into [m], in order. *)
Definition with_entries (m : cmap_t) (es : list (Z * Z)) : cmap_t :=
  foldl (fun m e => <[e.1 := e.2]> m) m es.

Section KeptCodes.
Context `{UnicodeData}.

(** A code the parser stores as it reads it: outside the two compatibility
    ranges, or decomposing to itself. *)
Definition kept_code (c : Z) : Prop :=
  is_compatibility_code c = true -> normalize_nfd c = [c].

End KeptCodes.

(** ** [to_int], [parse_truetype_data] and [reproduce_cmap] *)

(** [re.search(r, s)]: the named group of the leftmost match, if there is one. *)
Fixpoint search (r : regex) (s : string) : option (option string) :=
  match match_here r s with
  | Some (_, cap) => Some cap
  | None =>
      match s with
      | String _ s' => search r s'
      | EmptyString => None
      end
  end.

(** [\d+], the whole match being the group read.  On a [str] the class [\d]
    also holds the decimal digits outside ASCII; the byte class here is that
    of ASCII text, which is what the statements about [to_int] are for. *)
Definition re_number : regex := Group (Plus (Class is_decimal)).

(** [int(s)] on a run of decimal digits.  The limit some interpreters put on
    the length of such a run (4300 digits) is not part of the definition;
    the statements keep below it. *)
Definition int10 (s : string) : Z :=
  fold_left (fun acc c => acc * 10 + (Z.of_nat (nat_of_ascii c) - 48))
            (list_ascii_of_string s) 0.

(** [to_int]: [None] has no [group]. *)
Definition to_int (src : string) : outcome Z :=
  match search re_number src with
  | Some cap => Ok (int10 (default "" cap))
  | None => Raise AttributeError
  end.

(** A byte of ASCII text, and a byte that is no decimal digit. *)
Definition is_ascii_byte (c : ascii) : bool := (nat_of_ascii c <? 128)%nat.

Definition no_digit (c : ascii) : bool := negb (is_decimal c).

(** The font engine, as [parse_truetype_data] uses it: opening a face on the
    bytes of a font file, its number of glyphs, and for a glyph index the
    truth value of [face.load_glyph(i) or face.glyph.outline.contours]
    (loading may raise). *)
Class FontEngine (Face : Type) : Type := {
  face_open : option string -> outcome Face;
  num_glyphs : Face -> Z;
  glyph_is_drawn : Face -> Z -> outcome bool;
}.

Section TrueType.
Context `{FontEngine Face}.

(** [[i for i in l if face.load_glyph(i) or face.glyph.outline.contours]]. *)
Fixpoint drawn_glyphs (face : Face) (l : list Z) : outcome (list Z) :=
  match l with
  | [] => Ok []
  | i :: rest =>
      match glyph_is_drawn face i with
      | Raise e => Raise e
      | Ok b =>
          match drawn_glyphs face rest with
          | Raise e => Raise e
          | Ok r => Ok (if b then i :: r else r)
          end
      end
  end.

(** [parse_truetype_data]. *)
Definition parse_truetype_data (data : option string) : outcome (list Z) :=
  match face_open data with
  | Raise e => Raise e
  | Ok face => drawn_glyphs face (seqZ 0 (num_glyphs face))
  end.

End TrueType.

(** A row of [page.get_fonts()]: the object number [f[0]], the file
    extension [f[1]] and the base font name [f[3]]. *)
Record FontRow : Type := {
  row_xref : Z;
  row_ext : string;
  row_basefont : string }.

(** The document [reproduce_cmap] works on.  Reading does not change it;
    [xref_get_key] answers a pair of which the second part is read;
    [xref_stream] answers [None] for an object that is no stream. *)
Class FontStore (Doc PageRef : Type) : Type := {
  doc_pages : Doc -> list PageRef;                              (* [for pg in doc] *)
  get_fonts : PageRef -> Doc -> list FontRow;
  xref_get_key : Z -> string -> Doc -> outcome (string * string);
  xref_stream : Z -> Doc -> outcome (option string);
  update_stream : Z -> string -> M Doc unit;
  FONT_NAMES : gset string;
}.

(** A read of the state as a step of a computation. *)
Definition reading {S A} (f : S -> outcome A) : M S A := fun s => (f s, s).

Section ReproduceCmap.
Context `{UnicodeData} `{FontEngine Face} `{FontStore Doc PageRef}.

(** [parse_tounicode_cmap] on what [xref_stream] answered: [re.finditer]
    wants bytes. *)
Definition parse_stream (data : option string) : outcome cmap_t :=
  match data with
  | Some d => parse_tounicode_cmap d
  | None => Raise TypeError
  end.

(** The body of the [try] for one font. *)
Definition rebuild_font_cmap (f : FontRow) : M Doc unit :=
  m ← reading (xref_get_key (row_xref f) "ToUnicode");
  fd ← reading (xref_get_key (row_xref f) "DescendantFonts");
  mi ← lift_outcome (to_int m.2);
  d ← lift_outcome (to_int fd.2);
  ff ← reading (xref_get_key d "FontDescriptor/FontFile2");
  stream ← reading (xref_stream mi);
  cmap ← lift_outcome (parse_stream stream);
  fi ← lift_outcome (to_int ff.2);
  file ← reading (xref_stream fi);
  used ← lift_outcome (parse_truetype_data file);
  update_stream mi (make_tounicode cmap used).

(** One font of one page: the test, and the body under its [except: pass]. *)
Definition reproduce_font (f : FontRow) : M Doc unit :=
  if bool_decide (row_ext f = "ttf") && bool_decide (row_basefont f ∈ FONT_NAMES)
  then try_except (rebuild_font_cmap f) (fun _ => mret tt)
  else mret tt.

(** [reproduce_cmap]; the document it returns is the state it leaves. *)
Definition reproduce_cmap : M Doc unit :=
  fun doc =>
    for_each (doc_pages doc) (fun pg =>
      fonts ← reading (fun d => Ok (get_fonts pg d));
      for_each fonts reproduce_font) doc.

(** What the body of the [try] reads of the document for one font: the
    number in its [ToUnicode] entry, the stream of that object and the
    stream of its font file. *)
Definition font_reads (f : FontRow) : M Doc (Z * option string * option string) :=
  m ← reading (xref_get_key (row_xref f) "ToUnicode");
  fd ← reading (xref_get_key (row_xref f) "DescendantFonts");
  mi ← lift_outcome (to_int m.2);
  d ← lift_outcome (to_int fd.2);
  ff ← reading (xref_get_key d "FontDescriptor/FontFile2");
  stream ← reading (xref_stream mi);
  fi ← lift_outcome (to_int ff.2);
  file ← reading (xref_stream fi);
  mret (mi, stream, file).

End ReproduceCmap.

(** ** Vocabulary for CMap texts with ranges *)

(** One triple of a [bfrange] block as it is usually written. *)
Definition range_line (s t v : Z) : string :=
  "<" +:+ format_04x s +:+ "> <" +:+ format_04x t +:+ "> <" +:+ format_04x v +:+ ">".

(** A [bfrange] block of one triple. *)
Definition range_block_text (s t v : Z) : string :=
  nl +:+ "1 beginbfrange" +:+ nl +:+ range_line s t v +:+ nl +:+ "endbfrange".

(** A CMap text: the header, [bfchar] blocks, one [bfrange] block, the footer. *)
Definition cmap_text_with_range (bs : list (list (Z * Z))) (s t v : Z) : string :=
  cmap_header +:+ concat_str (map block_text bs) +:+ range_block_text s t v
              +:+ lines_text cmap_footer.

(** The entries of a range: glyph [g] of [s .. t] gets [v + g - s]. *)
Definition range_entries (s t v : Z) : list (Z * Z) :=
  map (fun g => (g, v + g - s)) (seqZ s (t + 1 - s)).

(** The tokens of a range line and its line feed. *)
Definition range_tokens (s t v : Z) : list (string * string) :=
  [(format_04x s, " "); (format_04x t, " "); (format_04x v, nl)].

(** A CMap text whose only block holds the entries [b] and then a glyph with
    no code. *)
Definition cmap_text_lone_glyph (b : list (Z * Z)) (g : Z) : string :=
  cmap_header +:+ nl +:+ format_d (Z.of_nat (S (length b))) +:+ " beginbfchar" +:+ nl
              +:+ body_text b +:+ "<" +:+ format_04x g +:+ ">" +:+ nl
              +:+ "endbfchar" +:+ lines_text cmap_footer.

(** A range whose codes are listed one by one, in brackets. *)
Definition array_line (s t v : Z) : string :=
  "<" +:+ format_04x s +:+ "> <" +:+ format_04x t +:+ "> [<" +:+ format_04x v +:+ ">]".

(** A CMap text whose only block is a [bfrange] block of a plain triple
    followed by a range with bracketed codes. *)
Definition cmap_text_with_array (s t v a b c : Z) : string :=
  cmap_header +:+ nl +:+ "2 beginbfrange" +:+ nl +:+ range_line s t v +:+ nl
              +:+ array_line a b c +:+ nl +:+ "endbfrange" +:+ lines_text cmap_footer.

(** The tokens of that block before the bracket. *)
Definition array_tokens (s t v a b : Z) : list (string * string) :=
  [(format_04x s, " "); (format_04x t, " "); (format_04x v, nl);
   (format_04x a, " "); (format_04x b, " ")].

(** What follows the tokens of a block when the block is not closed there:
    neither white space, nor a token, nor the closing keyword. *)
Definition breaks_block (closing rest : string) : Prop :=
  not_head is_space_byte rest /\
  strip_literal "<" rest = None /\
  strip_literal closing rest = None.

(** ** Vocabulary for the collector, the assembler and the orchestrator *)

Section AssemblerVocabulary.
Context `{Primitives float}.

(** The bytes that the units of [l] addressed to one buffer leave there, in
    the order of [l]; [None] names the page buffer. *)
Definition bytes_for (ctx : RenderContext) (ops : gmap string string)
    (target : option string) (l : list (RenderUnit float)) : string :=
  concat_str (map (fun u => emitted u ctx)
                  (filter (fun u => route ops (xobj_id u) = target) l)).

End AssemblerVocabulary.

Section CollectorVocabulary.
Context {float : Type}.

(** The characters and the forms [create_render_units_for_page] collects,
    in its order. *)
Definition collected_chars (self_config : TranslationConfig) (pg : Page float)
    : list (PdfCharacter float) :=
  pdf_character pg ++ concat (map (render_paragraph_to_char self_config) (pdf_paragraph pg)).

Definition collected_forms (pg : Page float) : list (PdfForm float) :=
  pdf_form pg
  ++ concat (map (fun p => concat (map composition_forms (pdf_paragraph_composition p)))
                 (pdf_paragraph pg)).

(** The order a unit gets from an attribute read with a default. *)
Definition effective_order (a : attr Z) (dflt : Z) : Z :=
  default order_sentinel (getattr a dflt).

End CollectorVocabulary.

Section MediaBoxes.
Context `{Collaborators World Pdf Proc float}.

(** The loop of [write] over [self.mediabox_data]: every box is set, a
    failure to set one is passed over. *)
Definition restore_mediaboxes (pdf : Pdf) (data : list (Z * list (string * string)))
    : M World unit :=
  for_each data (fun '(xref, boxes) =>
    for_each boxes (fun '(name, bx) =>
      try_except (pdf_xref_set_key pdf xref name bx) (fun _ => mret tt))).

End MediaBoxes.

(** ** The paragraph translator ([il_translator_llm_only.py])

    Of [ILTranslatorLLMOnly] the two parts that are computations of this
    module alone: the font maps of a page, and the way [translate] cuts the
    paragraphs of the pages into the batches it submits. *)

(** [{f.font_id: f for f in fonts}]. *)
Definition font_by_id (fonts : list PdfFont) : gmap string PdfFont :=
  foldl (fun m f => <[pdf_font_id f := f]> m) ∅ fonts.

Section FontMaps.
Context {float : Type}.

(** [ILTranslatorLLMOnly._build_font_maps]: the fonts of the page, and for
    each XObject the fonts of the page overlaid with its own. *)
Definition _build_font_maps (pg : Page float)
    : gmap string PdfFont * gmap string (gmap string PdfFont) :=
  let pf := font_by_id (page_pdf_font pg) in
  let xf :=
    foldl (fun m x => <[xobj_xobj_id x := font_by_id (xobj_pdf_font x) ∪ pf]> m)
          ∅ (pdf_xobject pg) in
  (pf, xf).

End FontMaps.

(** What [translate] reads: the identity [id(p)] and the text [p.unicode] of
    a paragraph, the paragraphs of a page ([page.pdf_paragraph]), and the
    tokenizer's count of a text. *)
Class ParagraphSource (Para PageRef : Type) : Type := {
  para_id : Para -> Z;
  unicode : Para -> option string;
  pdf_paragraph_of : PageRef -> list Para;
  calc_token_count : string -> Z;
}.

Section Batching.
Context `{ParagraphSource Para PageRef}.

(** One call of [e.submit(self.translate_paragraph, ...)]: the batch, its
    page, the token count and the number [self.mid] passed along. *)
Record submission : Type := {
  sub_paragraphs : list Para;
  sub_page : PageRef;
  sub_tokens : Z;
  sub_mid : Z }.

(** The state of the loops: the identities seen ([t_ids]), the counter
    [self.mid], and the submissions made so far. *)
Record pool : Type := {
  t_ids : gset Z;
  mid : Z;
  submitted : list submission }.

(** [self.mid += 1; e.submit(...)]. *)
Definition submit (pg : PageRef) (batch : list Para) (tokens : Z) (s : pool) : pool :=
  {| t_ids := t_ids s;
     mid := mid s + 1;
     submitted := submitted s ++ [ {| sub_paragraphs := batch; sub_page := pg;
                                      sub_tokens := tokens; sub_mid := mid s + 1 |} ] |}.

(** The body of the loop over the paragraphs of a page, on the batch being
    filled, its token count and the state. *)
Definition take_paragraph (pg : PageRef) (st : list Para * Z * pool) (p : Para)
    : list Para * Z * pool :=
  let '(batch, tokens, s) := st in
  match unicode p with
  | None => st
  | Some u =>
      if bool_decide (para_id p ∈ t_ids s) || bool_decide (u = "") then st
      else
        let tokens := tokens + calc_token_count u in
        let batch := batch ++ [p] in
        let s := {| t_ids := {[ para_id p ]} ∪ t_ids s; mid := mid s;
                    submitted := submitted s |} in
        if (200 <? tokens) || (5 <? Z.of_nat (length batch))
        then ([], 0, submit pg batch tokens s)
        else (batch, tokens, s)
  end.

(** The body of the loop over the pages. *)
Definition translate_page (s : pool) (pg : PageRef) : pool :=
  let '(batch, tokens, s') := foldl (take_paragraph pg) ([], 0, s) (pdf_paragraph_of pg) in
  match batch with
  | [] => s'
  | _ => submit pg batch tokens s'
  end.

(** [ILTranslatorLLMOnly.translate], as far as the submissions go. *)
Definition translate (pages : list PageRef) : pool :=
  foldl translate_page {| t_ids := ∅; mid := 0; submitted := [] |} pages.

(** A paragraph with a text to translate. *)
Definition has_text (p : Para) : Prop :=
  exists u, unicode p = Some u /\ u <> "".

(** The tokens of a list of paragraphs. *)
Definition tokens_of (l : list Para) : Z :=
  foldr (fun p acc => calc_token_count (default "" (unicode p)) + acc) 0 l.

(** Everything taken so far: the batches submitted and the one being filled. *)
Definition all_taken (s : pool) (batch : list Para) : list Para :=
  concat (sub_paragraphs <$> submitted s) ++ batch.

(** A batch as [translate] submits them. *)
Definition batch_ok (b : submission) : Prop :=
  (1 <= length (sub_paragraphs b) <= 6)%nat /\
  sub_tokens b = tokens_of (sub_paragraphs b) /\
  tokens_of (removelast (sub_paragraphs b)) <= 200 /\
  Forall (fun p => p ∈ pdf_paragraph_of (sub_page b) /\ has_text p) (sub_paragraphs b).

(** The state between two submissions: counter and numbers agree with the
    submissions made, each of them a batch as described. *)
Definition pool_ok (s : pool) : Prop :=
  Forall batch_ok (submitted s) /\
  mid s = Z.of_nat (length (submitted s)) /\
  sub_mid <$> submitted s = seqZ 1 (Z.of_nat (length (submitted s))).

(** The batch being filled for the page [pg]. *)
Definition filling (pg : PageRef) (batch : list Para) (tokens : Z) : Prop :=
  tokens = tokens_of batch /\ (length batch <= 5)%nat /\ tokens <= 200 /\
  tokens_of (removelast batch) <= 200 /\
  Forall (fun p => p ∈ pdf_paragraph_of pg /\ has_text p) batch.

(** What has been taken of the paragraphs [seen] so far. *)
Definition covers (seen : list Para) (s : pool) (batch : list Para) : Prop :=
  t_ids s = list_to_set (para_id <$> all_taken s batch) /\
  NoDup (para_id <$> all_taken s batch) /\
  all_taken s batch `sublist_of` seen /\
  (forall p, p ∈ seen -> has_text p -> para_id p ∈ t_ids s).

End Batching.

Arguments submission : clear implicits.
Arguments pool : clear implicits.

Section RoutingVocabulary.
Context `{Primitives float}.

(** The bytes the units of [l] emit, one after the other. *)
Definition emitted_by (ctx : RenderContext) (l : list (RenderUnit float)) : string :=
  concat_str (map (fun u => emitted u ctx) l).

(** The unit is addressed to no XObject of the page: its id is [None] or is
    not an XObject id of the page. *)
Definition addressed_to_page (pg : Page float) (u : RenderUnit float) : Prop :=
  match xobj_id u with
  | Some k => k ∉ xobj_xobj_id <$> pdf_xobject pg
  | None => True
  end.

#[global] Instance addressed_to_page_dec (pg : Page float) (u : RenderUnit float)
  : Decision (addressed_to_page pg u).
Proof. unfold addressed_to_page. destruct (xobj_id u); apply _. Defined.

End RoutingVocabulary.

(** ** Reading a ToUnicode CMap text line by line

    The CMap format as a reader of the text [make_tounicode] returns: the
    lines of the text, the [bfchar] blocks among them (from a line that ends
    in [beginbfchar] to the line [endbfchar]) and, for each line of a block,
    the entry [<glyph><code>] it holds, the code being one UTF-16 code unit
    or a surrogate pair.  This reader is the yardstick for what the writer
    writes; it is not code of the module, whose own parser is
    [parse_tounicode_cmap]. *)

Definition is_line_feed (c : ascii) : bool := bool_decide (c = "010"%char).

(** [text.split("\n")]. *)
Fixpoint text_lines (s : string) : list string :=
  match s with
  | EmptyString => [EmptyString]
  | String c s' =>
      if is_line_feed c then EmptyString :: text_lines s'
      else match text_lines s' with
           | l :: ls => String c l :: ls
           | [] => [String c EmptyString]
           end
  end.

(** The hexadecimal digits a string starts with, and what follows them. *)
Fixpoint span_hex (s : string) : string * string :=
  match s with
  | String c s' =>
      if is_hex_byte c then (String c (span_hex s').1, (span_hex s').2)
      else (EmptyString, s)
  | EmptyString => (EmptyString, EmptyString)
  end.

(** The code point of a UTF-16BE string written in hexadecimal: four digits
    are one code unit, eight digits a high and a low surrogate. *)
Definition utf16be_code (h : string) : option Z :=
  if bool_decide (String.length h = 4%nat) then Some (int16 h)
  else if bool_decide (String.length h = 8%nat) then
    let hi := int16 (substring 0 4 h) in
    let lo := int16 (substring 4 4 h) in
    if bool_decide (0xD800 <= hi <= 0xDBFF /\ 0xDC00 <= lo <= 0xDFFF)
    then Some (0x10000 + (hi - 0xD800) * 0x400 + (lo - 0xDC00))
    else None
  else None.

(** The entry of a line [<glyph><code>]; [None] for any other line. *)
Definition read_entry (line : string) : option (Z * Z) :=
  match strip_literal "<" line with
  | Some s1 =>
      match strip_literal "><" (span_hex s1).2 with
      | Some s2 =>
          if bool_decide ((span_hex s2).2 = ">") && negb (bool_decide ((span_hex s1).1 = ""))
          then (fun code => (int16 (span_hex s1).1, code)) <$> utf16be_code (span_hex s2).1
          else None
      | None => None
      end
  | None => None
  end.

(** [s.endswith(suffix)]. *)
Fixpoint ends_with (suffix s : string) : bool :=
  bool_decide (s = suffix)
  || match s with
     | String _ s' => ends_with suffix s'
     | EmptyString => false
     end.

(** The blocks among the lines: [cur] holds the lines read of the block that
    is open, if one is.  Every line of a block is read as an entry, a line
    that is none giving [None]. *)
Fixpoint read_blocks (cur : option (list (option (Z * Z)))) (lines : list string)
    : list (list (option (Z * Z))) :=
  match lines with
  | [] => []
  | l :: rest =>
      match cur with
      | None => read_blocks (if ends_with " beginbfchar" l then Some [] else None) rest
      | Some acc =>
          if bool_decide (l = "endbfchar") then acc :: read_blocks None rest
          else read_blocks (Some (acc ++ [read_entry l])) rest
      end
  end.

(** The [bfchar] blocks of a CMap text, each the list of its lines read as
    entries. *)
Definition cmap_text_blocks (text : string) : list (list (option (Z * Z))) :=
  read_blocks None (text_lines text).

(** A glyph index with a Unicode code point. *)
Definition code_point_entry (e : Z * Z) : Prop :=
  0 <= e.1 /\ 0 <= e.2 <= 0x10FFFF.

(** ** Fixtures for examples

    A fixed-point stand-in for [float] (an integer number of millionths),
    printed with six decimals, and collaborators over a world that is just
    the list of files present: documents save and open without failing, and
    a child process never leaves an output file behind (it hangs). *)
Definition format_micro (v : Z) : string :=
  (if v <? 0 then "-" else "") +:+ format_d (Z.abs v / 1000000) +:+ "."
    +:+ digits_fixed 10 6 (Z.abs v mod 1000000).

#[global] Instance micro_primitives : Primitives Z := {|
  format_f := format_micro;
  format_F := format_micro;
  format_6f := format_micro;
  fneg := Z.opp;
  fsub := Z.sub;
  matrix_to_bytes := fun m =>
    if bool_decide (length m = 6%nat)
    then Ok (join " " (map format_micro m) +:+ " cm")
    else Raise ValueError;
  zstd_decompress := fun s => s |}.

Definition file_present (p : string) (files : list string) : bool :=
  existsb (String.eqb p) files.

(** [needle in haystack]. *)
Definition mentions (needle haystack : string) : bool :=
  match String.index 0 needle haystack with
  | Some _ => true
  | None => false
  end.

(** The example world: the files present, whether a child process gets its
    work done before the parent stops waiting, and a font name that makes the
    PDF library refuse any stream that selects it. *)
Record toy_world : Type := {
  toy_files : list string;
  toy_child_finishes : bool;
  toy_refused_font : option string }.

Definition toy_add_file (p : string) (w : toy_world) : toy_world :=
  {| toy_files := p :: toy_files w;
     toy_child_finishes := toy_child_finishes w;
     toy_refused_font := toy_refused_font w |}.

Definition process_output (t : process_target) : string :=
  match t with
  | SubsetFontsProcess _ o => o
  | SavePdfCleanProcess _ o _ _ _ => o
  end.

#[global] Instance toy_collaborators : Collaborators toy_world string unit Z := {|
  pymupdf_open := fun p => mret p;
  pdf_save := fun _ p _ => fun w => (Ok tt, toy_add_file p w);
  pdf_page_xref := fun _ n => mret n;
  pdf_page_set_contents := fun _ _ _ => mret tt;
  pdf_update_stream := fun _ _ content => fun w =>
    match toy_refused_font w with
    | Some f =>
        if mentions ("/" +:+ f +:+ " ") content then (Raise (LibraryError 1), w)
        else (Ok tt, w)
    | None => (Ok tt, w)
    end;
  pdf_get_new_xref := fun _ => mret 1000;
  pdf_update_object := fun _ _ _ => mret tt;
  pdf_xref_set_key := fun _ _ _ _ => mret tt;
  declared_fonts := fun _ _ _ => ∅;
  font_mapper_add_font := fun _ _ => mret tt;
  stage_start := fun _ _ => mret tt;
  stage_advance := mret tt;
  stage_exit := mret tt;
  get_output_file_path := fun _ f => "out/" +:+ f;
  get_working_file_path := fun _ f => "work/" +:+ f;
  path_stem := fun p => p;
  path_exists := fun p => fun w => (Ok (file_present p (toy_files w)), w);
  shutil_copy2 := fun _ dst => fun w => (Ok tt, toy_add_file dst w);
  process_start := fun t => fun w =>
    (Ok tt, if toy_child_finishes w then toy_add_file (process_output t) w else w);
  process_join := fun _ _ => mret tt |}.

(** A world with no file yet, where children hang and nothing is refused. *)
Definition hung_world : toy_world :=
  {| toy_files := []; toy_child_finishes := false; toy_refused_font := None |}.

(** The same, with a PDF library that refuses streams selecting [F1]. *)
Definition picky_world : toy_world :=
  {| toy_files := []; toy_child_finishes := false; toy_refused_font := Some "F1" |}.

(** Code points outside the two compatibility ranges are never looked up, so
    a table that decomposes nothing serves the examples. *)
#[global] Instance no_decomposition : UnicodeData := {| normalize_nfd := fun c => [c] |}.

(** A horizontal character [A] (glyph id [0x41]) in font [F1], box corner
    at (10, 20), size 12; and a line feed in the same font. *)
Definition sample_style : PdfStyle Z :=
  {| font_id := "F1"; font_size := 12000000; graphic_state := None |}.

Definition sample_box : Box Z :=
  {| box_x := 10000000; box_y := 20000000; box_x2 := 16000000; box_y2 := 32000000 |}.

Definition sample_char (unicode : string) (cid : option Z) : PdfCharacter Z :=
  {| char_unicode := Some unicode; pdf_character_id := cid; pdf_style := sample_style;
     vertical := false; box := sample_box; char_xobj_id := None;
     char_render_order := Holds 1 |}.

(** A context with no declared font at all, in which [F1] has the given
    encoding length in the page table (or none when [len] is [None]). *)
Definition sample_context (len : option Z) (strict : bool) : RenderContext :=
  {| available_font_list := ∅;
     page_encoding_length_map :=
       match len with Some n => {[ "F1" := Some n ]} | None => ∅ end;
     all_encoding_length_map := ∅;
     xobj_available_fonts := ∅;
     xobj_encoding_length_map := ∅;
     ctm_for_ops := "";
     check_font_exists := strict |}.


(** A paragraph of two characters, a page holding it, a one-page document
    and its creator. *)
Definition sample_paragraph : PdfParagraph Z :=
  {| pdf_paragraph_composition :=
       [ {| comp_pdf_character := Some (sample_char "A" (Some 0x41));
            comp_pdf_formula := None |};
         {| comp_pdf_character := Some (sample_char "B" (Some 0x42));
            comp_pdf_formula := None |} ] |}.

Definition sample_page : Page Z :=
  {| page_number := 0;
     cropbox := sample_box;
     page_pdf_font := [ {| pdf_font_id := "F1"; encoding_length := Some 2 |} ];
     pdf_xobject := [ {| xobj_xobj_id := "X1"; xref_id := 7; xobj_pdf_font := [];
                         base_operations := "q Q " |} ];
     pdf_character := [];
     pdf_paragraph := [sample_paragraph];
     pdf_form := [] |}.

Definition sample_config (lang : string) : TranslationConfig :=
  {| input_file := "in"; lang_out := lang; debug := false;
     skip_form_render := false; skip_clean := false; no_mono := false |}.

Definition sample_creator (lang : string) : PDFCreater Z :=
  {| original_pdf_path := "in.pdf";
     docs := {| page := [sample_page] |};
     self_translation_config := sample_config lang;
     mediabox_data := [(3, [("MediaBox", "[0 0 10 10]")])] |}.

(** A world with no file yet where children finish their work in time. *)
Definition quick_world : toy_world :=
  {| toy_files := []; toy_child_finishes := true; toy_refused_font := None |}.

(** A form drawn through the XObject [Im1], with the given relocation
    transform; a character of font [F1] in the XObject [X1] that carries no
    render order; a page holding both, whose XObject [X1] declares [F1]
    with another encoding length than the page does. *)
Definition sample_form (relocation : list Z) : PdfForm Z :=
  {| relocation_transform := relocation;
     pdf_matrix := [1000000; 0; 0; 1000000; 0; 0];
     form_graphic_state := {| passthrough_per_char_instruction := Some "" |};
     pdf_form_subtype := {| pdf_xobj_form := Some {| do_args := "Im1" |} |};
     form_xobj_id := None;
     form_render_order := Missing |}.

Definition unordered_char : PdfCharacter Z :=
  {| char_unicode := Some "A"; pdf_character_id := Some 0x41; pdf_style := sample_style;
     vertical := false; box := sample_box; char_xobj_id := Some "X1";
     char_render_order := Missing |}.

Definition layered_page : Page Z :=
  {| page_number := 0;
     cropbox := sample_box;
     page_pdf_font := [ {| pdf_font_id := "F1"; encoding_length := Some 2 |} ];
     pdf_xobject := [ {| xobj_xobj_id := "X1"; xref_id := 7;
                         xobj_pdf_font := [ {| pdf_font_id := "F1";
                                               encoding_length := Some 1 |} ];
                         base_operations := "q Q " |} ];
     pdf_character := [unordered_char];
     pdf_paragraph := [];
     pdf_form := [sample_form []] |}.

(** The context [update_page_content_stream] builds for [layered_page] when
    the page declares the font [F9] and the XObject declares none. *)
Definition layered_context : RenderContext :=
  {| available_font_list := {[ "F9" ]};
     page_encoding_length_map := {[ "F1" := Some 2 ]};
     all_encoding_length_map :=
       <[ "X1" := PyDict {[ "F1" := Some 2 ]} ]> {[ "F1" := PyInt 2 ]};
     xobj_available_fonts := {[ "X1" := {[ "F9" ]} ]};
     xobj_encoding_length_map :=
       <[ "X1" := PyDict {[ "F1" := Some 2 ]} ]> {[ "F1" := PyInt 2 ]};
     ctm_for_ops := "";
     check_font_exists := true |}.

(** A font engine for examples: a font file is a text of [0]s and [1]s, one
    per glyph, [1] for a glyph that is drawn. *)
#[global] Instance toy_font_engine : FontEngine (list bool) := {|
  face_open := fun data =>
    match data with
    | Some d => Ok (map (fun c => bool_decide (c = "1"%char)) (list_ascii_of_string d))
    | None => Raise (LibraryError 2)
    end;
  num_glyphs := fun face => Z.of_nat (length face);
  glyph_is_drawn := fun face i =>
    match face !! Z.to_nat i with
    | Some b => Ok b
    | None => Raise (LibraryError 3)
    end |}.

(** A document for examples: one page, its font rows, the entries of its
    objects and the streams; a missing entry reads [null], as in the PDF
    library. *)
Record toy_doc : Type := {
  toy_rows : list FontRow;
  toy_keys : gmap (Z * string) string;
  toy_streams : gmap Z string }.

#[global] Instance toy_font_store : FontStore toy_doc unit := {|
  doc_pages := fun _ => [tt];
  get_fonts := fun _ d => toy_rows d;
  xref_get_key := fun x key d =>
    Ok (match toy_keys d !! (x, key) with
        | Some v => ("xref", v)
        | None => ("null", "null")
        end);
  xref_stream := fun x d => Ok (toy_streams d !! x);
  update_stream := fun x content d =>
    (Ok tt, {| toy_rows := toy_rows d; toy_keys := toy_keys d;
               toy_streams := <[x := content]> (toy_streams d) |});
  FONT_NAMES := {[ "NotoSans" ]} |}.

(** The font [NotoSans] at object 5, its CMap (glyphs 1 and 2) at object 12
    and its font file (of which only glyph 1 is drawn) at object 9; and a
    Type 1 font at object 20. *)
Definition sample_doc : toy_doc :=
  {| toy_rows := [ {| row_xref := 5; row_ext := "ttf"; row_basefont := "NotoSans" |};
                   {| row_xref := 20; row_ext := "pfa"; row_basefont := "Times" |} ];
     toy_keys := {[ (5, "ToUnicode") := "12 0 R";
                    (5, "DescendantFonts") := "[6 0 R]";
                    (6, "FontDescriptor/FontFile2") := "9 0 R" ]};
     toy_streams := {[ 12 := make_tounicode {[ 1 := 0x41; 2 := 0x42 ]} [1; 2];
                       9 := "010" ]} |}.

(** The same document with no font the loop works on. *)
Definition idle_doc : toy_doc :=
  {| toy_rows := [ {| row_xref := 20; row_ext := "pfa"; row_basefont := "Times" |} ];
     toy_keys := ∅;
     toy_streams := ∅ |}.

(** The sample document with the CMap of [NotoSans] rewritten for the one
    glyph that is drawn. *)
Definition reproduced_doc : toy_doc :=
  {| toy_rows := toy_rows sample_doc;
     toy_keys := toy_keys sample_doc;
     toy_streams := <[ 12 := make_tounicode {[ 1 := 0x41; 2 := 0x42 ]} [1] ]>
                      (toy_streams sample_doc) |}.

(** Paragraphs for examples: an identity and a text; a page is the list of
    its paragraphs, and a text counts a hundred tokens per byte. *)
#[global] Instance toy_paragraphs
    : ParagraphSource (Z * option string) (list (Z * option string)) := {|
  para_id := fst;
  unicode := snd;
  pdf_paragraph_of := fun pg => pg;
  calc_token_count := fun u => 100 * Z.of_nat (String.length u) |}.

(** Two pages: on the first, a paragraph of two hundred tokens, one of a
    hundred that is listed twice, one without text and one with an empty
    text; on the second, one paragraph. *)
Definition sample_pages : list (list (Z * option string)) :=
  [ [ (1, Some "ab"); (2, Some "c"); (2, Some "c"); (3, None); (4, Some "") ];
    [ (5, Some "d") ] ].

(** * Properties *)

(** ** Strings and number formatting *)

Lemma string_app_cons (c : ascii) (s t : string) : String c s +:+ t = String c (s +:+ t).
Proof. reflexivity. Qed.

Lemma string_app_nil_l (t : string) : "" +:+ t = t.
Proof. reflexivity. Qed.

Lemma string_length_app (s t : string) :
  String.length (s +:+ t) = (String.length s + String.length t)%nat.
Proof.
  induction s as [|c s IH]; [reflexivity|].
  rewrite string_app_cons. simpl. now rewrite IH.
Qed.

Lemma string_app_assoc (s t u : string) : (s +:+ t) +:+ u = s +:+ t +:+ u.
Proof.
  induction s as [|c s IH]; [reflexivity|].
  rewrite !string_app_cons. now rewrite IH.
Qed.

Lemma string_app_nil_r (s : string) : s +:+ "" = s.
Proof.
  induction s as [|c s IH]; [reflexivity|].
  rewrite string_app_cons. now rewrite IH.
Qed.

Lemma upper_app (s t : string) : upper (s +:+ t) = upper s +:+ upper t.
Proof.
  induction s as [|c s IH]; [reflexivity|].
  rewrite string_app_cons. simpl. now rewrite IH, string_app_cons.
Qed.

Lemma upper_length (s : string) : String.length (upper s) = String.length s.
Proof. induction s as [|c s IH]; simpl; [reflexivity | now rewrite IH]. Qed.

Lemma digits_fixed_length (b : Z) (n : nat) (v : Z) :
  String.length (digits_fixed b n v) = n.
Proof.
  revert v; induction n as [|n IH]; intros v; simpl; [reflexivity|].
  rewrite string_length_app, IH. simpl. lia.
Qed.

(** A number below [b ^ w] needs at most [w] digits, whatever the fuel. *)
Lemma digit_count_fuel_le (fuel : nat) (b v : Z) (w : nat) :
  1 < b -> 0 <= v < b ^ Z.of_nat w -> (1 <= w)%nat ->
  (digit_count_fuel fuel b v <= w)%nat.
Proof.
  intros Hb. revert v w. induction fuel as [|f IH]; intros v w Hv Hw; simpl; [lia|].
  destruct (Z.ltb_spec v b) as [Hlt|Hge]; [lia|].
  destruct w as [|[|w']]; [lia | |].
  - change (Z.of_nat 1) with 1 in Hv. rewrite Z.pow_1_r in Hv. lia.
  - apply le_n_S. apply IH; [|lia].
    split; [apply Z.div_pos; lia|].
    apply Z.div_lt_upper_bound; [lia|].
    replace (Z.of_nat (S (S w'))) with (Z.succ (Z.of_nat (S w'))) in Hv by lia.
    rewrite Z.pow_succ_r in Hv by lia. lia.
Qed.

Lemma format_zero_padded_fits (b : Z) (w : nat) (v : Z) :
  1 < b -> (1 <= w)%nat -> 0 <= v < b ^ Z.of_nat w ->
  format_zero_padded b w v = digits_fixed b w v.
Proof.
  intros Hb Hw Hv. unfold format_zero_padded.
  destruct (Z.ltb_spec v 0) as [?|_]; [lia|].
  f_equal. pose proof (digit_count_fuel_le (Z.to_nat (Z.log2 v)) b v w Hb Hv Hw).
  unfold digit_count. lia.
Qed.

(** ** [batched] *)

Lemma take_nil_inv {A} (n : nat) (l : list A) : (0 < n)%nat -> take n l = [] -> l = [].
Proof. destruct n, l; simpl; intros; try lia; congruence. Qed.

Lemma batched_fuel_concat {A} (fuel n : nat) (l : list A) :
  (0 < n)%nat -> (length l <= fuel)%nat -> concat (batched_fuel fuel n l) = l.
Proof.
  intros Hn. revert l. induction fuel as [|f IH]; intros l Hl; simpl.
  - destruct l; simpl in *; [reflexivity | lia].
  - destruct (take n l) as [|a t] eqn:E.
    + symmetry. now apply (take_nil_inv n).
    + simpl. rewrite IH.
      * rewrite app_comm_cons, <- E. apply take_drop.
      * rewrite length_drop. destruct l; simpl in *; [destruct n; discriminate | lia].
Qed.

Lemma batched_fuel_sizes {A} (fuel n : nat) (l : list A) :
  Forall (fun b => (0 < length b <= n)%nat) (batched_fuel fuel n l).
Proof.
  revert l. induction fuel as [|f IH]; intros l; simpl; [constructor|].
  destruct (take n l) as [|a t] eqn:E; constructor; [|apply IH].
  rewrite <- E. split; [rewrite E; simpl; lia | rewrite length_take; lia].
Qed.

Lemma batched_concat {A} (l : list A) (n : nat) :
  (0 < n)%nat -> concat (batched l n) = l.
Proof. intros. apply batched_fuel_concat; [assumption | reflexivity]. Qed.

Lemma batched_sizes {A} (l : list A) (n : nat) :
  Forall (fun b => (0 < length b <= n)%nat) (batched l n).
Proof. apply batched_fuel_sizes. Qed.

(** ** The CMap writer *)

Lemma used_entries_spec (cmap : cmap_t) (used : list Z) (g c : Z) :
  (g, c) ∈ used_entries cmap used <-> g ∈ used /\ cmap !! g = Some c.
Proof.
  unfold used_entries. rewrite list_elem_of_omap. split.
  - intros (x & Hx & Hf). destruct (cmap !! x) eqn:E; [|discriminate].
    injection Hf as <- <-. auto.
  - intros [Hg Hc]. exists g. now rewrite Hc.
Qed.

Lemma bfchar_line_in_lines (cmap : cmap_t) (used : list Z) (gc : Z * Z) :
  gc ∈ used_entries cmap used -> bfchar_line gc ∈ make_tounicode_lines cmap used.
Proof.
  intros Hin. unfold make_tounicode_lines.
  apply list_elem_of_further, elem_of_app; left.
  rewrite <- (batched_concat (used_entries cmap used) 100) in Hin by lia.
  apply list_elem_of_In, in_concat in Hin as (b & Hb & Hgc).
  apply list_elem_of_In, in_concat. exists (bfchar_block b). split.
  - now apply in_map.
  - unfold bfchar_block. right. apply in_or_app; left. now apply in_map.
Qed.

Lemma shiftr_10_div (x : Z) : Z.shiftr x 10 = x / 1024.
Proof. now rewrite Z.shiftr_div_pow2 by lia. Qed.

Lemma land_3ff_mod (x : Z) : Z.land x 0x3FF = x mod 1024.
Proof. change 0x3FF with (Z.ones 10). now rewrite Z.land_ones by lia. Qed.

(** ** Computations that only append *)

Lemma appends_ret {A} (a : A) : appends (mret a : M string A).
Proof. intros buf. cbn. now rewrite string_app_nil_r. Qed.

Lemma appends_raise {A} (e : exn) : appends (raise e : M string A).
Proof. intros buf. cbn. now rewrite string_app_nil_r. Qed.

Lemma appends_lift {A} (o : outcome A) : appends (lift_outcome o : M string A).
Proof. intros buf. cbn. now rewrite string_app_nil_r. Qed.

Lemma appends_append (b : string) : appends (append b).
Proof. intros buf. reflexivity. Qed.

Lemma appends_bind {A B} (m : M string A) (k : A -> M string B) :
  appends m -> (forall a, appends (k a)) -> appends (m ≫= k).
Proof.
  intros Hm Hk buf. unfold mbind, M_bind, bind.
  rewrite (Hm buf). destruct (m "") as [[a|e] e1] eqn:E; simpl.
  - rewrite (Hk a (buf +:+ e1)), (Hk a e1). simpl. now rewrite string_app_assoc.
  - reflexivity.
Qed.

Lemma appends_try_except {A} (m : M string A) (h : exn -> M string A) :
  appends m -> (forall e, appends (h e)) -> appends (try_except m h).
Proof.
  intros Hm Hh buf. unfold try_except.
  rewrite (Hm buf). destruct (m "") as [[a|e] e1] eqn:E; simpl.
  - reflexivity.
  - rewrite (Hh e (buf +:+ e1)), (Hh e e1). simpl. now rewrite string_app_assoc.
Qed.

Ltac appends_tac :=
  repeat first
    [ apply appends_bind; [|intros]
    | apply appends_try_except; [|intros]
    | apply appends_ret | apply appends_raise | apply appends_lift
    | apply appends_append
    | match goal with
      | |- appends (match ?x with _ => _ end) => destruct x
      | |- appends (if ?b then _ else _) => destruct b
      end ].

Section RenderingFacts.
Context `{Primitives float}.

Lemma render_graphic_state_appends (gs : option GraphicState) :
  appends (render_graphic_state gs).
Proof. unfold render_graphic_state. appends_tac. Qed.

Lemma render_graphic_state_run (gs : option GraphicState) (buf : string) :
  render_graphic_state gs buf = (Ok tt, buf +:+ graphic_state_bytes gs).
Proof.
  rewrite (render_graphic_state_appends gs buf). unfold graphic_state_bytes.
  f_equal. unfold render_graphic_state.
  destruct gs as [g|]; [|reflexivity].
  destruct (passthrough_per_char_instruction g); [|reflexivity].
  now destruct (bool_decide _).
Qed.

Lemma character_render_appends xid (char : PdfCharacter float) ctx :
  appends (character_render xid char ctx).
Proof.
  unfold character_render, encode_instruction.
  pose proof render_graphic_state_appends. appends_tac; auto.
Qed.

Lemma form_render_appends (form : PdfForm float) : appends (form_render form).
Proof. unfold form_render, append_matrix_soft, encode_instruction. appends_tac. Qed.

Lemma rectangle_render_appends (r : PdfRectangle float) lw :
  appends (rectangle_render r lw).
Proof. unfold rectangle_render, encode_instruction. appends_tac. Qed.

Lemma curve_render_appends (c : PdfCurve float) : appends (curve_render c).
Proof.
  unfold curve_render, append_matrix_soft, encode_instruction.
  appends_tac.
Qed.

(** [CharacterRenderUnit.render] case by case: what it returns and what the
    buffer holds afterwards. *)
Lemma character_render_run xid (char : PdfCharacter float) ctx (buf : string) :
  character_render xid char ctx buf =
    match pdf_character_id char with
    | None => (Ok tt, buf)
    | Some cid =>
        if bool_decide (char_unicode char = Some nl) then (Ok tt, buf)
        else if check_font_exists ctx
                && negb (bool_decide (font_id (pdf_style char)
                                        ∈ container_available_fonts ctx xid))
        then (Ok tt, buf)
        else
          match lookup_encoding_length ctx xid (font_id (pdf_style char)) with
          | Raise e => (Raise e, buf +:+ open_text_block char)
          | Ok PyNone => (Ok tt, buf +:+ open_text_block char)
          | Ok (PyDict _) => (Raise TypeError, buf +:+ open_text_block char)
          | Ok (PyInt n) =>
              if n * 2 <? 0 then (Raise ValueError, buf +:+ open_text_block char)
              else (Ok tt, buf +:+ text_block char cid n)
          end
    end.
Proof.
  unfold character_render.
  destruct (pdf_character_id char) as [cid|]; [|reflexivity].
  destruct (bool_decide (char_unicode char = Some nl)); [reflexivity|].
  destruct (check_font_exists ctx && _); [reflexivity|].
  unfold mbind, M_bind, bind, append at 1. cbn beta iota.
  rewrite render_graphic_state_run.
  unfold append at 1, lift_outcome at 1. cbn beta iota.
  unfold open_text_block, text_block.
  destruct (lookup_encoding_length ctx xid (font_id (pdf_style char))) as [[|n|d]|e];
    cbn beta iota; rewrite ?string_app_assoc; try reflexivity.
  unfold glyph_token, lift_outcome.
  destruct (n * 2 <? 0); cbn beta iota; unfold append; rewrite ?string_app_assoc;
    reflexivity.
Qed.

(** Every render unit only appends: its bytes and its way of ending are the
    same whatever buffer it is handed. *)
Lemma render_appends (u : RenderUnit float) ctx (buf : string) :
  render u ctx buf = (render_status u ctx, buf +:+ emitted u ctx).
Proof.
  unfold render_status, emitted, render.
  destruct (payload u).
  - apply character_render_appends.
  - apply form_render_appends.
  - apply rectangle_render_appends.
  - apply curve_render_appends.
Qed.

End RenderingFacts.

(** ** The glyph token *)

Lemma string_forall_app (p : ascii -> bool) (s t : string) :
  string_forall p (s +:+ t) = string_forall p s && string_forall p t.
Proof.
  induction s as [|c s IH]; [reflexivity|].
  rewrite string_app_cons. simpl. now rewrite IH, andb_assoc.
Qed.

Lemma upper_digit_is_hex (d : Z) : is_upper_hex (upper_char (digit_char d)) = true.
Proof.
  destruct d as [|p|p]; try reflexivity.
  do 5 (try (destruct p as [p|p|]; try reflexivity)).
Qed.

Lemma digits_fixed_upper_hex (n : nat) (v : Z) :
  string_forall is_upper_hex (upper (digits_fixed 16 n v)) = true.
Proof.
  revert v. induction n as [|n IH]; intros v; [reflexivity|].
  simpl. rewrite upper_app, string_forall_app, IH. simpl.
  now rewrite upper_digit_is_hex.
Qed.

Lemma pow_256_16 (n : Z) : 0 <= n -> 256 ^ n = 16 ^ (n * 2).
Proof.
  intros Hn. rewrite Z.mul_comm, Z.pow_mul_r by lia. reflexivity.
Qed.

Section CharacterClaims.
Context `{Primitives float}.

Lemma text_block_split (char : PdfCharacter float) (cid n : Z) :
  text_block char cid n =
    open_text_block char
      +:+ upper ("<" +:+ format_zero_padded 16 (Z.to_nat (n * 2)) cid +:+ ">")
      +:+ " Tj ET Q " +:+ nl.
Proof. unfold text_block, open_text_block. now rewrite !string_app_assoc. Qed.

(** C1.  Take a Character unit whose font id is not in the available-font
    set resolved for its container.  Under strict checking its render
    appends nothing.  Under non-strict checking the unit still writes: when
    it comes to the font check at all (it has a glyph id and is not a line
    feed) and an encoding length, a byte count, is found for its font, its
    render appends its complete text block. *)
Theorem absent_font_strict_silent_lenient_block
    (xid : option string) (char : PdfCharacter float) (ctx : RenderContext) (buf : string) :
  font_id (pdf_style char) ∉ container_available_fonts ctx xid ->
  (check_font_exists ctx = true ->
     character_render xid char ctx buf = (Ok tt, buf)) /\
  (check_font_exists ctx = false ->
     forall cid n,
       pdf_character_id char = Some cid ->
       char_unicode char <> Some nl ->
       lookup_encoding_length ctx xid (font_id (pdf_style char)) = Ok (PyInt n) ->
       0 <= n ->
       character_render xid char ctx buf = (Ok tt, buf +:+ text_block char cid n)).
Proof.
  intros Habsent. split.
  - intros Hstrict. rewrite character_render_run, Hstrict.
    rewrite (bool_decide_eq_false_2 (font_id (pdf_style char) ∈ _)) by assumption.
    destruct (pdf_character_id char); [|reflexivity].
    now destruct (bool_decide _).
  - intros Hlenient cid n Hcid Hnl Hlen Hn.
    rewrite character_render_run, Hcid, Hlenient, Hlen.
    rewrite (bool_decide_eq_false_2 (char_unicode char = Some nl)) by assumption.
    simpl. destruct (Z.ltb_spec (n * 2) 0); [lia | reflexivity].
Qed.

(** C3, as the code has it.  For a Character unit that is not a line feed,
    has a glyph id and is rendered without strict checking, and for whose
    font no encoding length is found, the render returns normally but the
    buffer is not left as it was: the block opened before the lookup
    ([q ], the graphic state, [BT /font size Tf ... Tm ]) stays appended and
    is never closed. *)
Theorem unresolved_length_leaves_block_open
    (xid : option string) (char : PdfCharacter float) (ctx : RenderContext) (buf : string)
    (cid : Z) :
  pdf_character_id char = Some cid ->
  char_unicode char <> Some nl ->
  check_font_exists ctx = false ->
  lookup_encoding_length ctx xid (font_id (pdf_style char)) = Ok PyNone ->
  character_render xid char ctx buf = (Ok tt, buf +:+ open_text_block char) /\
  (2 <= String.length (open_text_block char))%nat.
Proof.
  intros Hcid Hnl Hlenient Hlen. split.
  - rewrite character_render_run, Hcid, Hlenient, Hlen.
    now rewrite (bool_decide_eq_false_2 (char_unicode char = Some nl)) by assumption.
  - unfold open_text_block. rewrite string_length_app. simpl. lia.
Qed.

End CharacterClaims.

(** In every sample context no font is declared. *)
Lemma sample_font_absent (len : option Z) (strict : bool) :
  font_id (pdf_style (sample_char "A" (Some 0x41)))
    ∉ container_available_fonts (sample_context len strict) None.
Proof. apply not_elem_of_empty. Qed.

Lemma nl_is_not_A : Some "A" <> Some nl.
Proof. discriminate. Qed.

(** C1 at the sample character: silent when strict, the whole block when not. *)
Lemma absent_font_sample :
  character_render None (sample_char "A" (Some 0x41)) (sample_context (Some 2) true) ""
    = (Ok tt, "") /\
  character_render None (sample_char "A" (Some 0x41)) (sample_context (Some 2) false) ""
    = (Ok tt, "q BT /F1 12.000000 Tf 1 0 0 1 10.000000 20.000000 Tm <0041> Tj ET Q " +:+ nl).
Proof.
  split.
  - exact (proj1 (absent_font_strict_silent_lenient_block None
             (sample_char "A" (Some 0x41)) (sample_context (Some 2) true) ""
             (sample_font_absent (Some 2) true)) eq_refl).
  - exact (proj2 (absent_font_strict_silent_lenient_block None
             (sample_char "A" (Some 0x41)) (sample_context (Some 2) false) ""
             (sample_font_absent (Some 2) false)) eq_refl 0x41 2 eq_refl nl_is_not_A
             eq_refl ltac:(lia)).
Defined.

(** C3 at a concrete unit: no encoding length is found for [F1] (neither
    table has it), checking is not strict, and the render leaves
    [q BT /F1 ... Tm ] in the buffer. *)
Lemma missing_length_sample_leaves_bytes :
  lookup_encoding_length (sample_context None false) None
    (font_id (pdf_style (sample_char "A" (Some 0x41)))) = Ok PyNone /\
  character_render None (sample_char "A" (Some 0x41)) (sample_context None false) ""
    = (Ok tt, "q BT /F1 12.000000 Tf 1 0 0 1 10.000000 20.000000 Tm ").
Proof.
  split; [reflexivity|].
  exact (proj1 (unresolved_length_leaves_block_open None (sample_char "A" (Some 0x41))
                  (sample_context None false) "" 0x41 eq_refl nl_is_not_A eq_refl eq_refl)).
Defined.

Example glyph_token_0041 : glyph_token 0x41 2 = Ok "<0041>".
Proof. reflexivity. Qed.

(** ** The unit collector and the output language *)

Section CollectorClaims.
Context {float : Type}.

(** The characters of a paragraph in composition order. *)
Lemma render_paragraph_to_char_order (cfg : TranslationConfig) (p : PdfParagraph float) :
  render_paragraph_to_char cfg p =
    if bool_decide (lang_out cfg = "ar")
    then reverse (concat (map composition_chars (pdf_paragraph_composition p)))
    else concat (map composition_chars (pdf_paragraph_composition p)).
Proof. reflexivity. Qed.

(** C9, as amended.  The characters collected from a paragraph are its
    characters in composition order, reversed when the output language is
    ["ar"].  So two output languages that are both ["ar"] or both something
    else give the same characters for every paragraph and the same render
    units, in the same order, for every page. *)
Theorem collector_depends_on_language_only_through_arabic
    (cfg1 cfg2 : TranslationConfig) :
  (lang_out cfg1 = "ar" <-> lang_out cfg2 = "ar") ->
  (forall p : PdfParagraph float,
     render_paragraph_to_char cfg1 p = render_paragraph_to_char cfg2 p) /\
  (forall (pg : Page float) (tc : TranslationConfig),
     create_render_units_for_page cfg1 pg tc = create_render_units_for_page cfg2 pg tc) /\
  (forall p : PdfParagraph float,
     lang_out cfg1 = "ar" ->
     render_paragraph_to_char cfg1 p
       = reverse (concat (map composition_chars (pdf_paragraph_composition p)))) /\
  (forall p : PdfParagraph float,
     lang_out cfg1 <> "ar" ->
     render_paragraph_to_char cfg1 p
       = concat (map composition_chars (pdf_paragraph_composition p))).
Proof.
  intros Hsame.
  assert (Hpar : forall p : PdfParagraph float,
             render_paragraph_to_char cfg1 p = render_paragraph_to_char cfg2 p).
  { intros p. unfold render_paragraph_to_char.
    destruct (decide (lang_out cfg1 = "ar")) as [H1|H1].
    - now rewrite !bool_decide_eq_true_2 by tauto.
    - now rewrite !bool_decide_eq_false_2 by tauto. }
  split; [exact Hpar|]. split; [|split].
  - intros pg tc. unfold create_render_units_for_page.
    assert (Hmap : map (render_paragraph_to_char cfg1) (pdf_paragraph pg)
                   = map (render_paragraph_to_char cfg2) (pdf_paragraph pg))
      by (apply map_ext; exact Hpar).
    now rewrite Hmap.
  - intros p Har. unfold render_paragraph_to_char.
    now rewrite bool_decide_eq_true_2.
  - intros p Hnot. unfold render_paragraph_to_char.
    now rewrite bool_decide_eq_false_2.
Qed.

End CollectorClaims.

(** C9 for English and French: neither is ["ar"], the units agree. *)
Lemma collector_english_french :
  (forall p : PdfParagraph Z,
     render_paragraph_to_char (sample_config "en") p
       = render_paragraph_to_char (sample_config "fr") p) /\
  create_render_units_for_page (sample_config "en") sample_page (sample_config "en")
    = create_render_units_for_page (sample_config "fr") sample_page (sample_config "en").
Proof.
  assert (Hsame : lang_out (sample_config "en") = "ar" <-> lang_out (sample_config "fr") = "ar")
    by (split; discriminate).
  destruct (collector_depends_on_language_only_through_arabic (float := Z)
              (sample_config "en") (sample_config "fr") Hsame) as (Hp & Hu & _).
  split; [exact Hp | apply Hu].
Defined.

(** C9 as first stated fails between English and Arabic: the same paragraph
    gives [A; B] for one and [B; A] for the other, and the page's render
    units differ. *)
Lemma collector_english_arabic_differ :
  render_paragraph_to_char (sample_config "en") sample_paragraph
    = [sample_char "A" (Some 0x41); sample_char "B" (Some 0x42)] /\
  render_paragraph_to_char (sample_config "ar") sample_paragraph
    = [sample_char "B" (Some 0x42); sample_char "A" (Some 0x41)] /\
  create_render_units_for_page (sample_config "en") sample_page (sample_config "en")
    <> create_render_units_for_page (sample_config "ar") sample_page (sample_config "en").
Proof.
  split; [reflexivity|]. split; [reflexivity|].
  intros Heq. vm_compute in Heq. discriminate Heq.
Qed.

(** ** Buffer routing *)

Section RoutingClaims.
Context `{Primitives float}.

Lemma insert_by_key_perm (u : RenderUnit float) (l : list (RenderUnit float)) :
  insert_by_key u l ≡ₚ u :: l.
Proof.
  induction l as [|v l IH]; simpl; [reflexivity|].
  destruct (key_le _ _); [reflexivity|].
  rewrite IH. apply Permutation_swap.
Qed.

(** Sorting loses and invents no unit. *)
Lemma sorted_by_key_perm (l : list (RenderUnit float)) : sorted_by_key l ≡ₚ l.
Proof.
  induction l as [|u l IH]; simpl; [reflexivity|].
  rewrite insert_by_key_perm. now rewrite IH.
Qed.

Lemma xobj_draw_ops_fold_dom (xs : list PdfXobject) (m : gmap string string) :
  dom (foldl (fun m x => <[xobj_xobj_id x := zstd_decompress (base_operations x)]> m) m xs)
    = dom m ∪ list_to_set (xobj_xobj_id <$> xs).
Proof.
  revert m. induction xs as [|x xs IH]; intros m; simpl.
  - now rewrite (right_id_L ∅ (∪)).
  - rewrite IH, dom_insert_L.
    rewrite (comm_L (∪) {[xobj_xobj_id x]} (dom m)).
    now rewrite (assoc_L (∪)).
Qed.

(** The buffer table has exactly the page's XObject ids as keys. *)
Lemma xobj_draw_ops_dom (xs : list PdfXobject) :
  dom (xobj_draw_ops_of xs) = list_to_set (xobj_xobj_id <$> xs).
Proof.
  unfold xobj_draw_ops_of. rewrite xobj_draw_ops_fold_dom, dom_empty_L.
  now rewrite (left_id_L ∅ (∪)).
Qed.

(** One unit, routed: its bytes go to the buffer its id names if the table
    has it, to the page buffer otherwise. *)
Lemma render_to_target_run (u : RenderUnit float) ctx (page_op : string)
    (ops : gmap string string) :
  render_to_target u ctx (page_op, ops) =
    match route ops (xobj_id u) with
    | Some k =>
        (render_status u ctx,
         (page_op, <[k := default "" (ops !! k) +:+ emitted u ctx]> ops))
    | None => (render_status u ctx, (page_op +:+ emitted u ctx, ops))
    end.
Proof.
  unfold render_to_target, route.
  destruct (xobj_id u) as [k|]; [|now rewrite render_appends].
  destruct (ops !! k) as [buf|] eqn:E.
  - rewrite bool_decide_eq_true_2 by (apply elem_of_dom; eauto).
    rewrite render_appends, E. reflexivity.
  - rewrite bool_decide_eq_false_2 by (now apply not_elem_of_dom).
    rewrite render_appends. reflexivity.
Qed.

Lemma render_to_target_dom (u : RenderUnit float) ctx (st : buffers) :
  dom (render_to_target u ctx st).2.2 = dom st.2.
Proof.
  destruct st as [page_op ops]. rewrite render_to_target_run. unfold route.
  destruct (xobj_id u) as [k|]; [|reflexivity].
  destruct (decide (k ∈ dom ops)) as [Hin|Hout].
  - rewrite bool_decide_eq_true_2 by assumption. simpl.
    rewrite dom_insert_L. apply subseteq_union_1_L.
    now apply singleton_subseteq_l.
  - now rewrite bool_decide_eq_false_2 by assumption.
Qed.

Lemma for_each_render_dom (l : list (RenderUnit float)) ctx (st : buffers) :
  dom (for_each l (fun u => render_to_target u ctx) st).2.2 = dom st.2.
Proof.
  revert st. induction l as [|u l IH]; intros st; [reflexivity|].
  simpl. unfold mbind, M_bind, bind.
  pose proof (render_to_target_dom u ctx st) as Hstep.
  destruct (render_to_target u ctx st) as [[[]|e] st'] eqn:E; simpl in *.
  - now rewrite IH.
  - exact Hstep.
Qed.

End RoutingClaims.

(** ** Post-processing and the orchestrator *)

Lemma bind_ok {S A B} (m : M S A) (k : A -> M S B) (s s' : S) (b : B) :
  (m ≫= k) s = (Ok b, s') ->
  exists a s0, m s = (Ok a, s0) /\ k a s0 = (Ok b, s').
Proof.
  unfold mbind, M_bind, bind. destruct (m s) as [[a|e] s0]; [eauto | discriminate].
Qed.

Lemma bind_run {S A B} (m : M S A) (k : A -> M S B) (s s0 : S) (a : A) :
  m s = (Ok a, s0) -> (m ≫= k) s = k a s0.
Proof. intros Hm. unfold mbind, M_bind, bind. now rewrite Hm. Qed.

Section WriterClaims.
Context `{Primitives float} `{Collaborators World Pdf Proc float}.

(** The buffer table [update_page_content_stream] builds is the one of
    [xobj_draw_ops_of], and building the tables cannot raise. *)
Lemma build_xobj_tables_run avail cmap (pdf : Pdf) (xs : list PdfXobject)
    (a : gmap string (gset string)) (o : gmap string string) (c : gmap string pyval)
    (w : World) :
  exists a' c',
    build_xobj_tables avail cmap pdf xs (a, o, c) w
      = (Ok (a',
             foldl (fun m x => <[xobj_xobj_id x := zstd_decompress (base_operations x)]> m) o xs,
             c'), w).
Proof.
  revert a o c. induction xs as [|x xs IH]; intros a o c; simpl.
  - now exists a, c.
  - unfold mbind, M_bind, bind, add_xobj_tables, get_xobj_available_fonts. simpl.
    apply IH.
Qed.

(** A pass that returns, returns the output path. *)
Lemma write_pass_result (self : PDFCreater float) (config : TranslationConfig)
    (check : bool) (w w' : World) (r : TranslateResult) :
  write_pass self config check w = (Ok r, w') ->
  r = {| mono_pdf_path := mono_output_path config;
         dual_pdf_path := None; no_watermark_path := None |}.
Proof.
  unfold write_pass. intros Hrun.
  repeat (apply bind_ok in Hrun as (? & ? & _ & Hrun)).
  now injection Hrun as <- _.
Qed.

(** C5.  With fuel for two passes or more, [write] makes one pass; if it
    returns, its result is returned.  If it raises and the call was already
    strict, the exception propagates.  If it raises and the call was not
    strict, exactly one more pass is made, strict, in the world the first one
    left, and whatever that pass does (return or raise) is what [write]
    does: there is no third pass.  A result, from either pass, carries the
    output path. *)
Theorem write_retries_once_strict (self : PDFCreater float) (config : TranslationConfig)
    (check : bool) (w : World) (fuel : nat) :
  (2 <= fuel)%nat ->
  (forall r w1,
     write_pass self config check w = (Ok r, w1) ->
     write_fuel fuel self config check w = Some (Ok r, w1) /\
     mono_pdf_path r = mono_output_path config) /\
  (forall e w1,
     check = true ->
     write_pass self config check w = (Raise e, w1) ->
     write_fuel fuel self config check w = Some (Raise e, w1)) /\
  (forall e w1 r w2,
     check = false ->
     write_pass self config check w = (Raise e, w1) ->
     write_pass self config true w1 = (Ok r, w2) ->
     write_fuel fuel self config check w = Some (Ok r, w2) /\
     mono_pdf_path r = mono_output_path config) /\
  (forall e w1 e' w2,
     check = false ->
     write_pass self config check w = (Raise e, w1) ->
     write_pass self config true w1 = (Raise e', w2) ->
     write_fuel fuel self config check w = Some (Raise e', w2)).
Proof.
  intros Hfuel. destruct fuel as [|[|fuel]]; [lia | lia |].
  split; [|split; [|split]].
  - intros r w1 Hpass. split.
    + simpl. now rewrite Hpass.
    + apply write_pass_result in Hpass. now subst r.
  - intros e w1 -> Hpass. simpl. now rewrite Hpass.
  - intros e w1 r w2 -> Hpass Hretry. split.
    + simpl. rewrite Hpass. simpl. now rewrite Hretry.
    + apply write_pass_result in Hretry. now subst r.
  - intros e w1 e' w2 -> Hpass Hretry.
    simpl. rewrite Hpass. simpl. now rewrite Hretry.
Qed.

(** C6.  Font subsetting: when the input was saved, the child started and
    waited for up to 60 seconds, and its output file does not exist, the
    call returns the document it was given and does nothing more.  Final
    save: when the output file of the child does not exist after the wait,
    the call saves the document to the output path in the same process with
    [clean=False]; it returns [False] in the world that save leaves, where
    the save has written the output path, or the save's exception
    propagates. *)
Theorem missing_child_output_falls_back :
  (forall (pdf : Pdf) (config : TranslationConfig) (tag : string)
          (w w1 w2 w3 w4 : World) (p : Proc),
     pdf_save pdf (get_working_file_path config ("si_" +:+ tag +:+ ".pdf"))
       save_defaults w = (Ok tt, w1) ->
     process_start
       (SubsetFontsProcess (get_working_file_path config ("si_" +:+ tag +:+ ".pdf"))
                           (get_working_file_path config ("so_" +:+ tag +:+ ".pdf")))
       w1 = (Ok p, w2) ->
     process_join p 60 w2 = (Ok tt, w3) ->
     path_exists (get_working_file_path config ("so_" +:+ tag +:+ ".pdf")) w3
       = (Ok false, w4) ->
     subset_fonts_in_subprocess pdf config tag w = (Ok pdf, w4)) /\
  (forall (written : World -> string -> Prop),
     (forall pdf path opts w w',
        pdf_save pdf path opts w = (Ok tt, w') -> written w' path) ->
     forall (pdf : Pdf) (output_path : string) (config : TranslationConfig)
            (g : Z) (d c df l : bool) (timeout : Z) (tag : string)
            (w w1 w2 w3 w4 : World) (p : Proc),
       pdf_save pdf (get_working_file_path config ("vi_" +:+ tag +:+ ".pdf"))
         save_defaults w = (Ok tt, w1) ->
       process_start
         (SavePdfCleanProcess (get_working_file_path config ("vi_" +:+ tag +:+ ".pdf"))
                              (get_working_file_path config ("vo_" +:+ tag +:+ ".pdf"))
                              g d c)
         w1 = (Ok p, w2) ->
       process_join p timeout w2 = (Ok tt, w3) ->
       path_exists (get_working_file_path config ("vo_" +:+ tag +:+ ".pdf")) w3
         = (Ok false, w4) ->
       let fallback :=
         pdf_save pdf output_path
           {| garbage := Some g; deflate := Some d; clean := Some false;
              deflate_fonts := None; linear := None |} w4 in
       (forall w5, fallback = (Ok tt, w5) ->
          save_pdf_with_timeout pdf output_path config g d c df l timeout tag w
            = (Ok false, w5) /\ written w5 output_path) /\
       (forall e w5, fallback = (Raise e, w5) ->
          save_pdf_with_timeout pdf output_path config g d c df l timeout tag w
            = (Raise e, w5))).
Proof.
  split.
  - intros pdf config tag w w1 w2 w3 w4 p Hsave Hstart Hjoin Hexists.
    unfold subset_fonts_in_subprocess.
    rewrite (bind_run _ _ _ _ _ Hsave), (bind_run _ _ _ _ _ Hstart).
    rewrite (bind_run _ _ _ _ _ Hjoin), (bind_run _ _ _ _ _ Hexists).
    reflexivity.
  - intros written Hcontract pdf output_path config g d c df l timeout tag
           w w1 w2 w3 w4 p Hsave Hstart Hjoin Hexists fallback.
    assert (Hrun : save_pdf_with_timeout pdf output_path config g d c df l timeout tag w
                   = (pdf_save pdf output_path
                        {| garbage := Some g; deflate := Some d; clean := Some false;
                           deflate_fonts := None; linear := None |};; mret false) w4).
    { unfold save_pdf_with_timeout.
      rewrite (bind_run _ _ _ _ _ Hsave), (bind_run _ _ _ _ _ Hstart).
      rewrite (bind_run _ _ _ _ _ Hjoin), (bind_run _ _ _ _ _ Hexists).
      reflexivity. }
    split.
    + intros w5 Hfb. split; [|exact (Hcontract _ _ _ _ _ Hfb)].
      rewrite Hrun. now rewrite (bind_run _ _ _ _ _ Hfb).
    + intros e w5 Hfb. rewrite Hrun. unfold mbind, M_bind, bind.
      fold fallback. now rewrite Hfb.
Qed.

End WriterClaims.

(** C5 in the world whose PDF library refuses streams that select [F1]: the
    first, lenient pass raises while writing the page's stream; the strict
    retry suppresses the character (no font is declared) and returns the
    output path. *)
Lemma write_retry_sample :
  write_pass (sample_creator "en") (sample_config "en") false picky_world
    = (Raise (LibraryError 1), picky_world) /\
  write_fuel 2 (sample_creator "en") (sample_config "en") false picky_world
    = Some (Ok {| mono_pdf_path := "out/in.en.mono.pdf";
                  dual_pdf_path := None; no_watermark_path := None |},
            {| toy_files := ["out/in.en.mono.pdf"; "work/vi_mono.pdf"; "work/si_mono.pdf"];
               toy_child_finishes := false;
               toy_refused_font := Some "F1" |}).
Proof.
  assert (Hfirst : write_pass (sample_creator "en") (sample_config "en") false picky_world
                   = (Raise (LibraryError 1), picky_world)) by (vm_compute; reflexivity).
  split; [exact Hfirst|].
  destruct (write_retries_once_strict (sample_creator "en") (sample_config "en") false
              picky_world 2 (le_n 2)) as (_ & _ & Hretry & _).
  refine (proj1 (Hretry _ _ _ _ eq_refl Hfirst _)).
  vm_compute; reflexivity.
Defined.

(** C6 in the world whose children hang: subsetting hands back the document
    [in.pdf] it was given, and the final save writes [out/x.pdf] itself. *)
Lemma missing_child_output_sample :
  subset_fonts_in_subprocess "in.pdf" (sample_config "en") "mono" hung_world
    = (Ok "in.pdf", toy_add_file "work/si_mono.pdf" hung_world) /\
  save_pdf_with_timeout "in.pdf" "out/x.pdf" (sample_config "en") 1 true true true false
    120 "mono" hung_world
    = (Ok false, toy_add_file "out/x.pdf" (toy_add_file "work/vi_mono.pdf" hung_world)) /\
  file_present "out/x.pdf"
    (toy_files (toy_add_file "out/x.pdf" (toy_add_file "work/vi_mono.pdf" hung_world))) = true.
Proof.
  pose proof (missing_child_output_falls_back (World := toy_world)) as [Hsubset Hsave].
  split.
  - apply (Hsubset "in.pdf" (sample_config "en") "mono" hung_world
             (toy_add_file "work/si_mono.pdf" hung_world)
             (toy_add_file "work/si_mono.pdf" hung_world)
             (toy_add_file "work/si_mono.pdf" hung_world) _ tt); reflexivity.
  - assert (Hcontract : forall (pdf path : string) (opts : SaveOptions) (w w' : toy_world),
               pdf_save pdf path opts w = (Ok tt, w') ->
               file_present path (toy_files w') = true).
    { intros pdf path opts w w' Hw. injection Hw as <-. simpl.
      now rewrite String.eqb_refl. }
    destruct (Hsave (fun w p => file_present p (toy_files w) = true) Hcontract
                "in.pdf" "out/x.pdf" (sample_config "en") 1 true true true false 120 "mono"
                hung_world
                (toy_add_file "work/vi_mono.pdf" hung_world)
                (toy_add_file "work/vi_mono.pdf" hung_world)
                (toy_add_file "work/vi_mono.pdf" hung_world)
                (toy_add_file "work/vi_mono.pdf" hung_world) tt
                eq_refl eq_refl eq_refl eq_refl) as [Hok _].
    exact (Hok _ eq_refl).
Defined.

(** ** Reconstruction applied to its own output *)

Section ParserClaims.
Context `{UnicodeData}.

(** C7 at a concrete CMap: glyph 1 maps to U+1F600 and is used.  The first
    reconstruction writes the surrogate pair [<0001><d83dde00>]; parsing that
    output reads the eight digits as the single number [0xD83DDE00], so the
    mapping after parsing is not the one written, and reconstructing again
    writes [<0001><36e737de00>]: a different output and a different mapping.
    Nor does it settle: one more reconstruction changes the output again. *)
Lemma astral_rebuild_changes_mapping :
  used_entries {[ 1 := 0x1F600 ]} [1] = [(1, 0x1F600)] /\
  map bfchar_line (used_entries {[ 1 := 0x1F600 ]} [1]) = ["<0001><d83dde00>"] /\
  parse_tounicode_cmap (make_tounicode {[ 1 := 0x1F600 ]} [1]) = Ok {[ 1 := 0xD83DDE00 ]} /\
  used_entries {[ 1 := 0xD83DDE00 ]} [1] = [(1, 0xD83DDE00)] /\
  map bfchar_line (used_entries {[ 1 := 0xD83DDE00 ]} [1]) = ["<0001><36e737de00>"] /\
  rebuild_again {[ 1 := 0x1F600 ]} [1] = Ok (make_tounicode {[ 1 := 0xD83DDE00 ]} [1]) /\
  rebuild_again {[ 1 := 0x1F600 ]} [1] <> Ok (make_tounicode {[ 1 := 0x1F600 ]} [1]) /\
  rebuild_again {[ 1 := 0xD83DDE00 ]} [1] <> Ok (make_tounicode {[ 1 := 0xD83DDE00 ]} [1]).
Proof.
  assert (Hparse : parse_tounicode_cmap (make_tounicode {[ 1 := 0x1F600 ]} [1])
                   = Ok {[ 1 := 0xD83DDE00 ]}) by (vm_compute; reflexivity).
  split; [reflexivity|]. split; [reflexivity|]. split; [exact Hparse|].
  split; [reflexivity|]. split; [reflexivity|].
  unfold rebuild_again at 1 2, reconstruct. rewrite Hparse.
  split; [reflexivity|]. split.
  - intros Heq. vm_compute in Heq. discriminate Heq.
  - intros Heq. vm_compute in Heq. discriminate Heq.
Qed.

End ParserClaims.

(** ** The matcher on texts of known shape *)

Lemma strip_literal_app (l s : string) : strip_literal l (l +:+ s) = Some s.
Proof.
  induction l as [|a l IH]; [reflexivity|].
  rewrite string_app_cons. simpl. now rewrite bool_decide_eq_true_2.
Qed.

Section MatcherFacts.
Context {R : Type}.
Implicit Types (k : string -> option string -> option R).

Lemma exec_lit (l s : string) cap k : exec (Lit l) (l +:+ s) cap k = k s cap.
Proof. simpl. now rewrite strip_literal_app. Qed.

Lemma exec_lit_mismatch (l s : string) cap k :
  strip_literal l s = None -> exec (Lit l) s cap k = None.
Proof. intros Hl. simpl. now rewrite Hl. Qed.

Lemma exec_class_not_head p (s : string) cap k :
  not_head p s -> exec (Class p) s cap k = None.
Proof. destruct s as [|c s]; simpl; [reflexivity|]. now intros ->. Qed.

(** A greedy run over a class: when the continuation accepts what follows
    the whole run, that is the result. *)
Lemma star_class_greedy p (w s : string) cap k (fuel : nat) (r : R) :
  string_forall p w = true -> not_head p s ->
  (String.length w <= fuel)%nat ->
  k s cap = Some r ->
  star_loop (exec (Class p)) fuel (w +:+ s) cap k = Some r.
Proof.
  intros Hw Hs. revert fuel. induction w as [|c w IH]; intros fuel Hfuel Hk.
  - rewrite string_app_nil_l. destruct fuel as [|f]; cbn [star_loop]; [exact Hk|].
    now rewrite exec_class_not_head.
  - destruct fuel as [|f]; [simpl in Hfuel; lia|].
    simpl in Hw. apply andb_true_iff in Hw as [Hc Hw].
    rewrite string_app_cons. cbn [star_loop exec]. rewrite Hc.
    assert (Hlt : (String.length (w +:+ s) <? String.length (String c (w +:+ s)))%nat = true)
      by (apply Nat.ltb_lt; simpl; lia).
    rewrite Hlt. rewrite IH; [reflexivity | assumption | simpl in Hfuel; lia | assumption].
Qed.

Lemma exec_star_class p (w s : string) cap k (r : R) :
  string_forall p w = true -> not_head p s ->
  k s cap = Some r ->
  exec (Star (Class p)) (w +:+ s) cap k = Some r.
Proof.
  intros Hw Hs Hk. cbn [exec]. apply star_class_greedy; try assumption.
  rewrite string_length_app. lia.
Qed.

Lemma exec_plus_class p (w s : string) cap k (r : R) :
  string_forall p w = true -> w <> "" -> not_head p s ->
  k s cap = Some r ->
  exec (Plus (Class p)) (w +:+ s) cap k = Some r.
Proof.
  intros Hw Hne Hs Hk. destruct w as [|c w]; [congruence|].
  simpl in Hw. apply andb_true_iff in Hw as [Hc Hw].
  rewrite string_app_cons. cbn [exec]. rewrite Hc.
  apply star_class_greedy; try assumption.
  rewrite string_length_app. lia.
Qed.

End MatcherFacts.

(** ** [finditer] step by step *)

Lemma finditer_fuel_enough (r : regex) (f1 f2 : nat) (s : string) :
  (String.length s < f1)%nat -> (String.length s < f2)%nat ->
  finditer_fuel f1 r s = finditer_fuel f2 r s.
Proof.
  revert f2 s. induction f1 as [|f1 IH]; intros f2 s H1 H2; [lia|].
  destruct f2 as [|f2]; [lia|]. simpl.
  destruct (match_here r s) as [[s' cap]|].
  - destruct (Nat.ltb_spec (String.length s') (String.length s)).
    + f_equal. apply IH; lia.
    + destruct s as [|c s1]; [reflexivity|]. f_equal. apply IH; simpl in *; lia.
  - destruct s as [|c s1]; [reflexivity|]. apply IH; simpl in *; lia.
Qed.

Lemma finditer_fuel_step (f : nat) (r : regex) (s : string) :
  finditer_fuel (S f) r s =
    match match_here r s with
    | Some (s', cap) =>
        if (String.length s' <? String.length s)%nat
        then cap :: finditer_fuel f r s'
        else cap :: match s with
                    | String _ s1 => finditer_fuel f r s1
                    | EmptyString => []
                    end
    | None =>
        match s with
        | String _ s1 => finditer_fuel f r s1
        | EmptyString => []
        end
    end.
Proof. reflexivity. Qed.

Lemma finditer_skip_one (r : regex) (c : ascii) (s : string) :
  match_here r (String c s) = None -> finditer r (String c s) = finditer r s.
Proof. intros Hm. unfold finditer. now rewrite finditer_fuel_step, Hm. Qed.

Lemma finditer_match (r : regex) (s s' : string) (cap : option string) :
  match_here r s = Some (s', cap) ->
  (String.length s' < String.length s)%nat ->
  finditer r s = cap :: finditer r s'.
Proof.
  intros Hm Hlt. unfold finditer. rewrite finditer_fuel_step, Hm.
  apply Nat.ltb_lt in Hlt as Hlt'. rewrite Hlt'. f_equal.
  apply finditer_fuel_enough; lia.
Qed.

Lemma finditer_skip (r : regex) (a b : string) :
  skippable r a b -> finditer r (a +:+ b) = finditer r b.
Proof.
  induction a as [|c a IH]; [reflexivity|].
  intros [Hm Ha]. rewrite string_app_cons in *.
  rewrite finditer_skip_one by assumption. now apply IH.
Qed.

Lemma skippable_app (r : regex) (a1 a2 b : string) :
  skippable r a1 (a2 +:+ b) -> skippable r a2 b -> skippable r (a1 +:+ a2) b.
Proof.
  induction a1 as [|c a1 IH]; [now rewrite string_app_nil_l|].
  intros [Hm H1] H2. rewrite string_app_cons. split.
  - now rewrite <- string_app_cons, string_app_assoc.
  - now apply IH.
Qed.

(** ** Where a block can start *)

Lemma strip_literal_after_space (keyword s : string) (b : ascii) (l : string) :
  keyword = String b l -> is_space_byte b = false ->
  strip_literal keyword (skip_class is_space_byte s) = None ->
  strip_literal keyword s = None.
Proof.
  intros -> Hb Hs. destruct s as [|c s]; [exact Hs|]. simpl in *.
  destruct (is_space_byte c) eqn:Hc; [|exact Hs].
  rewrite bool_decide_eq_false_2; [reflexivity | congruence].
Qed.

Section BlockStart.
Context {R : Type}.

Lemma star_space_then_keyword_fails (keyword : string) (b : ascii) (l : string)
    (fuel : nat) (s : string) cap (k : string -> option string -> option R) :
  keyword = String b l -> is_space_byte b = false ->
  strip_literal keyword (skip_class is_space_byte s) = None ->
  star_loop (exec re_space) fuel s cap
    (fun s' cap' => exec (Lit keyword) s' cap' k) = None.
Proof.
  intros Hkw Hb. revert s. induction fuel as [|f IH]; intros s Hs.
  - cbn [star_loop]. apply exec_lit_mismatch.
    now apply (strip_literal_after_space keyword s b l).
  - cbn [star_loop]. unfold re_space at 1. cbn [exec].
    assert (Hk : exec (Lit keyword) s cap k = None).
    { apply exec_lit_mismatch. now apply (strip_literal_after_space keyword s b l). }
    destruct s as [|c s']; [exact Hk|].
    destruct (is_space_byte c) eqn:Hc; [|exact Hk].
    assert (Hlt : (String.length s' <? String.length (String c s'))%nat = true)
      by (apply Nat.ltb_lt; simpl; lia).
    rewrite Hlt. rewrite IH; [exact Hk|]. simpl in Hs. now rewrite Hc in Hs.
Qed.

End BlockStart.

(** A block cannot start at a byte that is not white space, nor at white
    space that is not followed by the keyword. *)
Lemma block_cannot_start (keyword : string) (b : ascii) (l : string) (rest : regex)
    (s : string) :
  keyword = String b l -> is_space_byte b = false ->
  not_head is_space_byte s \/
    strip_literal keyword (skip_class is_space_byte s) = None ->
  match_here (block_pattern keyword rest) s = None.
Proof.
  intros Hkw Hb Hs. unfold match_here, block_pattern. cbn [exec]. unfold re_space at 1.
  cbn [exec]. destruct s as [|c s]; [reflexivity|].
  destruct (is_space_byte c) eqn:Hc; [|reflexivity].
  destruct Hs as [Hs|Hs]; [simpl in Hs; congruence|].
  apply (star_space_then_keyword_fails keyword b l); try assumption.
  simpl in Hs. now rewrite Hc in Hs.
Qed.

Lemma skippable_no_space (keyword : string) (b : ascii) (l : string) (rest : regex)
    (a s : string) :
  keyword = String b l -> is_space_byte b = false ->
  string_forall not_space a = true ->
  skippable (block_pattern keyword rest) a s.
Proof.
  intros Hkw Hb. induction a as [|c a IH]; [easy|].
  simpl. intros [Hc Ha]%andb_true_iff. split; [|now apply IH].
  apply (block_cannot_start keyword b l); try assumption. left.
  rewrite string_app_cons. simpl. unfold not_space in Hc.
  now apply negb_true_iff in Hc.
Qed.

Lemma skippable_one (keyword : string) (b : ascii) (l : string) (rest : regex)
    (c : ascii) (s : string) :
  keyword = String b l -> is_space_byte b = false ->
  strip_literal keyword (skip_class is_space_byte s) = None ->
  skippable (block_pattern keyword rest) (String c "") s.
Proof.
  intros Hkw Hb Hs. split; [|exact I].
  apply (block_cannot_start keyword b l); try assumption.
  rewrite string_app_cons, string_app_nil_l. simpl.
  destruct (is_space_byte c); [now right | now left].
Qed.

(** A text that starts with a byte that is neither white space nor the first
    byte of the keyword does not start with the keyword, white space
    skipped. *)
Lemma other_head_is_no_keyword (b : ascii) (l : string) (c : ascii) (s : string) :
  is_space_byte c = false -> c <> b ->
  strip_literal (String b l) (skip_class is_space_byte (String c s)) = None.
Proof.
  intros Hc Hne. simpl. rewrite Hc. simpl.
  rewrite bool_decide_eq_false_2; [reflexivity | congruence].
Qed.

Lemma mismatch_strip (l x s : string) :
  mismatch l x = true -> strip_literal l (x +:+ s) = None.
Proof.
  revert x. induction l as [|a l IH]; intros x; [discriminate|].
  destruct x as [|b x]; [discriminate|]. rewrite string_app_cons. simpl.
  destruct (bool_decide (a = b)); [apply IH | reflexivity].
Qed.

Lemma mismatch_nonempty (l x : string) : mismatch l x = true -> x <> "".
Proof. destruct l, x; simpl; intros Hm; try discriminate Hm; discriminate. Qed.

Lemma skip_class_app (p : ascii -> bool) (a s : string) :
  skip_class p a <> "" -> skip_class p (a +:+ s) = skip_class p a +:+ s.
Proof.
  induction a as [|c a IH]; [simpl; congruence|].
  rewrite string_app_cons. simpl. destruct (p c); [exact IH | intros _; reflexivity].
Qed.

Lemma inert_skippable (keyword : string) (b : ascii) (l : string) (rest : regex)
    (a s : string) :
  keyword = String b l -> is_space_byte b = false ->
  inert keyword a = true ->
  skippable (block_pattern keyword rest) a s.
Proof.
  intros Hkw Hb. induction a as [|c a IH]; [easy|].
  simpl. intros [Hc Ha]%andb_true_iff. split; [|now apply IH].
  apply (block_cannot_start keyword b l); try assumption.
  rewrite string_app_cons. simpl. unfold not_space in Hc.
  destruct (is_space_byte c); [right | now left].
  simpl in Hc. rewrite skip_class_app by (now apply (mismatch_nonempty keyword)).
  now apply mismatch_strip.
Qed.

(** ** Tokens *)

Lemma concat_str_cons (x : string) (l : list string) :
  concat_str (x :: l) = x +:+ concat_str l.
Proof. reflexivity. Qed.

Lemma concat_str_app (l1 l2 : list string) :
  concat_str (l1 ++ l2) = concat_str l1 +:+ concat_str l2.
Proof.
  induction l1 as [|x l1 IH]; [reflexivity|].
  change ((x :: l1) ++ l2) with (x :: (l1 ++ l2)).
  rewrite !concat_str_cons, IH. now rewrite string_app_assoc.
Qed.

Section TokenFacts.
Context {R : Type}.
Implicit Types (k : string -> option string -> option R).

Lemma exec_token (t : string * string) (s : string) cap k (r : R) :
  valid_token t -> not_head is_space_byte s ->
  k s cap = Some r ->
  exec re_token (token_text t +:+ s) cap k = Some r.
Proof.
  intros (Hh & Hne & Hw) Hs Hk. unfold re_token, token_text.
  rewrite !string_app_assoc. cbn [exec]. rewrite strip_literal_app.
  apply (exec_plus_class is_hex_byte); [assumption | assumption | reflexivity |].
  cbn [exec]. rewrite strip_literal_app.
  now apply star_class_greedy; [| | rewrite string_length_app; lia |].
Qed.

Lemma tokens_then_not_space (ts : list (string * string)) (s : string) :
  not_head is_space_byte s ->
  not_head is_space_byte (concat_str (map token_text ts) +:+ s).
Proof. intros Hs. destruct ts as [|t ts]; [exact Hs | reflexivity]. Qed.

Lemma star_tokens (ts : list (string * string)) (fuel : nat) (s : string) cap k (r : R) :
  Forall valid_token ts -> ends_tokens s ->
  (length ts <= fuel)%nat ->
  k s cap = Some r ->
  star_loop (exec re_token) fuel (concat_str (map token_text ts) +:+ s) cap k = Some r.
Proof.
  intros Hts [Hsp Hlt]. revert fuel. induction Hts as [|t ts Ht Hts IH]; intros fuel Hfuel Hk.
  - cbn [map concat_str foldr]. rewrite string_app_nil_l.
    destruct fuel as [|f]; cbn [star_loop]; [exact Hk|].
    assert (Hno : forall k', exec re_token s cap k' = None).
    { intros k'. unfold re_token. cbn [exec]. now rewrite Hlt. }
    now rewrite Hno.
  - destruct fuel as [|f]; [simpl in Hfuel; lia|].
    cbn [map]. rewrite concat_str_cons, string_app_assoc.
    cbn [star_loop].
    rewrite (exec_token t _ cap _ r); [reflexivity | assumption | |].
    + now apply tokens_then_not_space.
    + assert (Hlen : (String.length (concat_str (map token_text ts) +:+ s)
                      <? String.length (token_text t +:+ concat_str (map token_text ts) +:+ s))%nat
                     = true).
      { apply Nat.ltb_lt. rewrite (string_length_app (token_text t)).
        unfold token_text. rewrite string_app_cons. simpl. lia. }
      rewrite Hlen. apply IH; [simpl in Hfuel; lia | assumption].
Qed.

Lemma exec_tokens (t : string * string) (ts : list (string * string)) (s : string)
    cap k (r : R) :
  Forall valid_token (t :: ts) -> ends_tokens s ->
  k s cap = Some r ->
  exec (Plus re_token) (concat_str (map token_text (t :: ts)) +:+ s) cap k = Some r.
Proof.
  intros Hts Hs Hk. apply Forall_cons in Hts as [Ht Hts].
  cbn [map]. rewrite concat_str_cons, string_app_assoc.
  change (exec (Plus re_token) ?x cap k)
    with (exec re_token x cap (fun s' cap' =>
            star_loop (exec re_token) (String.length s') s' cap' k)).
  apply exec_token; [assumption | now apply tokens_then_not_space; destruct Hs |].
  apply star_tokens; try assumption.
  rewrite string_length_app.
  assert (Hlen : forall l : list (string * string),
             (length l <= String.length (concat_str (map token_text l)))%nat).
  { induction l as [|x l IHl]; [simpl; lia|].
    cbn [map]. rewrite concat_str_cons, string_length_app. unfold token_text at 1.
    rewrite string_app_cons. simpl. lia. }
  specialize (Hlen ts). lia.
Qed.

End TokenFacts.

Lemma substring_prefix (a s : string) : substring 0 (String.length a) (a +:+ s) = a.
Proof.
  induction a as [|c a IH]; [now destruct s|].
  rewrite string_app_cons. simpl. now rewrite IH.
Qed.

Lemma captured_prefix (a s : string) :
  substring 0 (String.length (a +:+ s) - String.length s) (a +:+ s) = a.
Proof.
  rewrite string_length_app.
  replace (String.length a + String.length s - String.length s)%nat
    with (String.length a) by lia.
  apply substring_prefix.
Qed.

Lemma exec_seq {R} (a b : regex) (s : string) cap
    (k : string -> option string -> option R) :
  exec (Seq a b) s cap k = exec a s cap (fun s' cap' => exec b s' cap' k).
Proof. reflexivity. Qed.

Lemma exec_group {R} (a : regex) (s : string) cap
    (k : string -> option string -> option R) :
  exec (Group a) s cap k
  = exec a s cap (fun s' _ =>
      k s' (Some (substring 0 (String.length s - String.length s') s))).
Proof. reflexivity. Qed.

(** A whole [bfchar] block is matched from the white space before its
    keyword, and its tokens are the group. *)
Lemma bfchar_block_matches (t : string * string) (ts : list (string * string))
    (rest : string) :
  Forall valid_token (t :: ts) ->
  match_here re_bfchar
    (" beginbfchar" +:+ nl +:+ concat_str (map token_text (t :: ts)) +:+ "endbfchar" +:+ rest)
  = Some (rest, Some (concat_str (map token_text (t :: ts)))).
Proof.
  intros Hts. unfold match_here, re_bfchar.
  set (body := concat_str (map token_text (t :: ts))).
  rewrite exec_seq.
  apply (exec_plus_class is_space_byte " "
           ("beginbfchar" +:+ nl +:+ body +:+ "endbfchar" +:+ rest));
    [reflexivity | discriminate | reflexivity |].
  rewrite exec_seq, exec_lit, exec_seq.
  apply (exec_star_class is_space_byte nl (body +:+ "endbfchar" +:+ rest));
    [reflexivity | reflexivity |].
  rewrite exec_seq, exec_group.
  apply (exec_tokens t ts ("endbfchar" +:+ rest)); [assumption | now split |].
  rewrite exec_lit. fold body. now rewrite captured_prefix.
Qed.

(** ** [parse_mapping] on tokens *)

Lemma mapping_matches (t : string * string) (s : string) :
  valid_token t ->
  match_here re_mapping (token_text t +:+ s) = Some (t.2 +:+ s, Some t.1).
Proof.
  intros (Hh & Hne & _). unfold match_here, re_mapping, token_text.
  rewrite !string_app_assoc. rewrite exec_seq, exec_lit, exec_seq, exec_group.
  apply (exec_plus_class is_hex_byte t.1 (">" +:+ t.2 +:+ s));
    [assumption | assumption | reflexivity |].
  rewrite exec_lit. now rewrite captured_prefix.
Qed.

Lemma space_is_not_bracket (c : ascii) : is_space_byte c = true -> "<"%char <> c.
Proof. intros Hc <-. discriminate Hc. Qed.

Lemma mapping_skips_space (w s : string) :
  string_forall is_space_byte w = true ->
  finditer re_mapping (w +:+ s) = finditer re_mapping s.
Proof.
  intros Hw. apply finditer_skip. induction w as [|c w IH]; [exact I|].
  simpl in Hw. apply andb_true_iff in Hw as [Hc Hw]. split; [|now apply IH].
  unfold match_here, re_mapping. rewrite exec_seq, string_app_cons.
  apply exec_lit_mismatch. simpl.
  rewrite bool_decide_eq_false_2; [reflexivity | now apply space_is_not_bracket].
Qed.

Lemma finditer_mapping_tokens (ts : list (string * string)) :
  Forall valid_token ts ->
  finditer re_mapping (concat_str (map token_text ts)) = map (fun t => Some t.1) ts.
Proof.
  induction 1 as [|t ts Ht Hts IH]; [reflexivity|].
  cbn [map]. rewrite concat_str_cons.
  rewrite (finditer_match re_mapping _ (t.2 +:+ concat_str (map token_text ts)) (Some t.1)).
  - f_equal. rewrite mapping_skips_space by apply Ht. exact IH.
  - now apply mapping_matches.
  - unfold token_text. rewrite !string_length_app. simpl. lia.
Qed.

(** ** Digits written, digits read *)

Lemma digit_count_fuel_enough (fuel : nat) (b v : Z) :
  1 < b -> 0 <= v < b ^ Z.of_nat (S fuel) ->
  v < b ^ Z.of_nat (digit_count_fuel fuel b v).
Proof.
  intros Hb. revert v. induction fuel as [|f IH]; intros v Hv.
  - exact (proj2 Hv).
  - cbn [digit_count_fuel]. destruct (Z.ltb_spec v b) as [Hlt|Hge].
    + change (Z.of_nat 1) with 1. now rewrite Z.pow_1_r.
    + rewrite Nat2Z.inj_succ, Z.pow_succ_r by lia.
      assert (Hq : v / b < b ^ Z.of_nat (digit_count_fuel f b (v / b))).
      { apply IH. split; [apply Z.div_pos; lia|].
        apply Z.div_lt_upper_bound; [lia|].
        rewrite (Nat2Z.inj_succ (S f)), Z.pow_succ_r in Hv by lia. lia. }
      pose proof (Z.mul_div_le v b ltac:(lia)).
      pose proof (Z.mod_pos_bound v b ltac:(lia)).
      pose proof (Z.div_mod v b ltac:(lia)). nia.
Qed.

(** A non-negative number is below the power its digit count announces. *)
Lemma digit_count_bound (b v : Z) :
  1 < b -> 0 <= v -> v < b ^ Z.of_nat (digit_count b v).
Proof.
  intros Hb Hv. unfold digit_count. apply digit_count_fuel_enough; [assumption|].
  split; [assumption|].
  destruct (Z.eq_dec v 0) as [->|Hnz].
  - apply Z.pow_pos_nonneg; lia.
  - rewrite Nat2Z.inj_succ, Z2Nat.id by apply Z.log2_nonneg.
    pose proof (Z.log2_spec v ltac:(lia)) as [_ Hup].
    eapply Z.lt_le_trans; [exact Hup|].
    apply Z.pow_le_mono_l. lia.
Qed.

Lemma format_zero_padded_digits (b : Z) (w : nat) (v : Z) :
  1 < b -> 0 <= v ->
  exists n, (1 <= n)%nat /\ v < b ^ Z.of_nat n /\
            format_zero_padded b w v = digits_fixed b n v.
Proof.
  intros Hb Hv. exists (Nat.max w (digit_count b v)).
  assert (H1 : (1 <= digit_count b v)%nat).
  { unfold digit_count. destruct (Z.to_nat (Z.log2 v)); simpl; [lia|].
    destruct (v <? b); lia. }
  split; [lia|]. split.
  - eapply Z.lt_le_trans; [apply (digit_count_bound b v); assumption|].
    apply Z.pow_le_mono_r; lia.
  - unfold format_zero_padded. destruct (Z.ltb_spec v 0); [lia | reflexivity].
Qed.

Lemma digit_char_hex (d : Z) : is_hex_byte (digit_char d) = true.
Proof.
  destruct d as [|p|p]; try reflexivity.
  do 5 (try (destruct p as [p|p|]; try reflexivity)).
Qed.

Lemma digits_fixed_hex (n : nat) (v : Z) :
  string_forall is_hex_byte (digits_fixed 16 n v) = true.
Proof.
  revert v. induction n as [|n IH]; intros v; [reflexivity|].
  simpl. rewrite string_forall_app, IH. simpl. now rewrite digit_char_hex.
Qed.

Lemma digits_fixed_nonempty (b : Z) (n : nat) (v : Z) :
  (1 <= n)%nat -> digits_fixed b n v <> "".
Proof.
  intros Hn Hempty. apply (f_equal String.length) in Hempty.
  rewrite digits_fixed_length in Hempty. simpl in Hempty. lia.
Qed.

Lemma list_ascii_app (a s : string) :
  list_ascii_of_string (a +:+ s) = list_ascii_of_string a ++ list_ascii_of_string s.
Proof.
  induction a as [|c a IH]; [reflexivity|].
  rewrite string_app_cons. simpl. now rewrite IH.
Qed.

Lemma int16_snoc (s : string) (c : ascii) :
  int16 (s +:+ String c "") = int16 s * 16 + hex_value c.
Proof. unfold int16. rewrite list_ascii_app, fold_left_app. reflexivity. Qed.

Lemma hex_value_digit (d : Z) : 0 <= d < 16 -> hex_value (digit_char d) = d.
Proof.
  intros Hd.
  assert (Hcases : d = 0 \/ d = 1 \/ d = 2 \/ d = 3 \/ d = 4 \/ d = 5 \/ d = 6 \/ d = 7 \/
                   d = 8 \/ d = 9 \/ d = 10 \/ d = 11 \/ d = 12 \/ d = 13 \/ d = 14 \/ d = 15)
    by lia.
  repeat (destruct Hcases as [->|Hcases]; [reflexivity|]). now subst.
Qed.

Lemma int16_digits_fixed (n : nat) (v : Z) :
  0 <= v -> int16 (digits_fixed 16 n v) = v mod 16 ^ Z.of_nat n.
Proof.
  revert v. induction n as [|n IH]; intros v Hv.
  - simpl. now rewrite Z.mod_1_r.
  - cbn [digits_fixed]. rewrite int16_snoc, IH by (apply Z.div_pos; lia).
    rewrite hex_value_digit by (apply Z.mod_pos_bound; lia).
    rewrite Nat2Z.inj_succ, Z.pow_succ_r by lia.
    rewrite (Z.rem_mul_r v 16 (16 ^ Z.of_nat n)) by lia. lia.
Qed.

(** What [format_04x] writes for a non-negative number is a non-empty run of
    hexadecimal digits that [int] reads back as the number. *)
Lemma format_04x_roundtrip (v : Z) :
  0 <= v ->
  string_forall is_hex_byte (format_04x v) = true /\
  format_04x v <> "" /\
  int16 (format_04x v) = v.
Proof.
  intros Hv. unfold format_04x.
  destruct (format_zero_padded_digits 16 4 v ltac:(lia) Hv) as (n & Hn & Hlt & ->).
  split; [apply digits_fixed_hex|]. split; [now apply digits_fixed_nonempty|].
  rewrite int16_digits_fixed by assumption. apply Z.mod_small. lia.
Qed.

(** ** The text [make_tounicode] writes *)

Lemma join_lines (x : string) (l : list string) : join nl (x :: l) = x +:+ lines_text l.
Proof.
  revert x. induction l as [|y l IH]; intros x.
  - simpl. now rewrite string_app_nil_r.
  - change (join nl (x :: y :: l)) with (x +:+ nl +:+ join nl (y :: l)).
    rewrite IH. unfold lines_text. cbn [map]. rewrite concat_str_cons.
    now rewrite !string_app_assoc.
Qed.

Lemma lines_text_app (l1 l2 : list string) :
  lines_text (l1 ++ l2) = lines_text l1 +:+ lines_text l2.
Proof. unfold lines_text. now rewrite map_app, concat_str_app. Qed.

Lemma lines_text_concat (ls : list (list string)) :
  lines_text (concat ls) = concat_str (map lines_text ls).
Proof.
  induction ls as [|l ls IH]; [reflexivity|].
  cbn [concat map]. now rewrite lines_text_app, concat_str_cons, IH.
Qed.

Lemma lines_then_feed (b : list (Z * Z)) (s : string) :
  lines_text (map bfchar_line b) +:+ nl +:+ s = nl +:+ body_text b +:+ s.
Proof.
  unfold lines_text, body_text. induction b as [|e b IH].
  - cbn [map concat_str foldr]. now rewrite !string_app_nil_l.
  - cbn [map]. rewrite !concat_str_cons, !string_app_assoc. rewrite IH.
    reflexivity.
Qed.

Lemma lines_text_block (b : list (Z * Z)) : lines_text (bfchar_block b) = block_text b.
Proof.
  unfold bfchar_block, block_text.
  change (lines_text (?x :: ?l)) with (nl +:+ x +:+ lines_text l).
  rewrite lines_text_app, !string_app_assoc. do 2 f_equal.
  change (lines_text ["endbfchar"]) with (nl +:+ "endbfchar" +:+ "").
  rewrite lines_then_feed. now rewrite string_app_nil_r.
Qed.

Lemma make_tounicode_text (cmap : cmap_t) (used : list Z) :
  make_tounicode cmap used
  = cmap_header +:+ concat_str (map block_text (batched (used_entries cmap used) 100))
                +:+ lines_text cmap_footer.
Proof.
  unfold make_tounicode, make_tounicode_lines.
  rewrite join_lines, lines_text_app, lines_text_concat, map_map.
  f_equal. f_equal. f_equal. apply map_ext. intros b. apply lines_text_block.
Qed.

(** ** Entries as tokens *)

Lemma entry_line_tokens (e : Z * Z) :
  plain_entry e ->
  bfchar_line e +:+ nl = concat_str (map token_text (entry_tokens e)).
Proof.
  destruct e as [g c]. intros [_ [_ Hc]]. simpl in Hc.
  unfold bfchar_line. destruct (Z.ltb_spec c 0x10000); [|lia].
  unfold entry_tokens, token_text. cbn [map concat_str foldr fst snd].
  rewrite !string_app_assoc, !string_app_nil_r. reflexivity.
Qed.

Lemma entry_tokens_valid (e : Z * Z) :
  plain_entry e -> Forall valid_token (entry_tokens e).
Proof.
  intros [Hg [Hc _]].
  destruct (format_04x_roundtrip e.1 Hg) as (Hg1 & Hg2 & _).
  destruct (format_04x_roundtrip e.2 Hc) as (Hc1 & Hc2 & _).
  repeat constructor; assumption.
Qed.

Lemma body_text_tokens (b : list (Z * Z)) :
  Forall plain_entry b ->
  body_text b = concat_str (map token_text (flat_map entry_tokens b)) /\
  Forall valid_token (flat_map entry_tokens b).
Proof.
  unfold body_text. induction 1 as [|e b He Hb [IH1 IH2]]; [now split|].
  cbn [map flat_map]. rewrite concat_str_cons, map_app, concat_str_app, IH1. split.
  - f_equal. now apply entry_line_tokens.
  - apply Forall_app. split; [now apply entry_tokens_valid | assumption].
Qed.

Lemma omap_captures (ts : list (string * string)) :
  omap (fun cap : option string => int16 <$> cap) (map (fun t => Some t.1) ts)
  = map (fun t => int16 t.1) ts.
Proof. induction ts as [|t ts IH]; [reflexivity|]. cbn. now rewrite IH. Qed.

(** [parse_mapping] reads the entries of a block back. *)
Lemma parse_mapping_body (b : list (Z * Z)) :
  Forall plain_entry b ->
  parse_mapping (body_text b) = flat_map (fun e => [e.1; e.2]) b.
Proof.
  intros Hb. destruct (body_text_tokens b Hb) as [-> Hvalid].
  unfold parse_mapping. rewrite finditer_mapping_tokens by assumption.
  rewrite omap_captures.
  clear Hvalid. induction Hb as [|e b He Hb IH]; [reflexivity|].
  cbn [flat_map]. rewrite map_app, IH. f_equal.
  destruct He as [Hg [Hc _]]. unfold entry_tokens. cbn [map fst snd].
  destruct (format_04x_roundtrip e.1 Hg) as (_ & _ & ->).
  destruct (format_04x_roundtrip e.2 Hc) as (_ & _ & ->).
  reflexivity.
Qed.

(** ** Scanning the text for blocks *)

Lemma string_forall_impl (p q : ascii -> bool) (s : string) :
  (forall c, p c = true -> q c = true) ->
  string_forall p s = true -> string_forall q s = true.
Proof.
  intros Hpq. induction s as [|c s IH]; [reflexivity|].
  simpl. intros [Hc Hs]%andb_true_iff. now rewrite (Hpq c Hc), IH.
Qed.

Lemma other_head_no_keyword (l s : string) :
  other_head s -> strip_literal (String "b" l) (skip_class is_space_byte s) = None.
Proof.
  destruct s as [|c s]; [reflexivity|]. intros [Hc Hb].
  now apply other_head_is_no_keyword.
Qed.

Lemma skip_class_run (p : ascii -> bool) (w s : string) :
  string_forall p w = true -> skip_class p (w +:+ s) = skip_class p s.
Proof.
  induction w as [|c w IH]; [reflexivity|].
  intros Hw. simpl in Hw. apply andb_true_iff in Hw as [Hc Hw].
  rewrite string_app_cons. simpl. rewrite Hc. now apply IH.
Qed.

Section Scanning.
Variables (l : string) (rest : regex).

Let pattern : regex := block_pattern (String "b" l) rest.

Lemma skippable_plain (a s : string) :
  string_forall not_space a = true -> skippable pattern a s.
Proof. now apply (skippable_no_space (String "b" l) "b" l). Qed.

Lemma skippable_space_run (w s : string) :
  string_forall is_space_byte w = true -> other_head s -> skippable pattern w s.
Proof.
  intros Hw Hs. induction w as [|c w IH]; [exact I|].
  simpl in Hw. apply andb_true_iff in Hw as [Hc Hw]. split; [|now apply IH].
  apply (block_cannot_start (String "b" l) "b" l); [reflexivity | reflexivity |].
  right. rewrite skip_class_run by (simpl; now rewrite Hc, Hw).
  now apply other_head_no_keyword.
Qed.

Lemma skippable_inert (a s : string) :
  inert (String "b" l) a = true -> skippable pattern a s.
Proof. now apply (inert_skippable (String "b" l) "b" l). Qed.

Lemma hex_is_not_space (c : ascii) : is_hex_byte c = true -> not_space c = true.
Proof.
  unfold is_hex_byte, not_space, is_space_byte, in_range.
  destruct c as [[] [] [] [] [] [] [] []]; simpl; intros; congruence.
Qed.

Lemma other_head_tokens (ts : list (string * string)) (s : string) :
  other_head s -> other_head (concat_str (map token_text ts) +:+ s).
Proof.
  intros Hs. destruct ts as [|t ts]; [exact Hs|]. split; [reflexivity | discriminate].
Qed.

Lemma skippable_token (t : string * string) (s : string) :
  valid_token t -> other_head s -> skippable pattern (token_text t) s.
Proof.
  intros (Hh & _ & Hw) Hs. unfold token_text.
  apply (skippable_app pattern "<"); [now apply skippable_plain|].
  apply skippable_app; [apply skippable_plain; revert Hh; apply string_forall_impl;
                        exact hex_is_not_space|].
  apply (skippable_app pattern ">"); [now apply skippable_plain|].
  now apply skippable_space_run.
Qed.

Lemma skippable_tokens (ts : list (string * string)) (s : string) :
  Forall valid_token ts -> other_head s ->
  skippable pattern (concat_str (map token_text ts)) s.
Proof.
  intros Hts Hs. induction Hts as [|t ts Ht Hts IH]; [exact I|].
  cbn [map]. rewrite concat_str_cons. apply skippable_app; [|exact IH].
  apply skippable_token; [assumption | now apply other_head_tokens].
Qed.

End Scanning.

Lemma digit_char_decimal (d : Z) : 0 <= d < 10 -> is_decimal (digit_char d) = true.
Proof.
  intros Hd.
  assert (Hcases : d = 0 \/ d = 1 \/ d = 2 \/ d = 3 \/ d = 4 \/ d = 5 \/ d = 6 \/ d = 7 \/
                   d = 8 \/ d = 9) by lia.
  repeat (destruct Hcases as [->|Hcases]; [reflexivity|]). now subst.
Qed.

Lemma digits_fixed_decimal (n : nat) (v : Z) :
  string_forall is_decimal (digits_fixed 10 n v) = true.
Proof.
  revert v. induction n as [|n IH]; intros v; [reflexivity|].
  simpl. rewrite string_forall_app, IH. simpl.
  now rewrite digit_char_decimal by (apply Z.mod_pos_bound; lia).
Qed.

Lemma decimal_is_plain (c : ascii) :
  is_decimal c = true -> not_space c = true /\ c <> "b"%char.
Proof.
  unfold is_decimal, not_space, is_space_byte, in_range.
  destruct c as [[] [] [] [] [] [] [] []]; simpl; intros; split; congruence.
Qed.

(** The count line of a block: decimal digits, at least one. *)
Lemma count_is_decimal (n : nat) :
  string_forall is_decimal (format_d (Z.of_nat n)) = true /\
  format_d (Z.of_nat n) <> "".
Proof.
  unfold format_d.
  destruct (format_zero_padded_digits 10 0 (Z.of_nat n) ltac:(lia) ltac:(lia))
    as (m & Hm & _ & ->).
  split; [apply digits_fixed_decimal | now apply digits_fixed_nonempty].
Qed.

Lemma skippable_count_line (l : string) (rest : regex) (n : nat) (s : string) :
  skippable (block_pattern (String "b" l) rest) (nl +:+ format_d (Z.of_nat n)) s.
Proof.
  destruct (count_is_decimal n) as [Hdec Hne].
  apply skippable_app.
  - apply skippable_space_run; [reflexivity|].
    destruct (format_d (Z.of_nat n)) as [|c d]; [congruence|].
    simpl in Hdec. apply andb_true_iff in Hdec as [Hc _].
    apply decimal_is_plain in Hc as [Hc Hb]. split; [|exact Hb].
    unfold not_space in Hc. now apply negb_true_iff in Hc.
  - apply skippable_plain. revert Hdec. apply string_forall_impl.
    intros c Hc. now apply decimal_is_plain.
Qed.

Lemma block_text_split (b : list (Z * Z)) (s : string) :
  block_text b +:+ s
  = (nl +:+ format_d (Z.of_nat (length b)))
      +:+ " beginbfchar" +:+ nl +:+ body_text b +:+ "endbfchar" +:+ s.
Proof. unfold block_text. now rewrite !string_app_assoc. Qed.

(** The [bfchar] pattern finds every block, and in each its entries. *)
Lemma finditer_bfchar_blocks (bs : list (list (Z * Z))) :
  Forall plain_batch bs ->
  finditer re_bfchar (concat_str (map block_text bs) +:+ lines_text cmap_footer)
  = map (fun b => Some (body_text b)) bs.
Proof.
  induction 1 as [|b bs [Hne Hb] Hbs IH]; [vm_compute; reflexivity|].
  cbn [map]. rewrite concat_str_cons, string_app_assoc, block_text_split.
  rewrite finditer_skip by apply (skippable_count_line "eginbfchar").
  destruct (body_text_tokens b Hb) as [Hbody Hvalid].
  destruct b as [|e b]; [congruence|].
  rewrite (finditer_match re_bfchar _
             (concat_str (map block_text bs) +:+ lines_text cmap_footer)
             (Some (body_text (e :: b)))).
  - now rewrite IH.
  - rewrite Hbody. apply bfchar_block_matches. exact Hvalid.
  - rewrite !string_length_app. simpl. lia.
Qed.

(** The [bfrange] pattern finds nothing. *)
Lemma finditer_bfrange_blocks (bs : list (list (Z * Z))) :
  Forall plain_batch bs ->
  finditer re_bfrange (concat_str (map block_text bs) +:+ lines_text cmap_footer) = [].
Proof.
  induction 1 as [|b bs [Hne Hb] Hbs IH]; [vm_compute; reflexivity|].
  cbn [map]. rewrite concat_str_cons, string_app_assoc, block_text_split.
  rewrite finditer_skip by apply (skippable_count_line "eginbfrange").
  rewrite finditer_skip by (now apply (skippable_inert "eginbfrange")).
  destruct (body_text_tokens b Hb) as [-> Hvalid].
  rewrite finditer_skip.
  2:{ apply (skippable_space_run "eginbfrange"); [reflexivity|].
      apply (other_head_tokens _ ("endbfchar" +:+ _)). split; [reflexivity | discriminate]. }
  rewrite finditer_skip.
  2:{ apply (skippable_tokens "eginbfrange"); [assumption|].
      split; [reflexivity | discriminate]. }
  rewrite finditer_skip by (now apply (skippable_plain "eginbfrange")).
  exact IH.
Qed.

Lemma finditer_bfchar_output (cmap : cmap_t) (used : list Z) :
  Forall plain_batch (batched (used_entries cmap used) 100) ->
  finditer re_bfchar (make_tounicode cmap used)
  = map (fun b => Some (body_text b)) (batched (used_entries cmap used) 100).
Proof.
  intros Hbs. rewrite make_tounicode_text.
  rewrite finditer_skip by (now apply (skippable_inert "eginbfchar")).
  now apply finditer_bfchar_blocks.
Qed.

Lemma finditer_bfrange_output (cmap : cmap_t) (used : list Z) :
  Forall plain_batch (batched (used_entries cmap used) 100) ->
  finditer re_bfrange (make_tounicode cmap used) = [].
Proof.
  intros Hbs. rewrite make_tounicode_text.
  rewrite finditer_skip by (now apply (skippable_inert "eginbfrange")).
  now apply finditer_bfrange_blocks.
Qed.

(** ** The round trip *)

Lemma batched_fuel_pairs (b : list (Z * Z)) (fuel : nat) :
  (length b <= fuel)%nat ->
  batched_fuel fuel 2 (flat_map (fun e => [e.1; e.2]) b) = map (fun e => [e.1; e.2]) b.
Proof.
  revert fuel. induction b as [|e b IH]; intros fuel Hfuel.
  - destruct fuel; reflexivity.
  - destruct fuel as [|f]; [simpl in Hfuel; lia|].
    cbn [flat_map app batched_fuel take drop map]. f_equal.
    apply IH. simpl in Hfuel. lia.
Qed.

Lemma batched_pairs (b : list (Z * Z)) :
  batched (flat_map (fun e => [e.1; e.2]) b) 2 = map (fun e => [e.1; e.2]) b.
Proof.
  unfold batched. apply batched_fuel_pairs.
  induction b as [|e b IH]; simpl; lia.
Qed.

Section RoundTrip.
Context `{UnicodeData}.

Lemma apply_normalization_kept (g c : Z) (m : cmap_t) :
  kept_code c -> apply_normalization g c m = (Ok tt, <[g := c]> m).
Proof.
  intros Hc. unfold apply_normalization.
  destruct (is_compatibility_code c) eqn:E; [|reflexivity]. now rewrite (Hc E).
Qed.

Lemma apply_chars_run (b : list (Z * Z)) (m : cmap_t) :
  Forall (fun e => kept_code e.2) b ->
  for_each (map (fun e => [e.1; e.2]) b) apply_char m = (Ok tt, with_entries m b).
Proof.
  intros Hb. revert m. induction Hb as [|e b He Hb IH]; intros m; [reflexivity|].
  cbn [map for_each]. unfold mbind, M_bind, bind. cbn [apply_char].
  rewrite apply_normalization_kept by assumption. apply IH.
Qed.

Lemma with_entries_app (m : cmap_t) (es1 es2 : list (Z * Z)) :
  with_entries m (es1 ++ es2) = with_entries (with_entries m es1) es2.
Proof. apply foldl_app. Qed.

Lemma parse_blocks_run (bs : list (list (Z * Z))) (m : cmap_t) :
  Forall (Forall (fun e => plain_entry e /\ kept_code e.2)) bs ->
  for_each (map (fun b => Some (body_text b)) bs)
    (fun x => for_each (batched (parse_mapping (default "" x)) 2) apply_char) m
  = (Ok tt, with_entries m (concat bs)).
Proof.
  intros Hbs. revert m. induction Hbs as [|b bs Hb Hbs IH]; intros m; [reflexivity|].
  cbn [map for_each concat]. unfold mbind, M_bind, bind. cbn [from_option id].
  rewrite parse_mapping_body by (eapply Forall_impl; [exact Hb | now intros e []]).
  rewrite batched_pairs.
  rewrite apply_chars_run by (eapply Forall_impl; [exact Hb | now intros e []]).
  rewrite with_entries_app. apply IH.
Qed.

(** Parsing what [make_tounicode] wrote gives back its entries. *)
Lemma parse_make_tounicode (cmap : cmap_t) (used : list Z) :
  Forall (fun e => plain_entry e /\ kept_code e.2) (used_entries cmap used) ->
  parse_tounicode_cmap (make_tounicode cmap used)
  = Ok (with_entries ∅ (used_entries cmap used)).
Proof.
  intros Hes.
  assert (Hconcat : concat (batched (used_entries cmap used) 100) = used_entries cmap used)
    by (apply batched_concat; lia).
  assert (Hall : Forall (Forall (fun e => plain_entry e /\ kept_code e.2))
                   (batched (used_entries cmap used) 100)).
  { apply Forall_forall. intros b Hb. apply Forall_forall. intros e He.
    rewrite Forall_forall in Hes. apply Hes. rewrite <- Hconcat.
    apply list_elem_of_In, in_concat. exists b.
    split; now apply list_elem_of_In. }
  assert (Hplain : Forall plain_batch (batched (used_entries cmap used) 100)).
  { pose proof (batched_sizes (used_entries cmap used) 100) as Hsizes.
    rewrite Forall_forall in Hsizes, Hall. apply Forall_forall. intros b Hb. split.
    - specialize (Hsizes b Hb). destruct b; simpl in *; [lia | discriminate].
    - eapply Forall_impl; [exact (Hall b Hb) | now intros e []]. }
  unfold parse_tounicode_cmap.
  rewrite finditer_bfrange_output, finditer_bfchar_output by assumption.
  cbn [for_each]. unfold mbind at 1, M_bind at 1, bind at 1. cbn [mret M_ret ret].
  rewrite parse_blocks_run by assumption. now rewrite Hconcat.
Qed.

End RoundTrip.

(** ** The rebuilt map has the same entries *)

Lemma with_entries_lookup (f : cmap_t) (es : list (Z * Z)) (m : cmap_t) (x : Z) :
  (forall g c, (g, c) ∈ es -> f !! g = Some c) ->
  with_entries m es !! x = if decide (x ∈ es.*1) then f !! x else m !! x.
Proof.
  revert m. induction es as [|[g c] es IH]; intros m Hf.
  - cbn. destruct (decide (x ∈ [])) as [Hin|]; [|reflexivity]. inversion Hin.
  - cbn [with_entries foldl]. fold (with_entries (<[g := c]> m) es).
    rewrite IH by (intros g' c' Hin; apply Hf; now right).
    cbn [fmap list_fmap fst].
    destruct (decide (x ∈ es.*1)) as [Hin|Hout].
    + rewrite decide_True by (now right). reflexivity.
    + destruct (decide (x = g)) as [->|Hne].
      * rewrite decide_True by (now left). rewrite lookup_insert_eq.
        symmetry. apply Hf. now left.
      * rewrite decide_False; [now rewrite lookup_insert_ne|].
        intros Hin. apply elem_of_cons in Hin as [?|?]; [congruence | contradiction].
Qed.

Lemma used_entries_ext (m1 m2 : cmap_t) (used : list Z) :
  (forall x, x ∈ used -> m1 !! x = m2 !! x) ->
  used_entries m1 used = used_entries m2 used.
Proof.
  unfold used_entries. induction used as [|x used IH]; intros Hlook; [reflexivity|].
  cbn [omap list_omap]. rewrite Hlook by (now left).
  rewrite IH; [reflexivity|]. intros y Hy. apply Hlook. now right.
Qed.

Lemma used_entries_rebuilt (cmap : cmap_t) (used : list Z) :
  used_entries (with_entries ∅ (used_entries cmap used)) used = used_entries cmap used.
Proof.
  apply used_entries_ext. intros x Hx.
  rewrite (with_entries_lookup cmap) by (intros g c Hin; now apply used_entries_spec in Hin).
  destruct (decide (x ∈ (used_entries cmap used).*1)) as [Hin|Hout]; [reflexivity|].
  rewrite lookup_empty. destruct (cmap !! x) as [c|] eqn:Hc; [|reflexivity].
  exfalso. apply Hout. apply list_elem_of_fmap. exists (x, c).
  split; [reflexivity | now apply used_entries_spec].
Qed.

Section RoundTripClaim.
Context `{UnicodeData}.

(** X1.  Reconstruction is stable below U+10000.  When every entry that
    [make_tounicode] writes has a non-negative glyph index and a non-negative
    code point below [0x10000] that the parser's normalization keeps, parsing
    the output gives back exactly the entries written, and reconstructing
    again from the parsed map writes the same output. *)
Theorem rebuild_is_stable_below_astral (cmap : cmap_t) (used : list Z) :
  (forall g c, (g, c) ∈ used_entries cmap used ->
     0 <= g /\ 0 <= c < 0x10000 /\
     (is_compatibility_code c = true -> normalize_nfd c = [c])) ->
  parse_tounicode_cmap (make_tounicode cmap used)
    = Ok (with_entries ∅ (used_entries cmap used)) /\
  used_entries (with_entries ∅ (used_entries cmap used)) used = used_entries cmap used /\
  rebuild_again cmap used = Ok (make_tounicode cmap used).
Proof.
  intros Hes.
  assert (Hparse : parse_tounicode_cmap (make_tounicode cmap used)
                   = Ok (with_entries ∅ (used_entries cmap used))).
  { apply parse_make_tounicode. apply Forall_forall. intros [g c] Hin.
    destruct (Hes g c Hin) as (Hg & Hc & Hk). repeat split; try assumption; apply Hc. }
  split; [exact Hparse|]. split; [apply used_entries_rebuilt|].
  unfold rebuild_again, reconstruct. rewrite Hparse.
  unfold make_tounicode, make_tounicode_lines. now rewrite used_entries_rebuilt.
Qed.

End RoundTripClaim.

(** The round trip for a Latin and a CJK code point and a used glyph that the
    map does not have. *)
Lemma rebuild_stable_sample :
  rebuild_again {[ 1 := 0x41; 2 := 0x4E2D ]} [1; 2; 3]
    = Ok (make_tounicode {[ 1 := 0x41; 2 := 0x4E2D ]} [1; 2; 3]).
Proof.
  apply (rebuild_is_stable_below_astral {[ 1 := 0x41; 2 := 0x4E2D ]} [1; 2; 3]).
  intros g c Hin.
  assert (Hentries : used_entries {[ 1 := 0x41; 2 := 0x4E2D ]} [1; 2; 3]
                     = [(1, 0x41); (2, 0x4E2D)]) by reflexivity.
  rewrite Hentries in Hin.
  apply elem_of_cons in Hin as [Heq|Hin].
  { injection Heq as -> ->. split; [lia|]. split; [lia | discriminate]. }
  apply elem_of_cons in Hin as [Heq|Hin].
  { injection Heq as -> ->. split; [lia|]. split; [lia | discriminate]. }
  inversion Hin.
Defined.

(** ** Further properties of the render units and their order *)

Section FurtherRendering.
Context `{Primitives float}.

(** X2.  A Character unit for a line feed, or without a glyph id, appends
    nothing, whatever the context. *)
Theorem line_feed_or_no_glyph_emits_nothing
    (xid : option string) (char : PdfCharacter float) (ctx : RenderContext) (buf : string) :
  char_unicode char = Some nl \/ pdf_character_id char = None ->
  character_render xid char ctx buf = (Ok tt, buf).
Proof.
  intros Hguard. rewrite character_render_run.
  destruct (pdf_character_id char) as [cid|]; [|reflexivity].
  destruct Hguard as [Hnl|Hnone]; [|discriminate Hnone].
  now rewrite bool_decide_eq_true_2.
Qed.

(** X3.  Every render unit, whatever its kind, only appends to the buffer it
    is handed: the bytes it appends and the way it ends (return or exception)
    do not depend on what the buffer already holds. *)
Theorem every_render_only_appends (u : RenderUnit float) (ctx : RenderContext)
    (buf : string) :
  render u ctx buf = (render_status u ctx, buf +:+ emitted u ctx).
Proof. apply render_appends. Qed.

End FurtherRendering.

Lemma line_feed_sample_emits_nothing :
  character_render None (sample_char nl (Some 0x41)) (sample_context (Some 2) false) "q "
    = (Ok tt, "q ").
Proof.
  apply (line_feed_or_no_glyph_emits_nothing None (sample_char nl (Some 0x41))).
  now left.
Defined.

Section SortingFacts.
Context {float : Type}.
Implicit Types (u v : RenderUnit float) (l : list (RenderUnit float)).

Lemma key_le_refl (a : Z * Z) : key_le a a = true.
Proof.
  unfold key_le. rewrite Z.eqb_refl, Z.leb_refl. apply orb_true_r.
Qed.

Lemma key_le_total (a b : Z * Z) : key_le a b = false -> key_le b a = true.
Proof.
  unfold key_le. intros Hab. apply orb_false_iff in Hab as [H1 H2].
  apply Z.ltb_ge in H1. apply andb_false_iff in H2.
  destruct (Z.ltb_spec b.1 a.1) as [|Hge]; [reflexivity|]. simpl.
  assert (Heq : a.1 = b.1) by lia.
  destruct H2 as [H2|H2]; [apply Z.eqb_neq in H2; lia|].
  apply Z.leb_gt in H2. apply andb_true_iff.
  split; [apply Z.eqb_eq; lia | apply Z.leb_le; lia].
Qed.

Lemma key_le_trans (a b c : Z * Z) :
  key_le a b = true -> key_le b c = true -> key_le a c = true.
Proof.
  unfold key_le. intros Hab Hbc.
  apply orb_true_iff in Hab. apply orb_true_iff in Hbc. apply orb_true_iff.
  rewrite !andb_true_iff, !Z.ltb_lt, !Z.eqb_eq, !Z.leb_le in *. lia.
Qed.

Lemma insert_by_key_head u v l :
  in_order v u -> HdRel in_order v l -> HdRel in_order v (insert_by_key u l).
Proof.
  intros Hvu Hl. destruct l as [|w l]; simpl; [now constructor|].
  destruct (key_le _ _); constructor; [assumption|].
  now inversion Hl.
Qed.

Lemma insert_by_key_sorted u l :
  Sorted in_order l -> Sorted in_order (insert_by_key u l).
Proof.
  induction 1 as [|v l Hl IH Hhd]; simpl; [repeat constructor|].
  destruct (key_le (get_sort_key u) (get_sort_key v)) eqn:E.
  - constructor; [now constructor|]. now constructor.
  - constructor; [assumption|].
    apply insert_by_key_head; [|assumption]. now apply key_le_total.
Qed.

Lemma insert_by_key_filter u l (k : Z * Z) :
  filter (fun v => get_sort_key v = k) (insert_by_key u l)
  = filter (fun v => get_sort_key v = k) (u :: l).
Proof.
  induction l as [|v l IH]; [reflexivity|]. simpl.
  destruct (key_le (get_sort_key u) (get_sort_key v)) eqn:E; [reflexivity|].
  rewrite (filter_cons _ v (insert_by_key u l)), IH, !filter_cons.
  destruct (decide (get_sort_key u = k)) as [Hu|Hu]; [|reflexivity].
  destruct (decide (get_sort_key v = k)) as [Hv|Hv]; [|reflexivity].
  rewrite Hu, Hv, key_le_refl in E. discriminate E.
Qed.

(** X4.  The order of the stream assembler: the units come out in non-decreasing
    order of [(render_order, sub_render_order)], none lost and none added,
    and units with the same key keep the order in which they were given. *)
Theorem sorted_by_key_stable l :
  Sorted in_order (sorted_by_key l) /\
  sorted_by_key l ≡ₚ l /\
  forall k, filter (fun v => get_sort_key v = k) (sorted_by_key l)
            = filter (fun v => get_sort_key v = k) l.
Proof.
  split; [|split].
  - induction l as [|u l IH]; simpl; [constructor | now apply insert_by_key_sorted].
  - apply sorted_by_key_perm.
  - intros k. induction l as [|u l IH]; [reflexivity|].
    simpl. rewrite insert_by_key_filter, !filter_cons, IH. reflexivity.
Qed.

End SortingFacts.

(** * Further properties of the two modules *)

(** ** Chunks, and numbers read back *)

Lemma batched_fuel_lookup {A} (fuel n : nat) (l : list A) (i : nat) :
  (0 < n)%nat -> (length l <= fuel)%nat ->
  batched_fuel fuel n l !! i
  = if decide (i * n < length l)%nat then Some (take n (drop (i * n) l)) else None.
Proof.
  intros Hn. revert l i. induction fuel as [|f IH]; intros l i Hl.
  - destruct l; simpl in Hl; [|lia]. cbn [batched_fuel length].
    rewrite decide_False by lia. apply lookup_nil.
  - cbn [batched_fuel]. destruct (take n l) as [|a t] eqn:E.
    + apply (take_nil_inv n) in E; [|assumption]. subst l. cbn [length].
      rewrite decide_False by lia. apply lookup_nil.
    + assert (Hne : (0 < length l)%nat) by (destruct l; [destruct n; discriminate | simpl; lia]).
      rewrite <- E. destruct i as [|i].
      * simpl. rewrite decide_True by assumption. reflexivity.
      * cbn [lookup list_lookup]. change (batched_fuel f n (drop n l) !! i
            = if decide (S i * n < length l)%nat
              then Some (take n (drop (S i * n) l)) else None).
        rewrite IH by (rewrite length_drop; lia).
        rewrite length_drop, drop_drop.
        replace (n + i * n)%nat with (S i * n)%nat by lia.
        destruct (decide (i * n < length l - n)%nat), (decide (S i * n < length l)%nat);
          try reflexivity; lia.
Qed.

(** X5.  [batched] cuts a list into consecutive chunks.  With a positive
    size [n], chunk number [i] exists exactly when [i * n] is below the
    length of the list, and it holds the [n] items from position [i * n] on
    (what is left of them at the end of the list); the chunks put together
    are the list.  With size [0] nothing is yielded. *)
Theorem batched_cuts_consecutive_chunks {A} (l : list A) (n : nat) :
  batched l 0 = [] /\
  ((0 < n)%nat ->
   (forall i : nat,
      batched l n !! i
      = if decide (i * n < length l)%nat then Some (take n (drop (i * n) l)) else None) /\
   concat (batched l n) = l).
Proof.
  split.
  - unfold batched. destruct (length l); reflexivity.
  - intros Hn. split.
    + intros i. apply batched_fuel_lookup; [assumption | reflexivity].
    + now apply batched_concat.
Qed.

(** X5 on five items cut by two: the third chunk is the last item. *)
Lemma batched_sample :
  batched [1; 2; 3; 4; 5] 2 !! 2%nat = Some [5] /\
  concat (batched [1; 2; 3; 4; 5] 2) = [1; 2; 3; 4; 5].
Proof.
  destruct (batched_cuts_consecutive_chunks [1; 2; 3; 4; 5] 2) as [_ Hcut].
  destruct (Hcut ltac:(lia)) as [Hlook Hcat].
  split; [exact (Hlook 2%nat) | exact Hcat].
Defined.

(** X6.  [parse_mapping] reads back what the writer's format writes:
    non-negative numbers written as [<hex>] tokens, each followed by the same
    run of white space (possibly none), are read as these numbers, in
    order. *)
Theorem parse_mapping_reads_written_numbers (vs : list Z) (sep : string) :
  Forall (fun v => 0 <= v) vs ->
  string_forall is_space_byte sep = true ->
  parse_mapping (concat_str (map (fun v => "<" +:+ format_04x v +:+ ">" +:+ sep) vs)) = vs.
Proof.
  intros Hvs Hsep.
  assert (Htext : concat_str (map (fun v => "<" +:+ format_04x v +:+ ">" +:+ sep) vs)
                  = concat_str (map token_text (map (fun v => (format_04x v, sep)) vs))).
  { now rewrite map_map. }
  rewrite Htext. unfold parse_mapping.
  rewrite finditer_mapping_tokens.
  - rewrite omap_captures, map_map. cbn [fst].
    induction Hvs as [|v vs Hv Hvs IH]; [reflexivity|].
    cbn [map]. f_equal; [|apply IH; now rewrite map_map].
    now destruct (format_04x_roundtrip v Hv) as (_ & _ & ->).
  - apply Forall_map. eapply Forall_impl; [exact Hvs|]. intros v Hv.
    destruct (format_04x_roundtrip v Hv) as (Hh & Hne & _). now repeat split.
Qed.

(** ** The parser on texts with a range block *)

Lemma finditer_bfchar_blocks_then (bs : list (list (Z * Z))) (rest : string) :
  Forall plain_batch bs ->
  finditer re_bfchar (concat_str (map block_text bs) +:+ rest)
  = map (fun b => Some (body_text b)) bs ++ finditer re_bfchar rest.
Proof.
  induction 1 as [|b bs [Hne Hb] Hbs IH]; [reflexivity|].
  cbn [map]. rewrite concat_str_cons, string_app_assoc, block_text_split.
  rewrite finditer_skip by apply (skippable_count_line "eginbfchar").
  destruct (body_text_tokens b Hb) as [Hbody Hvalid].
  destruct b as [|e b]; [congruence|].
  rewrite (finditer_match re_bfchar _
             (concat_str (map block_text bs) +:+ rest)
             (Some (body_text (e :: b)))).
  - now rewrite IH.
  - rewrite Hbody. apply bfchar_block_matches. exact Hvalid.
  - rewrite !string_length_app. simpl. lia.
Qed.

Lemma finditer_bfrange_blocks_then (bs : list (list (Z * Z))) (rest : string) :
  Forall plain_batch bs ->
  finditer re_bfrange (concat_str (map block_text bs) +:+ rest) = finditer re_bfrange rest.
Proof.
  induction 1 as [|b bs [Hne Hb] Hbs IH]; [reflexivity|].
  cbn [map]. rewrite concat_str_cons, string_app_assoc, block_text_split.
  rewrite finditer_skip by apply (skippable_count_line "eginbfrange").
  rewrite finditer_skip by (now apply (skippable_inert "eginbfrange")).
  destruct (body_text_tokens b Hb) as [-> Hvalid].
  rewrite finditer_skip.
  2:{ apply (skippable_space_run "eginbfrange"); [reflexivity|].
      apply (other_head_tokens _ ("endbfchar" +:+ _)). split; [reflexivity | discriminate]. }
  rewrite finditer_skip.
  2:{ apply (skippable_tokens "eginbfrange"); [assumption|].
      split; [reflexivity | discriminate]. }
  rewrite finditer_skip by (now apply (skippable_plain "eginbfrange")).
  exact IH.
Qed.

Lemma bfrange_block_matches (t : string * string) (ts : list (string * string))
    (rest : string) :
  Forall valid_token (t :: ts) ->
  match_here re_bfrange
    (" beginbfrange" +:+ nl +:+ concat_str (map token_text (t :: ts)) +:+ "endbfrange" +:+ rest)
  = Some (rest, Some (concat_str (map token_text (t :: ts)))).
Proof.
  intros Hts. unfold match_here, re_bfrange.
  set (body := concat_str (map token_text (t :: ts))).
  rewrite exec_seq.
  apply (exec_plus_class is_space_byte " "
           ("beginbfrange" +:+ nl +:+ body +:+ "endbfrange" +:+ rest));
    [reflexivity | discriminate | reflexivity |].
  rewrite exec_seq, exec_lit, exec_seq.
  apply (exec_star_class is_space_byte nl (body +:+ "endbfrange" +:+ rest));
    [reflexivity | reflexivity |].
  rewrite exec_seq, exec_group.
  apply (exec_tokens t ts ("endbfrange" +:+ rest)); [assumption | now split |].
  rewrite exec_lit. fold body. now rewrite captured_prefix.
Qed.


Lemma range_tokens_valid (s t v : Z) :
  0 <= s -> 0 <= t -> 0 <= v -> Forall valid_token (range_tokens s t v).
Proof.
  intros Hs Ht Hv.
  destruct (format_04x_roundtrip s Hs) as (? & ? & _).
  destruct (format_04x_roundtrip t Ht) as (? & ? & _).
  destruct (format_04x_roundtrip v Hv) as (? & ? & _).
  repeat constructor; assumption.
Qed.

Lemma range_block_split (s t v : Z) (rest : string) :
  range_block_text s t v +:+ rest
  = (nl +:+ format_d (Z.of_nat 1))
      +:+ " beginbfrange" +:+ nl +:+ concat_str (map token_text (range_tokens s t v))
      +:+ "endbfrange" +:+ rest.
Proof.
  unfold range_block_text, range_line, range_tokens, token_text.
  cbn [map concat_str foldr fst snd].
  rewrite !string_app_assoc, ?string_app_nil_r. reflexivity.
Qed.

Lemma finditer_bfrange_range_block (s t v : Z) (rest : string) :
  0 <= s -> 0 <= t -> 0 <= v ->
  finditer re_bfrange (range_block_text s t v +:+ rest)
  = Some (concat_str (map token_text (range_tokens s t v))) :: finditer re_bfrange rest.
Proof.
  intros Hs Ht Hv. rewrite range_block_split.
  rewrite finditer_skip by apply (skippable_count_line "eginbfrange").
  apply finditer_match.
  - apply bfrange_block_matches. now apply range_tokens_valid.
  - rewrite !string_length_app. simpl. lia.
Qed.

Lemma finditer_bfchar_range_block (s t v : Z) (rest : string) :
  0 <= s -> 0 <= t -> 0 <= v ->
  finditer re_bfchar (range_block_text s t v +:+ rest) = finditer re_bfchar rest.
Proof.
  intros Hs Ht Hv. rewrite range_block_split.
  rewrite finditer_skip by apply (skippable_count_line "eginbfchar").
  rewrite finditer_skip by (now apply (skippable_inert "eginbfchar")).
  rewrite finditer_skip.
  2:{ apply (skippable_space_run "eginbfchar"); [reflexivity|].
      apply (other_head_tokens _ ("endbfrange" +:+ _)). split; [reflexivity | discriminate]. }
  rewrite finditer_skip.
  2:{ apply (skippable_tokens "eginbfchar"); [now apply range_tokens_valid|].
      split; [reflexivity | discriminate]. }
  now rewrite finditer_skip by (now apply (skippable_plain "eginbfchar")).
Qed.

Lemma parse_mapping_range_tokens (s t v : Z) :
  0 <= s -> 0 <= t -> 0 <= v ->
  parse_mapping (concat_str (map token_text (range_tokens s t v))) = [s; t; v].
Proof.
  intros Hs Ht Hv. unfold parse_mapping.
  rewrite finditer_mapping_tokens by (now apply range_tokens_valid).
  rewrite omap_captures. unfold range_tokens. cbn [map fst].
  destruct (format_04x_roundtrip s Hs) as (_ & _ & ->).
  destruct (format_04x_roundtrip t Ht) as (_ & _ & ->).
  destruct (format_04x_roundtrip v Hv) as (_ & _ & ->).
  reflexivity.
Qed.

Section RangeFacts.
Context `{UnicodeData}.

Lemma apply_codes_run (h : Z -> Z) (l : list Z) (m : cmap_t) :
  Forall (fun g => kept_code (h g)) l ->
  for_each l (fun g => apply_normalization g (h g)) m
  = (Ok tt, with_entries m (map (fun g => (g, h g)) l)).
Proof.
  intros Hl. revert m. induction Hl as [|g l Hg Hl IH]; intros m; [reflexivity|].
  cbn [map for_each]. unfold mbind, M_bind, bind.
  rewrite apply_normalization_kept by assumption. apply IH.
Qed.

Lemma apply_range_run (s t v : Z) (m : cmap_t) :
  (forall g, s <= g <= t -> kept_code (v + g - s)) ->
  apply_range [s; t; v] m = (Ok tt, with_entries m (range_entries s t v)).
Proof.
  intros Hk. unfold apply_range, range_entries.
  apply (apply_codes_run (fun g => v + g - s)).
  apply Forall_seqZ. intros g Hg. apply Hk. lia.
Qed.

Lemma parse_chars_and_range (bs : list (list (Z * Z))) (s t v : Z) :
  Forall plain_batch bs ->
  Forall (Forall (fun e => plain_entry e /\ kept_code e.2)) bs ->
  0 <= s -> 0 <= t -> 0 <= v ->
  (forall g, s <= g <= t -> kept_code (v + g - s)) ->
  parse_tounicode_cmap (cmap_text_with_range bs s t v)
  = Ok (with_entries (with_entries ∅ (range_entries s t v)) (concat bs)).
Proof.
  intros Hplain Hall Hs Ht Hv Hk.
  unfold parse_tounicode_cmap, cmap_text_with_range.
  assert (Hr : finditer re_bfrange
                 (cmap_header +:+ concat_str (map block_text bs) +:+ range_block_text s t v
                    +:+ lines_text cmap_footer)
               = [Some (concat_str (map token_text (range_tokens s t v)))]).
  { rewrite finditer_skip by (now apply (skippable_inert "eginbfrange")).
    rewrite finditer_bfrange_blocks_then by assumption.
    rewrite finditer_bfrange_range_block by assumption. reflexivity. }
  assert (Hc : finditer re_bfchar
                 (cmap_header +:+ concat_str (map block_text bs) +:+ range_block_text s t v
                    +:+ lines_text cmap_footer)
               = map (fun b => Some (body_text b)) bs).
  { rewrite finditer_skip by (now apply (skippable_inert "eginbfchar")).
    rewrite finditer_bfchar_blocks_then by assumption.
    rewrite finditer_bfchar_range_block by assumption.
    change (finditer re_bfchar (lines_text cmap_footer)) with (@nil (option string)).
    apply app_nil_r. }
  rewrite Hr, Hc. cbn [for_each]. unfold mbind at 1 2, M_bind at 1 2, bind at 1 2.
  cbn [from_option id]. rewrite parse_mapping_range_tokens by assumption.
  change (batched [s; t; v] 3) with [[s; t; v]]. cbn [for_each].
  unfold mbind at 1, M_bind at 1, bind at 1.
  rewrite apply_range_run by assumption. cbn [mret M_ret ret].
  now rewrite parse_blocks_run by assumption.
Qed.

End RangeFacts.

Lemma range_entries_lookup (m : cmap_t) (h : Z -> Z) (l : list Z) (x : Z) :
  with_entries m (map (fun g => (g, h g)) l) !! x
  = if decide (x ∈ l) then Some (h x) else m !! x.
Proof.
  revert m. induction l as [|g l IH]; intros m.
  - cbn. rewrite decide_False; [reflexivity | apply not_elem_of_nil].
  - cbn [map with_entries foldl]. fold (with_entries (<[g := h g]> m) (map (fun g => (g, h g)) l)).
    rewrite IH. destruct (decide (x ∈ l)) as [Hin|Hout].
    + rewrite decide_True by (now right). reflexivity.
    + destruct (decide (x = g)) as [->|Hne].
      * rewrite decide_True by (now left). cbn [fst snd]. now rewrite lookup_insert_eq.
      * rewrite decide_False; [cbn [fst snd]; now rewrite lookup_insert_ne|].
        intros Hin. apply elem_of_cons in Hin as [?|?]; [congruence | contradiction].
Qed.

(** ** A block of arbitrary tokens *)

Lemma finditer_bfchar_token_block (n : nat) (ts : list (string * string)) :
  Forall valid_token ts -> ts <> [] ->
  finditer re_bfchar
    (cmap_header +:+ (nl +:+ format_d (Z.of_nat n)) +:+ " beginbfchar" +:+ nl
       +:+ concat_str (map token_text ts) +:+ "endbfchar" +:+ lines_text cmap_footer)
  = [Some (concat_str (map token_text ts))].
Proof.
  intros Hts Hne. destruct ts as [|t ts]; [congruence|].
  rewrite finditer_skip by (now apply (skippable_inert "eginbfchar")).
  rewrite finditer_skip by apply (skippable_count_line "eginbfchar").
  rewrite (finditer_match re_bfchar _ (lines_text cmap_footer)
             (Some (concat_str (map token_text (t :: ts))))).
  - reflexivity.
  - now apply bfchar_block_matches.
  - rewrite !string_length_app. simpl. lia.
Qed.

Lemma finditer_bfrange_token_block (n : nat) (ts : list (string * string)) :
  Forall valid_token ts ->
  finditer re_bfrange
    (cmap_header +:+ (nl +:+ format_d (Z.of_nat n)) +:+ " beginbfchar" +:+ nl
       +:+ concat_str (map token_text ts) +:+ "endbfchar" +:+ lines_text cmap_footer)
  = [].
Proof.
  intros Hts.
  rewrite finditer_skip by (now apply (skippable_inert "eginbfrange")).
  rewrite finditer_skip by apply (skippable_count_line "eginbfrange").
  rewrite finditer_skip by (now apply (skippable_inert "eginbfrange")).
  rewrite finditer_skip.
  2:{ apply (skippable_space_run "eginbfrange"); [reflexivity|].
      apply (other_head_tokens _ ("endbfchar" +:+ _)). split; [reflexivity | discriminate]. }
  rewrite finditer_skip.
  2:{ apply (skippable_tokens "eginbfrange"); [assumption|].
      split; [reflexivity | discriminate]. }
  rewrite finditer_skip by (now apply (skippable_plain "eginbfrange")).
  reflexivity.
Qed.

Lemma for_each_app {S A} (l1 l2 : list A) (body : A -> M S unit) (s : S) :
  for_each (l1 ++ l2) body s
  = match for_each l1 body s with
    | (Ok _, s') => for_each l2 body s'
    | (Raise e, s') => (Raise e, s')
    end.
Proof.
  revert s. induction l1 as [|x l1 IH]; intros s; [reflexivity|].
  cbn [app for_each]. unfold mbind, M_bind, bind.
  destruct (body x s) as [[[]|e] s1]; [apply IH | reflexivity].
Qed.

Lemma batched_fuel_pairs_then (b : list (Z * Z)) (g : Z) (fuel : nat) :
  (S (length b) <= fuel)%nat ->
  batched_fuel fuel 2 (flat_map (fun e => [e.1; e.2]) b ++ [g])
  = map (fun e => [e.1; e.2]) b ++ [[g]].
Proof.
  revert fuel. induction b as [|e b IH]; intros fuel Hfuel.
  - destruct fuel as [|[|f]]; simpl in Hfuel; try lia; reflexivity.
  - destruct fuel as [|f]; [simpl in Hfuel; lia|].
    cbn [flat_map app batched_fuel take drop map]. f_equal.
    apply IH. simpl in Hfuel. lia.
Qed.

Section ParserBlocks.
Context `{UnicodeData}.

(** X7.  A [bfrange] block of one triple [<s> <t> <v>] between the header
    and the footer of a CMap: the parser maps every glyph [g] of [s .. t] to
    [v + g - s] and no other glyph (none at all when [t < s]), provided the
    normalization keeps these codes. *)
Theorem bfrange_maps_interval (s t v : Z) :
  0 <= s -> 0 <= t -> 0 <= v ->
  (forall g, s <= g <= t ->
     is_compatibility_code (v + g - s) = true -> normalize_nfd (v + g - s) = [v + g - s]) ->
  exists m,
    parse_tounicode_cmap (cmap_text_with_range [] s t v) = Ok m /\
    forall g, m !! g = if decide (s <= g <= t) then Some (v + g - s) else None.
Proof.
  intros Hs Ht Hv Hk.
  exists (with_entries ∅ (range_entries s t v)). split.
  - now rewrite (parse_chars_and_range [] s t v) by (try constructor; assumption).
  - intros g. unfold range_entries.
    rewrite (range_entries_lookup ∅ (fun g => v + g - s)), lookup_empty.
    destruct (decide (g ∈ seqZ s (t + 1 - s))) as [Hin|Hout];
      rewrite elem_of_seqZ in *; destruct (decide (s <= g <= t)); try reflexivity; lia.
Qed.

(** X8.  An entry of a [bfchar] block wins over a range, wherever the blocks
    stand: in a text whose [bfchar] block comes before its [bfrange] block,
    the glyph of the entry is mapped to the code of the entry, also when it
    lies in the range, and every other glyph is mapped as the range says. *)
Theorem bfchar_entry_overrides_bfrange (g c s t v : Z) :
  0 <= g -> 0 <= c < 0x10000 ->
  (is_compatibility_code c = true -> normalize_nfd c = [c]) ->
  0 <= s -> 0 <= t -> 0 <= v ->
  (forall g', s <= g' <= t ->
     is_compatibility_code (v + g' - s) = true -> normalize_nfd (v + g' - s) = [v + g' - s]) ->
  exists m,
    parse_tounicode_cmap (cmap_text_with_range [[(g, c)]] s t v) = Ok m /\
    m !! g = Some c /\
    forall g', g' <> g ->
      m !! g' = if decide (s <= g' <= t) then Some (v + g' - s) else None.
Proof.
  intros Hg Hc Hkc Hs Ht Hv Hk.
  exists (<[g := c]> (with_entries ∅ (range_entries s t v))). split; [|split].
  - rewrite (parse_chars_and_range [[(g, c)]] s t v); try assumption; [reflexivity| |].
    + repeat constructor; [discriminate | assumption | apply Hc | apply Hc].
    + repeat constructor; [assumption | apply Hc | apply Hc | exact Hkc].
  - apply lookup_insert_eq.
  - intros g' Hne. rewrite lookup_insert_ne by congruence. unfold range_entries.
    rewrite (range_entries_lookup ∅ (fun g => v + g - s)), lookup_empty.
    destruct (decide (g' ∈ seqZ s (t + 1 - s))) as [Hin|Hout];
      rewrite elem_of_seqZ in *; destruct (decide (s <= g' <= t)); try reflexivity; lia.
Qed.

(** X9.  A [bfchar] block with an odd number of values: after the pairs
    that come first, the glyph left without a code cannot be unpacked, and
    the parser raises [ValueError] instead of returning a map; so does a
    reconstruction from that text, for any used glyphs. *)
Theorem lone_glyph_in_bfchar_raises (b : list (Z * Z)) (g : Z) :
  (forall e, e ∈ b ->
     0 <= e.1 /\ 0 <= e.2 < 0x10000 /\
     (is_compatibility_code e.2 = true -> normalize_nfd e.2 = [e.2])) ->
  0 <= g ->
  parse_tounicode_cmap (cmap_text_lone_glyph b g) = Raise ValueError /\
  forall used, reconstruct (cmap_text_lone_glyph b g) used = Raise ValueError.
Proof.
  intros Hb Hg.
  assert (Hplain : Forall plain_entry b).
  { apply Forall_forall. intros e He. destruct (Hb e He) as (? & ? & _). now split. }
  assert (Hkept : Forall (fun e => kept_code e.2) b).
  { apply Forall_forall. intros e He. now destruct (Hb e He) as (_ & _ & ?). }
  destruct (body_text_tokens b Hplain) as [Hbody Hvalid].
  destruct (format_04x_roundtrip g Hg) as (Hgh & Hgne & Hgv).
  set (ts := flat_map entry_tokens b ++ [(format_04x g, nl)]).
  assert (Hts : Forall valid_token ts).
  { apply Forall_app. split; [assumption|]. repeat constructor; assumption. }
  assert (Htext : cmap_text_lone_glyph b g
                  = cmap_header +:+ (nl +:+ format_d (Z.of_nat (S (length b))))
                      +:+ " beginbfchar" +:+ nl +:+ concat_str (map token_text ts)
                      +:+ "endbfchar" +:+ lines_text cmap_footer).
  { unfold cmap_text_lone_glyph, ts. rewrite map_app, concat_str_app, <- Hbody.
    cbn [map concat_str foldr]. unfold token_text. cbn [fst snd].
    rewrite !string_app_assoc, ?string_app_nil_r. reflexivity. }
  assert (Hparse : parse_tounicode_cmap (cmap_text_lone_glyph b g) = Raise ValueError).
  { unfold parse_tounicode_cmap. rewrite Htext.
    rewrite finditer_bfrange_token_block by assumption.
    rewrite finditer_bfchar_token_block;
      [|assumption | unfold ts; now destruct (flat_map entry_tokens b)].
    cbn [for_each]. unfold mbind at 1 2, M_bind at 1 2, bind at 1 2.
    cbn [mret M_ret ret from_option id].
    unfold parse_mapping. rewrite finditer_mapping_tokens by assumption.
    rewrite omap_captures. unfold ts. rewrite map_app. cbn [map fst]. rewrite Hgv.
    assert (Hvals : map (fun t : string * string => int16 t.1) (flat_map entry_tokens b)
                    = flat_map (fun e => [e.1; e.2]) b).
    { clear -Hplain. induction Hplain as [|e b He Hb' IH]; [reflexivity|].
      cbn [flat_map]. rewrite map_app, IH. f_equal.
      destruct He as [Hg1 [Hc1 _]]. unfold entry_tokens. cbn [map fst snd].
      destruct (format_04x_roundtrip e.1 Hg1) as (_ & _ & ->).
      destruct (format_04x_roundtrip e.2 Hc1) as (_ & _ & ->).
      reflexivity. }
    rewrite Hvals. unfold batched.
    rewrite batched_fuel_pairs_then.
    2:{ rewrite length_app. simpl.
        assert (Hlen : (length b <= length (flat_map (fun e : Z * Z => [e.1; e.2]) b))%nat).
        { clear. induction b as [|e b IH]; simpl; lia. }
        lia. }
    rewrite for_each_app, apply_chars_run by assumption.
    reflexivity. }
  split; [exact Hparse|]. intros used. unfold reconstruct. now rewrite Hparse.
Qed.

End ParserBlocks.

(** X7 for the range [<0020> <0022> <0041>]. *)
Lemma bfrange_sample :
  exists m,
    parse_tounicode_cmap (cmap_text_with_range [] 0x20 0x22 0x41) = Ok m /\
    forall g, m !! g = if decide (0x20 <= g <= 0x22) then Some (0x41 + g - 0x20) else None.
Proof.
  apply (bfrange_maps_interval 0x20 0x22 0x41); try lia.
  intros g Hg Hcomp. reflexivity.
Defined.

(** X8 for the entry [<0021><005a>] before the range [<0020> <0022> <0041>]. *)
Lemma bfchar_override_sample :
  exists m,
    parse_tounicode_cmap (cmap_text_with_range [[(0x21, 0x5A)]] 0x20 0x22 0x41) = Ok m /\
    m !! 0x21 = Some 0x5A /\
    forall g', g' <> 0x21 ->
      m !! g' = if decide (0x20 <= g' <= 0x22) then Some (0x41 + g' - 0x20) else None.
Proof.
  apply (bfchar_entry_overrides_bfrange 0x21 0x5A 0x20 0x22 0x41); try lia.
  - intros _. reflexivity.
  - intros g Hg Hcomp. reflexivity.
Defined.

(** X9 for the entry [<0001><0041>] followed by the lone glyph [<0002>]. *)
Lemma lone_glyph_sample :
  parse_tounicode_cmap (cmap_text_lone_glyph [(1, 0x41)] 2) = Raise ValueError /\
  forall used, reconstruct (cmap_text_lone_glyph [(1, 0x41)] 2) used = Raise ValueError.
Proof.
  apply (lone_glyph_in_bfchar_raises [(1, 0x41)] 2); [|lia].
  intros e He. apply list_elem_of_In in He. destruct He as [<-|[]].
  split; [simpl; lia|]. split; [simpl; lia|]. intros _. reflexivity.
Defined.

(** ** Blocks the patterns do not match *)

Section MatcherFailures.
Context {R : Type}.
Implicit Types (k : string -> option string -> option R).

(** A greedy run over a class fails when the continuation fails after every
    part of the run. *)
Lemma star_class_fails p (w s : string) cap k (fuel : nat) :
  string_forall p w = true -> not_head p s ->
  (forall w1 w2, w = w1 +:+ w2 -> k (w2 +:+ s) cap = None) ->
  star_loop (exec (Class p)) fuel (w +:+ s) cap k = None.
Proof.
  intros Hw Hs. revert fuel. induction w as [|c w IH]; intros fuel Hk.
  - rewrite string_app_nil_l. destruct fuel as [|f]; cbn [star_loop].
    + exact (Hk "" "" eq_refl).
    + rewrite exec_class_not_head by assumption. exact (Hk "" "" eq_refl).
  - simpl in Hw. apply andb_true_iff in Hw as [Hc Hw].
    destruct fuel as [|f]; cbn [star_loop].
    + exact (Hk "" (String c w) eq_refl).
    + rewrite string_app_cons. cbn [exec]. rewrite Hc.
      assert (Hlt : (String.length (w +:+ s) <? String.length (String c (w +:+ s)))%nat = true)
        by (apply Nat.ltb_lt; simpl; lia).
      rewrite Hlt, IH; [|assumption|].
      * rewrite <- string_app_cons. exact (Hk "" (String c w) eq_refl).
      * intros w1 w2 ->. exact (Hk (String c w1) w2 eq_refl).
Qed.

Lemma plus_class_fails p (w s : string) cap k :
  string_forall p w = true -> not_head p s ->
  (forall w1 w2, w = w1 +:+ w2 -> w1 <> "" -> k (w2 +:+ s) cap = None) ->
  exec (Plus (Class p)) (w +:+ s) cap k = None.
Proof.
  intros Hw Hs Hk. destruct w as [|c w].
  - rewrite string_app_nil_l. cbn [exec]. destruct s as [|c s]; [reflexivity|].
    simpl in Hs. now rewrite Hs.
  - simpl in Hw. apply andb_true_iff in Hw as [Hc Hw].
    rewrite string_app_cons. cbn [exec]. rewrite Hc.
    apply star_class_fails; [assumption | assumption |].
    intros w1 w2 ->. apply (Hk (String c w1) w2); [reflexivity | discriminate].
Qed.

Lemma hex_is_not_closing (c : ascii) : is_hex_byte c = true -> ">"%char <> c.
Proof. intros Hc <-. discriminate Hc. Qed.

(** A token fails when the continuation fails after each part of its white
    space. *)
Lemma exec_token_fails (t : string * string) (s : string) cap k :
  valid_token t -> not_head is_space_byte s ->
  (forall w1 w2 cap', t.2 = w1 +:+ w2 -> k (w2 +:+ s) cap' = None) ->
  exec re_token (token_text t +:+ s) cap k = None.
Proof.
  intros (Hh & Hne & Hw) Hs Hk. unfold re_token, token_text.
  rewrite !string_app_assoc. rewrite exec_seq, exec_lit, exec_seq.
  apply (plus_class_fails is_hex_byte t.1 (">" +:+ t.2 +:+ s)); [assumption | reflexivity |].
  intros h1 h2 Hsplit Hh1. rewrite exec_seq.
  destruct h2 as [|c h2].
  - rewrite string_app_nil_l, exec_lit.
    change (exec (Star re_space) ?x ?cp ?kk)
      with (star_loop (exec (Class is_space_byte)) (String.length x) x cp kk).
    apply star_class_fails; [assumption | assumption |].
    intros w1 w2 Hw12. now apply (Hk w1 w2).
  - apply exec_lit_mismatch. rewrite string_app_cons. simpl.
    rewrite bool_decide_eq_false_2; [reflexivity|].
    apply hex_is_not_closing. rewrite Hsplit, string_forall_app in Hh.
    apply andb_true_iff in Hh as [_ Hh]. simpl in Hh. now apply andb_true_iff in Hh as [? _].
Qed.


Lemma star_tokens_at_space (closing : string) (c0 : ascii) (c : ascii) (x : string) cap k
    (fuel : nat) :
  (forall y cap', strip_literal (String c0 closing) y = None -> k y cap' = None) ->
  is_space_byte c0 = false -> is_space_byte c = true ->
  star_loop (exec re_token) fuel (String c x) cap k = None.
Proof.
  intros Hk Hc0 Hc.
  assert (Hstuck : strip_literal (String c0 closing) (String c x) = None).
  { simpl. rewrite bool_decide_eq_false_2; [reflexivity | congruence]. }
  assert (Hno : forall k', exec re_token (String c x) cap k' = None).
  { intros k'. unfold re_token. rewrite exec_seq. apply exec_lit_mismatch. simpl.
    rewrite bool_decide_eq_false_2; [reflexivity | now apply space_is_not_bracket]. }
  destruct fuel as [|f]; cbn [star_loop]; [now apply Hk|].
  rewrite Hno. now apply Hk.
Qed.

Lemma star_tokens_fail (closing : string) (c0 : ascii) (ts : list (string * string))
    (rest : string) cap k (fuel : nat) :
  (forall y cap', strip_literal (String c0 closing) y = None -> k y cap' = None) ->
  is_space_byte c0 = false -> c0 <> "<"%char ->
  Forall valid_token ts -> breaks_block (String c0 closing) rest ->
  star_loop (exec re_token) fuel (concat_str (map token_text ts) +:+ rest) cap k = None.
Proof.
  intros Hk Hc0 Hlt Hts (Hsp & Htok & Hend). revert fuel cap.
  induction Hts as [|t ts Ht Hts IH]; intros fuel cap.
  - cbn [map concat_str foldr]. rewrite string_app_nil_l.
    destruct fuel as [|f]; cbn [star_loop]; [now apply Hk|].
    assert (Hno : forall k', exec re_token rest cap k' = None).
    { intros k'. unfold re_token. rewrite exec_seq. now apply exec_lit_mismatch. }
    rewrite Hno. now apply Hk.
  - cbn [map]. rewrite concat_str_cons, string_app_assoc.
    assert (Hstuck : strip_literal (String c0 closing)
                       (token_text t +:+ concat_str (map token_text ts) +:+ rest) = None).
    { unfold token_text. rewrite !string_app_assoc, string_app_cons. simpl.
      rewrite bool_decide_eq_false_2; [reflexivity | assumption]. }
    destruct fuel as [|f]; cbn [star_loop]; [now apply Hk|].
    rewrite exec_token_fails; [now apply Hk | assumption | now apply tokens_then_not_space |].
    intros w1 w2 cap' Hw. destruct (_ <? _)%nat; [|reflexivity].
    destruct w2 as [|c w2]; [rewrite string_app_nil_l; apply IH|].
    rewrite string_app_cons.
    apply (star_tokens_at_space closing c0); [assumption | assumption |].
    destruct Ht as (_ & _ & Hspace). rewrite Hw, string_forall_app in Hspace.
    apply andb_true_iff in Hspace as [_ Hspace]. simpl in Hspace.
    now apply andb_true_iff in Hspace as [? _].
Qed.

Lemma exec_tokens_fail (closing : string) (c0 : ascii) (ts : list (string * string))
    (rest : string) cap k :
  (forall y cap', strip_literal (String c0 closing) y = None -> k y cap' = None) ->
  is_space_byte c0 = false -> c0 <> "<"%char ->
  Forall valid_token ts -> breaks_block (String c0 closing) rest ->
  exec re_tokens (concat_str (map token_text ts) +:+ rest) cap k = None.
Proof.
  intros Hk Hc0 Hlt Hts Hrest. unfold re_tokens.
  change (exec (Plus re_token) ?x cap k)
    with (exec re_token x cap (fun s' cap' =>
            star_loop (exec re_token) (String.length s') s' cap' k)).
  destruct Hts as [|t ts Ht Hts].
  - cbn [map concat_str foldr]. rewrite string_app_nil_l.
    unfold re_token. rewrite exec_seq. apply exec_lit_mismatch. apply Hrest.
  - cbn [map]. rewrite concat_str_cons, string_app_assoc.
    apply exec_token_fails; [assumption | apply tokens_then_not_space; apply Hrest |].
    intros w1 w2 cap' Hw.
    destruct w2 as [|c w2];
      [rewrite string_app_nil_l; now apply (star_tokens_fail closing c0)|].
    rewrite string_app_cons.
    apply (star_tokens_at_space closing c0); [assumption | assumption |].
    destruct Ht as (_ & _ & Hspace). rewrite Hw, string_forall_app in Hspace.
    apply andb_true_iff in Hspace as [_ Hspace]. simpl in Hspace.
    now apply andb_true_iff in Hspace as [? _].
Qed.

End MatcherFailures.

Lemma one_byte_split (c : ascii) (w1 w2 : string) :
  String c "" = w1 +:+ w2 -> (w1 = "" /\ w2 = String c "") \/ (w1 = String c "" /\ w2 = "").
Proof.
  destruct w1 as [|a w1].
  - rewrite string_app_nil_l. intros <-. now left.
  - rewrite string_app_cons. intros [= <- Hrest]. right.
    destruct w1; [|discriminate]. rewrite string_app_nil_l in Hrest. now subst.
Qed.

(** A [bfrange] block whose tokens are not followed by the closing keyword
    is no match, from its first byte. *)
Lemma bfrange_block_unclosed (ts : list (string * string)) (rest : string) :
  Forall valid_token ts -> breaks_block "endbfrange" rest ->
  match_here re_bfrange
    (" beginbfrange" +:+ nl +:+ concat_str (map token_text ts) +:+ rest) = None.
Proof.
  intros Hts Hrest. unfold match_here, re_bfrange.
  set (body := concat_str (map token_text ts) +:+ rest).
  rewrite exec_seq.
  apply (plus_class_fails is_space_byte " " ("beginbfrange" +:+ nl +:+ body));
    [reflexivity | reflexivity |].
  intros w1 w2 Hsplit Hw1.
  apply one_byte_split in Hsplit as [[-> _]|[_ ->]]; [congruence|].
  rewrite string_app_nil_l, exec_seq, exec_lit, exec_seq.
  change (exec (Star re_space) ?x ?cp ?kk)
    with (star_loop (exec (Class is_space_byte)) (String.length x) x cp kk).
  assert (Hbody : not_head is_space_byte body).
  { unfold body. apply tokens_then_not_space. apply Hrest. }
  apply (star_class_fails is_space_byte nl body); [reflexivity | assumption |].
  intros v1 v2 Hsplit.
  apply one_byte_split in Hsplit as [[_ ->]|[_ ->]].
  - rewrite exec_seq, exec_group. unfold re_tokens.
    change (exec (Plus re_token) ?x ?cp ?kk)
      with (exec re_token x cp (fun s' cap' =>
              star_loop (exec re_token) (String.length s') s' cap' kk)).
    unfold re_token at 1. rewrite exec_seq. apply exec_lit_mismatch. reflexivity.
  - rewrite string_app_nil_l, exec_seq, exec_group. unfold body.
    apply (exec_tokens_fail "ndbfrange" "e"); try assumption; try reflexivity.
    + intros y cap' Hy. now apply exec_lit_mismatch.
    + discriminate.
Qed.


Lemma array_tokens_valid (s t v a b : Z) :
  0 <= s -> 0 <= t -> 0 <= v -> 0 <= a -> 0 <= b ->
  Forall valid_token (array_tokens s t v a b).
Proof.
  intros Hs Ht Hv Ha Hb.
  destruct (format_04x_roundtrip s Hs) as (? & ? & _).
  destruct (format_04x_roundtrip t Ht) as (? & ? & _).
  destruct (format_04x_roundtrip v Hv) as (? & ? & _).
  destruct (format_04x_roundtrip a Ha) as (? & ? & _).
  destruct (format_04x_roundtrip b Hb) as (? & ? & _).
  repeat constructor; assumption.
Qed.

Lemma array_text_split (s t v a b c : Z) :
  cmap_text_with_array s t v a b c
  = cmap_header +:+ (nl +:+ format_d (Z.of_nat 2)) +:+ " beginbfrange" +:+ nl
      +:+ concat_str (map token_text (array_tokens s t v a b))
      +:+ "[<" +:+ format_04x c +:+ ">]" +:+ nl +:+ "endbfrange" +:+ lines_text cmap_footer.
Proof.
  unfold cmap_text_with_array, range_line, array_line, array_tokens, token_text.
  cbn [map concat_str foldr fst snd].
  rewrite !string_app_assoc, ?string_app_nil_r. reflexivity.
Qed.

Section ArrayScan.
Variables (l : string) (rest : regex).

Lemma skippable_array_tail (c : Z) :
  0 <= c ->
  skippable (block_pattern (String "b" l) rest)
    ("[<" +:+ format_04x c +:+ ">]" +:+ nl +:+ "endbfrange") (lines_text cmap_footer).
Proof.
  intros Hc. destruct (format_04x_roundtrip c Hc) as (Hhex & _ & _).
  rewrite <- !string_app_assoc.
  apply skippable_app; [|now apply skippable_plain].
  apply skippable_app; [|apply skippable_space_run; [reflexivity | split; [reflexivity | discriminate]]].
  apply skippable_plain. rewrite !string_forall_app.
  rewrite (string_forall_impl is_hex_byte not_space _ (hex_is_not_space) Hhex).
  reflexivity.
Qed.

End ArrayScan.

Lemma finditer_bfrange_array (s t v a b c : Z) :
  0 <= s -> 0 <= t -> 0 <= v -> 0 <= a -> 0 <= b -> 0 <= c ->
  finditer re_bfrange (cmap_text_with_array s t v a b c) = [].
Proof.
  intros Hs Ht Hv Ha Hb Hc. rewrite array_text_split.
  pose proof (array_tokens_valid s t v a b Hs Ht Hv Ha Hb) as Hvalid.
  rewrite finditer_skip by (now apply (skippable_inert "eginbfrange")).
  rewrite finditer_skip by apply (skippable_count_line "eginbfrange").
  change (" beginbfrange" +:+ ?x) with (String " " ("beginbfrange" +:+ x)).
  rewrite finditer_skip_one.
  2:{ change (String " " ("beginbfrange" +:+ ?x)) with (" beginbfrange" +:+ x).
      apply bfrange_block_unclosed; [assumption|]. repeat split. }
  rewrite finditer_skip by (now apply (skippable_plain "eginbfrange")).
  rewrite finditer_skip.
  2:{ apply (skippable_space_run "eginbfrange"); [reflexivity|].
      apply (other_head_tokens _ ("[<" +:+ _)). split; [reflexivity | discriminate]. }
  rewrite finditer_skip.
  2:{ apply (skippable_tokens "eginbfrange"); [assumption|].
      split; [reflexivity | discriminate]. }
  rewrite <- !string_app_assoc.
  rewrite finditer_skip; [reflexivity|].
  rewrite !string_app_assoc. now apply skippable_array_tail.
Qed.

Lemma finditer_bfchar_array (s t v a b c : Z) :
  0 <= s -> 0 <= t -> 0 <= v -> 0 <= a -> 0 <= b -> 0 <= c ->
  finditer re_bfchar (cmap_text_with_array s t v a b c) = [].
Proof.
  intros Hs Ht Hv Ha Hb Hc. rewrite array_text_split.
  pose proof (array_tokens_valid s t v a b Hs Ht Hv Ha Hb) as Hvalid.
  rewrite finditer_skip by (now apply (skippable_inert "eginbfchar")).
  rewrite finditer_skip by apply (skippable_count_line "eginbfchar").
  rewrite finditer_skip by (now apply (skippable_inert "eginbfchar")).
  rewrite finditer_skip.
  2:{ apply (skippable_space_run "eginbfchar"); [reflexivity|].
      apply (other_head_tokens _ ("[<" +:+ _)). split; [reflexivity | discriminate]. }
  rewrite finditer_skip.
  2:{ apply (skippable_tokens "eginbfchar"); [assumption|].
      split; [reflexivity | discriminate]. }
  rewrite <- !string_app_assoc.
  rewrite finditer_skip; [reflexivity|].
  rewrite !string_app_assoc. now apply skippable_array_tail.
Qed.

Section ArrayClaim.
Context `{UnicodeData}.

(** X10.  A [bfrange] block in which a range lists its codes in brackets is
    not recognised at all: the pattern wants tokens up to the closing
    keyword, so the plain triple that precedes the bracketed range is dropped
    with it, and the parser returns the empty map. *)
Theorem bracketed_range_drops_its_block (s t v a b c : Z) :
  0 <= s -> 0 <= t -> 0 <= v -> 0 <= a -> 0 <= b -> 0 <= c ->
  parse_tounicode_cmap (cmap_text_with_array s t v a b c) = Ok ∅.
Proof.
  intros Hs Ht Hv Ha Hb Hc. unfold parse_tounicode_cmap.
  rewrite finditer_bfrange_array, finditer_bfchar_array by assumption.
  reflexivity.
Qed.

End ArrayClaim.

(** X10 for [<0020> <0022> <0041>] followed by [<0030> <0031> [<0061>]]. *)
Lemma bracketed_range_sample :
  parse_tounicode_cmap (cmap_text_with_array 0x20 0x22 0x41 0x30 0x31 0x61) = Ok ∅.
Proof. apply (bracketed_range_drops_its_block 0x20 0x22 0x41 0x30 0x31 0x61); lia. Defined.

(** ** [to_int] *)

Lemma search_step (r : regex) (c : ascii) (s : string) :
  search r (String c s) =
    match match_here r (String c s) with
    | Some (_, cap) => Some cap
    | None => search r s
    end.
Proof. reflexivity. Qed.

Lemma number_cannot_start (s : string) :
  not_head is_decimal s -> match_here re_number s = None.
Proof.
  intros Hs. unfold match_here, re_number. rewrite exec_group.
  cbn [exec]. destruct s as [|c s]; [reflexivity|]. simpl in Hs. now rewrite Hs.
Qed.

Lemma number_matches (w s : string) :
  string_forall is_decimal w = true -> w <> "" -> not_head is_decimal s ->
  match_here re_number (w +:+ s) = Some (s, Some w).
Proof.
  intros Hw Hne Hs. unfold match_here, re_number. rewrite exec_group.
  apply (exec_plus_class is_decimal w s); [assumption | assumption | assumption |].
  now rewrite captured_prefix.
Qed.

Lemma search_skips (r : regex) (pre s : string) :
  (forall a b, pre = a +:+ b -> b <> "" -> match_here r (b +:+ s) = None) ->
  search r (pre +:+ s) = search r s.
Proof.
  induction pre as [|c pre IH]; intros Hskip; [reflexivity|].
  rewrite string_app_cons, search_step, <- string_app_cons.
  rewrite (Hskip "" (String c pre)) by (reflexivity || discriminate).
  apply IH. intros a b -> Hb. apply (Hskip (String c a)); [reflexivity | assumption].
Qed.

Lemma string_forall_suffix (p : ascii -> bool) (a b : string) :
  string_forall p (a +:+ b) = true -> string_forall p b = true.
Proof. rewrite string_forall_app. now intros [_ ?]%andb_true_iff. Qed.

Lemma search_number_after (pre w s : string) :
  string_forall no_digit pre = true ->
  string_forall is_decimal w = true -> w <> "" -> not_head is_decimal s ->
  search re_number (pre +:+ w +:+ s) = Some (Some w).
Proof.
  intros Hpre Hw Hne Hs. rewrite search_skips.
  - destruct w as [|c w]; [congruence|].
    rewrite string_app_cons, search_step, <- string_app_cons.
    now rewrite number_matches.
  - intros a b -> Hb. apply number_cannot_start.
    apply string_forall_suffix in Hpre. destruct b as [|c b]; [congruence|].
    rewrite string_app_cons. simpl in *. apply andb_true_iff in Hpre as [Hc _].
    unfold no_digit in Hc. now apply negb_true_iff in Hc.
Qed.

Lemma int10_snoc (s : string) (c : ascii) :
  int10 (s +:+ String c "") = int10 s * 10 + (Z.of_nat (nat_of_ascii c) - 48).
Proof. unfold int10. rewrite list_ascii_app, fold_left_app. reflexivity. Qed.

Lemma decimal_value_digit (d : Z) :
  0 <= d < 10 -> Z.of_nat (nat_of_ascii (digit_char d)) - 48 = d.
Proof.
  intros Hd.
  assert (Hcases : d = 0 \/ d = 1 \/ d = 2 \/ d = 3 \/ d = 4 \/ d = 5 \/ d = 6 \/ d = 7 \/
                   d = 8 \/ d = 9) by lia.
  repeat (destruct Hcases as [->|Hcases]; [reflexivity|]). now subst.
Qed.

Lemma int10_digits_fixed (n : nat) (v : Z) :
  0 <= v -> int10 (digits_fixed 10 n v) = v mod 10 ^ Z.of_nat n.
Proof.
  revert v. induction n as [|n IH]; intros v Hv.
  - simpl. now rewrite Z.mod_1_r.
  - cbn [digits_fixed]. rewrite int10_snoc, IH by (apply Z.div_pos; lia).
    rewrite decimal_value_digit by (apply Z.mod_pos_bound; lia).
    rewrite Nat2Z.inj_succ, Z.pow_succ_r by lia.
    rewrite (Z.rem_mul_r v 10 (10 ^ Z.of_nat n)) by lia. lia.
Qed.

(** What [format_d] writes for a non-negative number is a non-empty run of
    decimal digits that [int] reads back. *)
Lemma format_d_roundtrip (v : Z) :
  0 <= v ->
  string_forall is_decimal (format_d v) = true /\
  format_d v <> "" /\
  int10 (format_d v) = v.
Proof.
  intros Hv. unfold format_d.
  destruct (format_zero_padded_digits 10 0 v ltac:(lia) Hv) as (n & Hn & Hlt & ->).
  split; [apply digits_fixed_decimal|]. split; [now apply digits_fixed_nonempty|].
  rewrite int10_digits_fixed by assumption. apply Z.mod_small. lia.
Qed.

(** The longest run of bytes of a class at the head of a text. *)
Lemma split_run (p : ascii -> bool) (s : string) :
  exists w rest, s = w +:+ rest /\ string_forall p w = true /\ not_head p rest.
Proof.
  induction s as [|c s (w & rest & -> & Hw & Hrest)].
  - now exists "", "".
  - destruct (p c) eqn:Hc.
    + exists (String c w), rest. repeat split; [simpl; now rewrite Hc | assumption].
    + exists "", (String c (w +:+ rest)). repeat split. exact Hc.
Qed.

Lemma search_number_none (s : string) :
  search re_number s = None <-> string_forall no_digit s = true.
Proof.
  induction s as [|c s IH].
  - split; reflexivity.
  - rewrite search_step. simpl. unfold no_digit at 1.
    destruct (is_decimal c) eqn:Hc; simpl.
    + destruct (split_run is_decimal s) as (w & rest & -> & Hw & Hrest).
      rewrite <- string_app_cons.
      rewrite number_matches; [split; discriminate | simpl; now rewrite Hc | discriminate | assumption].
    + rewrite number_cannot_start by exact Hc. exact IH.
Qed.

(** X11.  [to_int] returns the first number of a text: in ASCII text, the
    digits of a non-negative number [n] that no digit precedes and no digit
    follows are read as [n], whatever comes after them. *)
Theorem to_int_reads_first_number (pre post : string) (n : Z) :
  string_forall is_ascii_byte (pre +:+ post) = true ->
  string_forall no_digit pre = true ->
  not_head is_decimal post ->
  0 <= n < 10 ^ 4300 ->
  to_int (pre +:+ format_d n +:+ post) = Ok n.
Proof.
  intros _ Hpre Hpost [Hn _]. unfold to_int.
  destruct (format_d_roundtrip n Hn) as (Hdec & Hne & Hval).
  rewrite search_number_after by assumption. cbn [from_option id].
  now rewrite Hval.
Qed.

(** X11 on an object reference: the object number is read, the generation
    number is not. *)
Lemma to_int_object_reference : to_int "12 0 R" = Ok 12.
Proof.
  apply (to_int_reads_first_number "" " 0 R" 12); try reflexivity.
  split; [lia|]. apply Z.lt_le_trans with (10 ^ 2); [lia|].
  apply Z.pow_le_mono_r; lia.
Defined.

(** X12.  On ASCII text [to_int] raises [AttributeError] exactly when the
    text holds no decimal digit. *)
Theorem to_int_raises_without_digit (src : string) :
  string_forall is_ascii_byte src = true ->
  to_int src = Raise AttributeError <-> string_forall no_digit src = true.
Proof.
  intros _. unfold to_int. rewrite <- search_number_none.
  destruct (search re_number src); split; congruence.
Qed.

(** X12 on the value of a missing entry. *)
Lemma to_int_null : to_int "null" = Raise AttributeError.
Proof. now apply (to_int_raises_without_digit "null"). Defined.

(** ** The used glyphs *)

Lemma seqZ_increasing (m n : Z) : StronglySorted Z.lt (seqZ m n).
Proof.
  remember (Z.to_nat n) as k eqn:Hk. revert m n Hk.
  induction k as [|k IH]; intros m n Hk.
  - rewrite seqZ_nil by lia. constructor.
  - rewrite seqZ_cons by lia. constructor; [apply IH; lia|].
    apply Forall_seqZ. intros; lia.
Qed.

Lemma used_entries_glyphs (cmap : cmap_t) (used : list Z) (g : Z) :
  g ∈ (used_entries cmap used).*1 -> g ∈ used.
Proof.
  intros ([g' c] & -> & Hin)%list_elem_of_fmap.
  now apply used_entries_spec in Hin as [? _].
Qed.

Lemma used_entries_increasing (cmap : cmap_t) (used : list Z) :
  StronglySorted Z.lt used -> StronglySorted Z.lt (used_entries cmap used).*1.
Proof.
  induction 1 as [|g used Hused IH Hg]; [constructor|].
  unfold used_entries in *. cbn [omap list_omap].
  destruct (cmap !! g) as [c|]; [|exact IH].
  cbn [fmap list_fmap fst]. constructor; [exact IH|].
  apply Forall_forall. intros x Hx. apply (used_entries_glyphs cmap used) in Hx.
  rewrite Forall_forall in Hg. now apply Hg.
Qed.

Section TrueTypeFacts.
Context `{FontEngine Face}.

Lemma drawn_glyphs_spec (face : Face) (l r : list Z) :
  drawn_glyphs face l = Ok r ->
  (forall g, g ∈ r <-> g ∈ l /\ glyph_is_drawn face g = Ok true) /\
  (StronglySorted Z.lt l -> StronglySorted Z.lt r).
Proof.
  revert r. induction l as [|i l IH]; intros r Hr.
  - injection Hr as <-. split; [|intros; constructor].
    intros g. split; [intros Hg; inversion Hg | intros [Hg _]; inversion Hg].
  - cbn [drawn_glyphs] in Hr.
    destruct (glyph_is_drawn face i) as [b|e] eqn:Hi; [|discriminate].
    destruct (drawn_glyphs face l) as [r'|e] eqn:Hl; [|discriminate].
    injection Hr as <-. destruct (IH r' eq_refl) as [Hmem Hsort]. split.
    + intros g. destruct b.
      * rewrite !elem_of_cons, Hmem. split.
        -- intros [->|[? ?]]; auto.
        -- intros [[->|?] ?]; auto.
      * rewrite elem_of_cons, Hmem. split.
        -- intros [? ?]; auto.
        -- intros [[->|?] Hd]; [congruence | auto].
    + intros Hs. apply StronglySorted_inv in Hs as [Hs Hi'].
      destruct b; [|now apply Hsort].
      constructor; [now apply Hsort|].
      apply Forall_forall. intros x Hx. apply Hmem in Hx as [Hx _].
      rewrite Forall_forall in Hi'. now apply Hi'.
Qed.

(** X13.  The used glyphs [parse_truetype_data] returns are the glyph indices
    below the face's number of glyphs that are drawn, in increasing order,
    each once; so the entries [make_tounicode] writes for them come in
    increasing glyph order. *)
Theorem parse_truetype_data_increasing (data : option string) (used : list Z) :
  parse_truetype_data data = Ok used ->
  exists face,
    face_open data = Ok face /\
    (forall g, g ∈ used <-> 0 <= g < num_glyphs face /\ glyph_is_drawn face g = Ok true) /\
    StronglySorted Z.lt used /\
    forall cmap : cmap_t, StronglySorted Z.lt (used_entries cmap used).*1.
Proof.
  unfold parse_truetype_data. intros Hused.
  destruct (face_open data) as [face|e]; [|discriminate].
  exists face. split; [reflexivity|].
  destruct (drawn_glyphs_spec face _ used Hused) as [Hmem Hsort].
  assert (Hinc : StronglySorted Z.lt used) by (apply Hsort, seqZ_increasing).
  split; [|split; [exact Hinc|]].
  - intros g. rewrite Hmem, elem_of_seqZ. split; intros [? ?]; split; (lia || assumption).
  - intros cmap. now apply used_entries_increasing.
Qed.

End TrueTypeFacts.


(** X13 on a font file of four glyphs of which the second and third are
    drawn. *)
Lemma parse_truetype_data_sample :
  exists face : list bool,
    face_open (Some "0110") = Ok face /\
    (forall g, g ∈ [1; 2] <-> 0 <= g < num_glyphs face /\ glyph_is_drawn face g = Ok true) /\
    StronglySorted Z.lt [1; 2] /\
    forall cmap : cmap_t, StronglySorted Z.lt (used_entries cmap [1; 2]).*1.
Proof. apply (parse_truetype_data_increasing (Some "0110") [1; 2]). reflexivity. Defined.

(** ** [reproduce_cmap] *)

Section ReproduceFacts.
Context `{UnicodeData} `{FontEngine Face} `{FontStore Doc PageRef}.

Lemma reading_run {A} (f : Doc -> outcome A) (doc : Doc) : reading f doc = (f doc, doc).
Proof. reflexivity. Qed.

(** The guarded body leaves the document as it was, or as the one
    [update_stream] it reached left it. *)
Lemma rebuild_font_cmap_effect (f : FontRow) (doc : Doc) :
  (exists e, rebuild_font_cmap f doc = (Raise e, doc)) \/
  exists m mi stream cmap file used,
    xref_get_key (row_xref f) "ToUnicode" doc = Ok m /\
    to_int m.2 = Ok mi /\
    xref_stream mi doc = Ok (Some stream) /\
    parse_tounicode_cmap stream = Ok cmap /\
    parse_truetype_data file = Ok used /\
    rebuild_font_cmap f doc = update_stream mi (make_tounicode cmap used) doc.
Proof.
  unfold rebuild_font_cmap, mbind, M_bind, bind, reading, lift_outcome.
  destruct (xref_get_key (row_xref f) "ToUnicode" doc) as [m|e] eqn:Hm; [|eauto].
  destruct (xref_get_key (row_xref f) "DescendantFonts" doc) as [fd|e]; [|eauto].
  destruct (to_int m.2) as [mi|e] eqn:Hmi; [|eauto].
  destruct (to_int fd.2) as [d|e]; [|eauto].
  destruct (xref_get_key d "FontDescriptor/FontFile2" doc) as [ff|e]; [|eauto].
  destruct (xref_stream mi doc) as [[stream|]|e] eqn:Hs; [| left; eexists; reflexivity | eauto].
  cbn [parse_stream].
  destruct (parse_tounicode_cmap stream) as [cmap|e] eqn:Hc; [|eauto].
  destruct (to_int ff.2) as [fi|e]; [|eauto].
  destruct (xref_stream fi doc) as [file|e]; [|eauto].
  destruct (parse_truetype_data file) as [used|e] eqn:Hu; [|eauto].
  right. exists m, mi, stream, cmap, file, used. repeat split; assumption || reflexivity.
Qed.

Lemma reproduce_font_returns (f : FontRow) (doc : Doc) :
  exists doc', reproduce_font f doc = (Ok tt, doc').
Proof.
  unfold reproduce_font. destruct (_ && _); [|now exists doc].
  unfold try_except. destruct (rebuild_font_cmap f doc) as [[[]|e] doc']; now exists doc'.
Qed.

Lemma reproduce_fonts_return (fonts : list FontRow) (doc : Doc) :
  exists doc', for_each fonts reproduce_font doc = (Ok tt, doc').
Proof.
  revert doc. induction fonts as [|f fonts IH]; intros doc; [now exists doc|].
  cbn [for_each]. unfold mbind, M_bind, bind.
  destruct (reproduce_font_returns f doc) as [doc1 ->]. apply IH.
Qed.


Lemma reproduce_fonts_idle (fonts : list FontRow) (doc : Doc) :
  Forall (fun f => ~ (row_ext f = "ttf" /\ row_basefont f ∈ FONT_NAMES)) fonts ->
  for_each fonts reproduce_font doc = (Ok tt, doc).
Proof.
  induction 1 as [|f fonts Hf Hfonts IH]; [reflexivity|].
  cbn [for_each]. unfold mbind, M_bind, bind, reproduce_font.
  destruct (decide (row_ext f = "ttf")) as [Hext|Hext].
  - rewrite (bool_decide_eq_true_2 _ Hext).
    rewrite bool_decide_eq_false_2 by (intros Hin; apply Hf; now split).
    exact IH.
  - rewrite (bool_decide_eq_false_2 _ Hext). exact IH.
Qed.

(** X14.  [reproduce_cmap] never raises, whatever the lookups, the parser,
    the font engine and the update of a stream do for a font; and when no
    font row of any page is a ["ttf"] row with a base font of [FONT_NAMES],
    it leaves the document as it was. *)
Theorem reproduce_cmap_never_raises (doc : Doc) :
  (exists doc', reproduce_cmap doc = (Ok tt, doc')) /\
  ((forall pg f, pg ∈ doc_pages doc -> f ∈ get_fonts pg doc ->
      row_ext f <> "ttf" \/ row_basefont f ∉ FONT_NAMES) ->
   reproduce_cmap doc = (Ok tt, doc)).
Proof.
  unfold reproduce_cmap. split.
  - generalize (doc_pages doc) as pages. intros pages. revert doc.
    induction pages as [|pg pages IH]; intros doc; [now exists doc|].
    cbn [for_each]. unfold mbind, M_bind, bind. rewrite reading_run.
    destruct (reproduce_fonts_return (get_fonts pg doc) doc) as [doc1 ->]. apply IH.
  - generalize (doc_pages doc) as pages. intros pages Hidle.
    induction pages as [|pg pages IH]; [reflexivity|].
    cbn [for_each]. unfold mbind, M_bind, bind. rewrite reading_run.
    rewrite reproduce_fonts_idle.
    + apply IH. intros pg' f Hpg. apply Hidle. now right.
    + apply Forall_forall. intros f Hf [Hext Hname].
      destruct (Hidle pg f ltac:(now left) Hf); contradiction.
Qed.

(** X15.  One font of [reproduce_cmap] always returns, and the document is
    left as it was, or as one [update_stream] left it: the font is a ["ttf"]
    row of [FONT_NAMES], the object updated is the one the number in its
    [ToUnicode] entry names, and what is written is [make_tounicode] of the
    map parsed from that object's stream, for the used glyphs of a font
    file. *)
Theorem reproduce_font_rewrites_one_stream (f : FontRow) (doc : Doc) :
  exists doc',
    reproduce_font f doc = (Ok tt, doc') /\
    (doc' = doc \/
     (row_ext f = "ttf" /\ row_basefont f ∈ FONT_NAMES /\
      exists m mi stream cmap file used,
        xref_get_key (row_xref f) "ToUnicode" doc = Ok m /\
        to_int m.2 = Ok mi /\
        xref_stream mi doc = Ok (Some stream) /\
        parse_tounicode_cmap stream = Ok cmap /\
        parse_truetype_data file = Ok used /\
        doc' = (update_stream mi (make_tounicode cmap used) doc).2)).
Proof.
  unfold reproduce_font.
  destruct (decide (row_ext f = "ttf")) as [Hext|Hext];
    [|rewrite (bool_decide_eq_false_2 _ Hext); exists doc; auto].
  destruct (decide (row_basefont f ∈ FONT_NAMES)) as [Hname|Hname];
    [|rewrite (bool_decide_eq_false_2 _ Hname), andb_false_r; exists doc; auto].
  rewrite (bool_decide_eq_true_2 _ Hext), (bool_decide_eq_true_2 _ Hname).
  cbn [andb]. unfold try_except.
  destruct (rebuild_font_cmap_effect f doc)
    as [[e ->]|(m & mi & stream & cmap & file & used & Hm & Hmi & Hs & Hc & Hu & ->)].
  - exists doc. auto.
  - exists (update_stream mi (make_tounicode cmap used) doc).2. split.
    + now destruct (update_stream mi (make_tounicode cmap used) doc) as [[[]|e] doc'].
    + right. repeat split; try assumption.
      exists m, mi, stream, cmap, file, used. repeat split; assumption.
Qed.

End ReproduceFacts.

(** ** The tables of a page *)

Section TableFacts.
Context `{Primitives float} `{Collaborators World Pdf Proc float}.

Lemma build_xobj_tables_lookup avail cmap (pdf : Pdf) (xs : list PdfXobject)
    (a : gmap string (gset string)) (o : gmap string string) (c : gmap string pyval)
    (w : World) :
  exists a' o' c',
    build_xobj_tables avail cmap pdf xs (a, o, c) w = (Ok (a', o', c'), w) /\
    (forall k, k ∈ xobj_xobj_id <$> xs ->
       exists x, x ∈ xs /\ xobj_xobj_id x = k /\
         a' !! k = Some (avail ∪ declared_fonts pdf (xref_id x) w) /\
         c' !! k = Some (PyDict (cmap ∪ font_lengths (xobj_pdf_font x)))) /\
    (forall k, k ∉ xobj_xobj_id <$> xs -> a' !! k = a !! k /\ c' !! k = c !! k).
Proof.
  revert a o c. induction xs as [|x xs IH]; intros a o c.
  - exists a, o, c. split; [reflexivity|]. split; [|auto].
    intros k Hk. inversion Hk.
  - cbn [build_xobj_tables]. unfold mbind, M_bind, bind, add_xobj_tables,
      get_xobj_available_fonts. cbn [mret M_ret ret].
    destruct (IH (<[xobj_xobj_id x := avail ∪ declared_fonts pdf (xref_id x) w]> a)
                 (<[xobj_xobj_id x := zstd_decompress (base_operations x)]> o)
                 (<[xobj_xobj_id x := PyDict (cmap ∪ font_lengths (xobj_pdf_font x))]> c))
      as (a' & o' & c' & Hrun & Hin & Hout).
    exists a', o', c'. split; [exact Hrun|]. split.
    + intros k Hk. destruct (decide (k ∈ xobj_xobj_id <$> xs)) as [Hlater|Hlast].
      * destruct (Hin k Hlater) as (x' & Hx' & Hid & Ha & Hc).
        exists x'. split; [now right | auto].
      * cbn [fmap list_fmap] in Hk. apply elem_of_cons in Hk as [->|Hk]; [|contradiction].
        exists x. split; [now left|]. split; [reflexivity|].
        destruct (Hout _ Hlast) as [-> ->]. now rewrite !lookup_insert_eq.
    + intros k Hk. cbn [fmap list_fmap] in Hk. apply not_elem_of_cons in Hk as [Hne Hk].
      destruct (Hout k Hk) as [-> ->]. now rewrite !lookup_insert_ne by congruence.
Qed.

(** X16.  In the tables [update_page_content_stream] builds, the fonts of
    the page take precedence inside every XObject: for a font id the page
    declares, the encoding length looked up for a character of an XObject is
    the page's, whatever the XObject's own font of that id says. *)
Theorem page_font_length_wins_in_xobject avail (pg : Page float) (pdf : Pdf) (w w' : World)
    (x_avail : gmap string (gset string)) (x_ops : gmap string string)
    (x_cmap : gmap string pyval) (ctx : RenderContext) (k fid : string) (v : option Z) :
  build_xobj_tables avail (font_lengths (page_pdf_font pg)) pdf (pdf_xobject pg)
      (∅, ∅, pyval_of_length <$> font_lengths (page_pdf_font pg)) w
    = (Ok (x_avail, x_ops, x_cmap), w') ->
  xobj_encoding_length_map ctx = x_cmap ->
  k ∈ xobj_xobj_id <$> pdf_xobject pg ->
  font_lengths (page_pdf_font pg) !! fid = Some v ->
  lookup_encoding_length ctx (Some k) fid = Ok (pyval_of_length v).
Proof.
  intros Hrun Hctx Hk Hfid.
  destruct (build_xobj_tables_lookup avail (font_lengths (page_pdf_font pg)) pdf
              (pdf_xobject pg) ∅ ∅ (pyval_of_length <$> font_lengths (page_pdf_font pg)) w)
    as (a' & o' & c' & Hrun' & Hin & _).
  rewrite Hrun' in Hrun. injection Hrun as -> -> -> ->.
  destruct (Hin k Hk) as (x & _ & _ & _ & Hc).
  unfold lookup_encoding_length, container_encoding_length_map, get_or.
  rewrite Hctx, Hc. cbn [from_option id].
  now rewrite (lookup_union_Some_l _ _ _ _ Hfid).
Qed.

(** X17.  In the tables [update_page_content_stream] builds, every font
    available on the page is available in each of its XObjects. *)
Theorem page_fonts_are_available_in_xobjects avail (pg : Page float) (pdf : Pdf)
    (w w' : World) (x_avail : gmap string (gset string)) (x_ops : gmap string string)
    (x_cmap : gmap string pyval) (ctx : RenderContext) (k : string) :
  build_xobj_tables avail (font_lengths (page_pdf_font pg)) pdf (pdf_xobject pg)
      (∅, ∅, pyval_of_length <$> font_lengths (page_pdf_font pg)) w
    = (Ok (x_avail, x_ops, x_cmap), w') ->
  xobj_available_fonts ctx = x_avail ->
  k ∈ xobj_xobj_id <$> pdf_xobject pg ->
  avail ⊆ container_available_fonts ctx (Some k).
Proof.
  intros Hrun Hctx Hk.
  destruct (build_xobj_tables_lookup avail (font_lengths (page_pdf_font pg)) pdf
              (pdf_xobject pg) ∅ ∅ (pyval_of_length <$> font_lengths (page_pdf_font pg)) w)
    as (a' & o' & c' & Hrun' & Hin & _).
  rewrite Hrun' in Hrun. injection Hrun as -> -> -> ->.
  destruct (Hin k Hk) as (x & _ & _ & Ha & _).
  unfold container_available_fonts, get_or. rewrite Hctx, Ha. cbn [from_option id].
  apply union_subseteq_l.
Qed.

End TableFacts.

(** ** What the assembler leaves in the buffers *)


Section AssemblyFacts.
Context `{Primitives float}.
Implicit Types (u : RenderUnit float) (l : list (RenderUnit float)).

Lemma route_same_keys (ops ops' : gmap string string) (xid : option string) :
  dom ops' = dom ops -> route ops' xid = route ops xid.
Proof. intros Hdom. unfold route. now rewrite Hdom. Qed.

Lemma bytes_for_same_keys ctx (ops ops' : gmap string string) target l :
  dom ops' = dom ops -> bytes_for ctx ops' target l = bytes_for ctx ops target l.
Proof.
  intros Hdom. unfold bytes_for. do 2 f_equal.
  apply list_filter_iff. intros u. now rewrite (route_same_keys ops ops').
Qed.

Lemma bytes_for_cons ctx (ops : gmap string string) target u l :
  bytes_for ctx ops target (u :: l)
  = if decide (route ops (xobj_id u) = target)
    then emitted u ctx +:+ bytes_for ctx ops target l
    else bytes_for ctx ops target l.
Proof.
  unfold bytes_for. rewrite filter_cons.
  destruct (decide (route ops (xobj_id u) = target)); reflexivity.
Qed.

Lemma bytes_for_nil ctx (ops : gmap string string) target :
  bytes_for ctx ops target [] = "".
Proof. reflexivity. Qed.

Lemma route_some_in_dom (ops : gmap string string) xid k :
  route ops xid = Some k -> xid = Some k /\ k ∈ dom ops.
Proof.
  unfold route. destruct xid as [k'|]; [|discriminate].
  case_bool_decide; [|discriminate]. now intros [= ->].
Qed.

(** The units of [l], rendered one after the other while none raises: each
    buffer gets the bytes of the units addressed to it. *)
Lemma for_each_render_run ctx l (p_op : string) (ops : gmap string string) :
  Forall (fun u => render_status u ctx = Ok tt) l ->
  exists ops',
    for_each l (fun u => render_to_target u ctx) (p_op, ops)
      = (Ok tt, (p_op +:+ bytes_for ctx ops None l, ops')) /\
    forall k, ops' !! k = (fun buf => buf +:+ bytes_for ctx ops (Some k) l) <$> ops !! k.
Proof.
  intros Hl. revert p_op ops. induction Hl as [|u l Hu Hl IH]; intros p_op ops.
  - exists ops. split.
    + cbn. now rewrite string_app_nil_r.
    + intros k. rewrite bytes_for_nil. destruct (ops !! k) as [buf|]; [|reflexivity].
      cbn. now rewrite string_app_nil_r.
  - cbn [for_each]. unfold mbind, M_bind, bind.
    rewrite render_to_target_run, Hu.
    destruct (route ops (xobj_id u)) as [k|] eqn:Hroute.
    + apply route_some_in_dom in Hroute as Hk. destruct Hk as [_ Hk].
      apply elem_of_dom in Hk as [buf Hbuf]. rewrite Hbuf. cbn [from_option id].
      assert (Hdom : dom (<[k := buf +:+ emitted u ctx]> ops) = dom ops).
      { rewrite dom_insert_L. apply subseteq_union_1_L, singleton_subseteq_l.
        apply elem_of_dom. eauto. }
      destruct (IH p_op (<[k := buf +:+ emitted u ctx]> ops)) as (ops' & Hrun & Hops').
      exists ops'. split.
      * rewrite Hrun. rewrite (bytes_for_same_keys ctx ops) by exact Hdom.
        rewrite (bytes_for_cons ctx ops None u l), Hroute.
        now rewrite decide_False by discriminate.
      * intros j. rewrite Hops', (bytes_for_same_keys ctx ops) by exact Hdom.
        rewrite (bytes_for_cons ctx ops (Some j) u l), Hroute.
        destruct (decide (j = k)) as [->|Hne].
        -- rewrite lookup_insert_eq, Hbuf, decide_True by reflexivity.
           cbn. now rewrite string_app_assoc.
        -- rewrite lookup_insert_ne by congruence.
           now rewrite decide_False by congruence.
    + destruct (IH (p_op +:+ emitted u ctx) ops) as (ops' & Hrun & Hops').
      exists ops'. split.
      * rewrite Hrun, (bytes_for_cons ctx ops None u l), Hroute.
        rewrite decide_True by reflexivity. now rewrite string_app_assoc.
      * intros j. rewrite Hops', (bytes_for_cons ctx ops (Some j) u l), Hroute.
        now rewrite decide_False by discriminate.
Qed.

(** The same up to the first unit that raises: it is the last one rendered. *)
Lemma for_each_render_raise ctx (done rest : list (RenderUnit float)) u (e : exn)
    (p_op : string) (ops : gmap string string) :
  Forall (fun u => render_status u ctx = Ok tt) done ->
  render_status u ctx = Raise e ->
  exists ops',
    for_each (done ++ u :: rest) (fun u => render_to_target u ctx) (p_op, ops)
      = (Raise e, (p_op +:+ bytes_for ctx ops None (done ++ [u]), ops')) /\
    forall k, ops' !! k
              = (fun buf => buf +:+ bytes_for ctx ops (Some k) (done ++ [u])) <$> ops !! k.
Proof.
  intros Hdone Hu.
  assert (Hone : forall p (o : gmap string string), exists o',
             render_to_target u ctx (p, o)
               = (Raise e, (p +:+ bytes_for ctx o None [u], o')) /\
             forall k, o' !! k = (fun buf => buf +:+ bytes_for ctx o (Some k) [u]) <$> o !! k).
  { intros p o. rewrite render_to_target_run, Hu.
    destruct (route o (xobj_id u)) as [k|] eqn:Hroute.
    - apply route_some_in_dom in Hroute as Hk. destruct Hk as [_ Hk].
      apply elem_of_dom in Hk as [buf Hbuf]. rewrite Hbuf. cbn [from_option id].
      eexists. split.
      + rewrite (bytes_for_cons ctx o None u []), Hroute, bytes_for_nil.
        rewrite decide_False by discriminate. now rewrite string_app_nil_r.
      + intros j. rewrite (bytes_for_cons ctx o (Some j) u []), Hroute, bytes_for_nil.
        destruct (decide (j = k)) as [->|Hne].
        * rewrite lookup_insert_eq, Hbuf, decide_True by reflexivity.
          cbn. now rewrite string_app_nil_r.
        * rewrite lookup_insert_ne by congruence.
          rewrite decide_False by congruence.
          destruct (o !! j); cbn; [now rewrite string_app_nil_r | reflexivity].
    - exists o. split.
      + rewrite (bytes_for_cons ctx o None u []), Hroute, bytes_for_nil.
        rewrite decide_True by reflexivity. now rewrite string_app_nil_r.
      + intros j. rewrite (bytes_for_cons ctx o (Some j) u []), Hroute, bytes_for_nil.
        rewrite decide_False by discriminate.
        destruct (o !! j); cbn; [now rewrite string_app_nil_r | reflexivity]. }
  rewrite for_each_app.
  destruct (for_each_render_run ctx done p_op ops Hdone) as (ops1 & -> & Hops1).
  cbn [for_each]. unfold mbind, M_bind, bind.
  destruct (Hone (p_op +:+ bytes_for ctx ops None done) ops1) as (ops2 & -> & Hops2).
  assert (Hdom : dom ops1 = dom ops).
  { apply set_eq. intros k. rewrite !elem_of_dom, Hops1.
    destruct (ops !! k); cbn; split; intros [? ?]; eauto; discriminate. }
  exists ops2. split.
  - f_equal. f_equal. rewrite (bytes_for_same_keys ctx ops ops1) by exact Hdom.
    unfold bytes_for. rewrite filter_app, map_app, concat_str_app.
    now rewrite string_app_assoc.
  - intros k. rewrite Hops2, Hops1, (bytes_for_same_keys ctx ops ops1) by exact Hdom.
    unfold bytes_for at 3. rewrite filter_app, map_app, concat_str_app.
    destruct (ops !! k); cbn; [|reflexivity]. now rewrite string_app_assoc.
Qed.

(** X18.  What the stream assembler leaves in the buffers.  When no unit
    raises, the page buffer is what it was followed by the bytes of the units
    routed to the page, in sorted order, and every XObject buffer is what it
    was followed by the bytes of the units routed to it, in sorted order.
    When a unit raises, the same holds for the units up to and including
    that one, the exception is the assembler's, and no later unit is
    rendered. *)
Theorem stream_holds_routed_units_in_order (units : list (RenderUnit float))
    (ctx : RenderContext) (p_op : string) (ops : gmap string string) :
  (Forall (fun u => render_status u ctx = Ok tt) units ->
   exists ops',
     render_units_to_stream units ctx (p_op, ops)
       = (Ok tt, (p_op +:+ bytes_for ctx ops None (sorted_by_key units), ops')) /\
     forall k, ops' !! k
               = (fun buf => buf +:+ bytes_for ctx ops (Some k) (sorted_by_key units))
                   <$> ops !! k) /\
  (forall done u rest e,
     sorted_by_key units = done ++ u :: rest ->
     Forall (fun u => render_status u ctx = Ok tt) done ->
     render_status u ctx = Raise e ->
     exists ops',
       render_units_to_stream units ctx (p_op, ops)
         = (Raise e, (p_op +:+ bytes_for ctx ops None (done ++ [u]), ops')) /\
       forall k, ops' !! k
                 = (fun buf => buf +:+ bytes_for ctx ops (Some k) (done ++ [u]))
                     <$> ops !! k).
Proof.
  unfold render_units_to_stream. split.
  - intros Hall. apply for_each_render_run.
    now rewrite sorted_by_key_perm.
  - intros done u rest e -> Hdone Hu. now apply for_each_render_raise.
Qed.

End AssemblyFacts.

(** X18 on the units of the sample page, none of which raises. *)
Lemma stream_sample :
  exists ops',
    render_units_to_stream
      (create_render_units_for_page (sample_config "en") sample_page (sample_config "en"))
      (sample_context (Some 2) false) ("cm ", xobj_draw_ops_of (pdf_xobject sample_page))
    = (Ok tt,
       ("cm " +:+ bytes_for (sample_context (Some 2) false)
                    (xobj_draw_ops_of (pdf_xobject sample_page)) None
                    (sorted_by_key (create_render_units_for_page (sample_config "en")
                                      sample_page (sample_config "en"))),
        ops')) /\
    forall k, ops' !! k
              = (fun buf => buf +:+ bytes_for (sample_context (Some 2) false)
                              (xobj_draw_ops_of (pdf_xobject sample_page)) (Some k)
                              (sorted_by_key (create_render_units_for_page (sample_config "en")
                                                sample_page (sample_config "en"))))
                  <$> xobj_draw_ops_of (pdf_xobject sample_page) !! k.
Proof.
  apply (stream_holds_routed_units_in_order
           (create_render_units_for_page (sample_config "en") sample_page (sample_config "en"))
           (sample_context (Some 2) false)).
  repeat constructor.
Defined.

(** ** The order of forms and characters *)

Section OrderFacts.
Context {float : Type}.
Implicit Types (u v : RenderUnit float) (l : list (RenderUnit float)).

Lemma sorted_by_key_of_sorted l : Sorted in_order l -> sorted_by_key l = l.
Proof.
  induction 1 as [|u l Hl IH Hhd]; [reflexivity|].
  cbn [sorted_by_key foldr]. fold (sorted_by_key l). rewrite IH.
  destruct Hhd as [|v l' Huv]; [reflexivity|].
  cbn [insert_by_key]. unfold in_order in Huv. now rewrite Huv.
Qed.

Lemma insert_by_key_above u (a b : list (RenderUnit float)) :
  Forall (fun v => key_le (get_sort_key u) (get_sort_key v) = false) a ->
  insert_by_key u (a ++ b) = a ++ insert_by_key u b.
Proof.
  induction 1 as [|v a Hv Ha IH]; [reflexivity|].
  cbn [app insert_by_key]. now rewrite Hv, IH.
Qed.

Lemma sorted_by_key_app_below (l1 l2 : list (RenderUnit float)) :
  (forall u v, u ∈ l1 -> v ∈ l2 -> key_le (get_sort_key u) (get_sort_key v) = false) ->
  sorted_by_key (l1 ++ l2) = sorted_by_key l2 ++ sorted_by_key l1.
Proof.
  intros Hbelow. induction l1 as [|u l1 IH].
  - cbn. now rewrite app_nil_r.
  - cbn [app sorted_by_key foldr]. fold (sorted_by_key (l1 ++ l2)) (sorted_by_key l1).
    rewrite IH by (intros u' v Hu' Hv; apply Hbelow; [now right | assumption]).
    apply insert_by_key_above. apply Forall_forall. intros v Hv.
    apply Hbelow; [now left|].
    assert (Hperm : sorted_by_key l2 ≡ₚ l2).
    { clear. induction l2 as [|w l2 IH]; [reflexivity|]. cbn [sorted_by_key foldr].
      fold (sorted_by_key l2).
      assert (Hins : forall x (l : list (RenderUnit float)), insert_by_key x l ≡ₚ x :: l).
      { intros x l. induction l as [|y l IHl]; [reflexivity|]. cbn [insert_by_key].
        destruct (key_le _ _); [reflexivity|]. rewrite IHl. apply Permutation_swap. }
      now rewrite Hins, IH. }
    now rewrite <- Hperm.
Qed.

(** Units numbered from [k] on, all of one render order, are in order. *)
Lemma numbered_units_sorted {A} (mk : Z -> A -> RenderUnit float) (r : Z) (items : list A)
    (k : nat) :
  (forall i a, a ∈ items -> get_sort_key (mk i a) = (r, i)) ->
  Sorted in_order
    (map (fun '(i, a) => mk i a) (imap (fun i a => (Z.of_nat (k + i), a)) items)).
Proof.
  revert k. induction items as [|a items IH]; intros k Hkey; [constructor|].
  rewrite imap_cons. cbn [map]. constructor.
  - assert (Hshift : imap ((fun i a => (Z.of_nat (k + i), a)) ∘ S) items
                     = imap (fun i a => (Z.of_nat (S k + i), a)) items).
    { apply imap_ext. intros i x _. cbn. do 2 f_equal. lia. }
    rewrite Hshift. apply IH. intros i x Hx. apply Hkey. now right.
  - destruct items as [|b items]; [constructor|].
    rewrite imap_cons. cbn [map]. constructor. unfold in_order.
    change (key_le (get_sort_key (mk (Z.of_nat (k + 0)) a))
                   (get_sort_key (mk (Z.of_nat (k + 1)) b)) = true).
    rewrite !Hkey by (repeat constructor). unfold key_le. cbn [fst snd].
    rewrite Z.eqb_refl. replace (Z.of_nat (k + 0) <=? Z.of_nat (k + 1)) with true
      by (symmetry; apply Z.leb_le; lia).
    apply orb_true_r.
Qed.

Lemma enumerated_units_sorted {A} (mk : Z -> A -> RenderUnit float) (r : Z) (items : list A) :
  (forall i a, a ∈ items -> get_sort_key (mk i a) = (r, i)) ->
  Sorted in_order (map (fun '(i, a) => mk i a) (enumerate items)).
Proof. intros Hkey. unfold enumerate. now apply (numbered_units_sorted mk r items 0). Qed.

Lemma enumerated_units_keys {A} (mk : Z -> A -> RenderUnit float) (r : Z) (items : list A) u :
  (forall i a, a ∈ items -> get_sort_key (mk i a) = (r, i)) ->
  u ∈ map (fun '(i, a) => mk i a) (enumerate items) ->
  (get_sort_key u).1 = r.
Proof.
  intros Hkey Hu. apply list_elem_of_In, in_map_iff in Hu as ([i a] & <- & Hin).
  apply list_elem_of_In in Hin. unfold enumerate in Hin.
  apply elem_of_lookup_imap in Hin as (j & x & [= -> ->] & Hx).
  rewrite Hkey; [reflexivity|]. now apply list_elem_of_lookup_2 in Hx.
Qed.

(** X19.  When forms are rendered, all characters of a page have the render
    order [rc] and all its forms the render order [rf]: the units collected
    are the Character units followed by the Form units, each numbered in
    collection order; for [rf < rc] they are rendered forms first, then
    characters, and for [rc < rf] characters first, then forms, each group in
    collection order.  (Without [render_order] attributes the orders are 100
    and 50: forms first.) *)
Theorem forms_and_characters_by_render_order (cfg tc : TranslationConfig) (pg : Page float)
    (rc rf : Z) :
  skip_form_render tc = false ->
  (forall c, c ∈ collected_chars cfg pg -> effective_order (char_render_order c) 100 = rc) ->
  (forall f, f ∈ collected_forms pg -> effective_order (form_render_order f) 50 = rf) ->
  let char_units :=
    map (fun '(i, c) => CharacterRenderUnit c (Some rc) (Some i))
        (enumerate (collected_chars cfg pg)) in
  let form_units :=
    map (fun '(i, f) => FormRenderUnit f (Some rf) (Some i))
        (enumerate (collected_forms pg)) in
  create_render_units_for_page cfg pg tc = char_units ++ form_units /\
  (rf < rc -> sorted_by_key (create_render_units_for_page cfg pg tc) = form_units ++ char_units) /\
  (rc < rf -> sorted_by_key (create_render_units_for_page cfg pg tc) = char_units ++ form_units).
Proof.
  intros Hskip Hchars Hforms char_units form_units.
  assert (Hunits : create_render_units_for_page cfg pg tc = char_units ++ form_units).
  { unfold create_render_units_for_page. rewrite Hskip.
    fold (collected_chars cfg pg) (collected_forms pg). f_equal.
    - apply map_ext_in. intros [i c] Hin. apply list_elem_of_In in Hin.
      unfold enumerate in Hin. apply elem_of_lookup_imap in Hin as (j & x & [= -> ->] & Hx).
      apply list_elem_of_lookup_2 in Hx. specialize (Hchars _ Hx).
      unfold CharacterRenderUnit, RenderUnit_init. f_equal. exact Hchars.
    - apply map_ext_in. intros [i f] Hin. apply list_elem_of_In in Hin.
      unfold enumerate in Hin. apply elem_of_lookup_imap in Hin as (j & x & [= -> ->] & Hx).
      apply list_elem_of_lookup_2 in Hx. specialize (Hforms _ Hx).
      unfold FormRenderUnit, RenderUnit_init. f_equal. exact Hforms. }
  assert (Hckey : forall i c, c ∈ collected_chars cfg pg ->
            get_sort_key (CharacterRenderUnit c (Some rc) (Some i)) = (rc, i)) by reflexivity.
  assert (Hfkey : forall i f, f ∈ collected_forms pg ->
            get_sort_key (FormRenderUnit f (Some rf) (Some i)) = (rf, i)) by reflexivity.
  assert (Hcs : Sorted in_order char_units)
    by (apply (enumerated_units_sorted (fun i c => CharacterRenderUnit c (Some rc) (Some i)) rc);
        exact Hckey).
  assert (Hfs : Sorted in_order form_units)
    by (apply (enumerated_units_sorted (fun i f => FormRenderUnit f (Some rf) (Some i)) rf);
        exact Hfkey).
  split; [exact Hunits|]. rewrite Hunits. split.
  - intros Hlt. rewrite sorted_by_key_app_below.
    + now rewrite !sorted_by_key_of_sorted.
    + intros u v Hu Hv.
      apply (enumerated_units_keys (fun i c => CharacterRenderUnit c (Some rc) (Some i)) rc)
        in Hu; [|exact Hckey].
      apply (enumerated_units_keys (fun i f => FormRenderUnit f (Some rf) (Some i)) rf)
        in Hv; [|exact Hfkey].
      unfold key_le. rewrite Hu, Hv.
      replace (rc <? rf) with false by (symmetry; apply Z.ltb_ge; lia).
      replace (rc =? rf) with false by (symmetry; apply Z.eqb_neq; lia).
      reflexivity.
  - intros Hlt. apply sorted_by_key_of_sorted.
    assert (Happ : forall (a b : list (RenderUnit float)),
               Sorted in_order a -> Sorted in_order b ->
               (forall u v, u ∈ a -> v ∈ b -> in_order u v) -> Sorted in_order (a ++ b)).
    { intros a b Ha Hb Hab. induction Ha as [|u a Ha IH Hhd]; [exact Hb|].
      cbn [app]. constructor.
      - apply IH. intros x y Hx Hy. apply Hab; [now right | assumption].
      - destruct Hhd as [|v a' Huv].
        + destruct b as [|v b]; constructor. apply Hab; now left.
        + constructor. exact Huv. }
    apply Happ; try assumption. intros u v Hu Hv.
    apply (enumerated_units_keys (fun i c => CharacterRenderUnit c (Some rc) (Some i)) rc)
      in Hu; [|exact Hckey].
    apply (enumerated_units_keys (fun i f => FormRenderUnit f (Some rf) (Some i)) rf)
      in Hv; [|exact Hfkey].
    unfold in_order, key_le. rewrite Hu, Hv.
    replace (rc <? rf) with true by (symmetry; apply Z.ltb_lt; lia). reflexivity.
Qed.

End OrderFacts.


(** The page whose XObject declares [F1] with a length of its own. *)

(** X16: [F1] has length 1 in the XObject and 2 on the page; a character of
    the XObject is written with length 2. *)
Lemma page_font_length_wins_sample :
  lookup_encoding_length layered_context (Some "X1") "F1" = Ok (PyInt 2).
Proof.
  apply (page_font_length_wins_in_xobject (World := toy_world) {[ "F9" ]} layered_page
           "in.pdf" hung_world hung_world
           (xobj_available_fonts layered_context)
           (xobj_draw_ops_of (pdf_xobject layered_page))
           (xobj_encoding_length_map layered_context)
           layered_context "X1" "F1" (Some 2)).
  - vm_compute. reflexivity.
  - reflexivity.
  - apply list_elem_of_here.
  - reflexivity.
Defined.

(** X17: the page's font [F9] is available in the XObject [X1]. *)
Lemma page_fonts_available_sample :
  ({[ "F9" ]} : gset string) ⊆ container_available_fonts layered_context (Some "X1").
Proof.
  apply (page_fonts_are_available_in_xobjects (World := toy_world) {[ "F9" ]} layered_page
           "in.pdf" hung_world hung_world
           (xobj_available_fonts layered_context)
           (xobj_draw_ops_of (pdf_xobject layered_page))
           (xobj_encoding_length_map layered_context)
           layered_context "X1").
  - vm_compute. reflexivity.
  - reflexivity.
  - apply list_elem_of_here.
Defined.

(** X19 without [render_order] attributes: the form (order 50) is rendered
    before the character (order 100), though it is collected after it. *)
Lemma form_below_character_sample :
  sorted_by_key (create_render_units_for_page (sample_config "en") layered_page
                   (sample_config "en"))
  = [FormRenderUnit (sample_form []) (Some 50) (Some 0);
     CharacterRenderUnit unordered_char (Some 100) (Some 0)].
Proof.
  destruct (forms_and_characters_by_render_order (sample_config "en") (sample_config "en")
              layered_page 100 50) as (_ & Hbelow & _).
  - reflexivity.
  - intros c Hc. apply list_elem_of_In in Hc. destruct Hc as [<-|[]]. reflexivity.
  - intros f Hf. apply list_elem_of_In in Hf. destruct Hf as [<-|[]]. reflexivity.
  - apply Hbelow. lia.
Defined.

(** ** Relocation transforms *)

Section RelocationFacts.
Context `{Primitives float}.

Lemma append_matrix_soft_failed (m : list float) (e : exn) (buf : string) :
  matrix_to_bytes m = Raise e -> append_matrix_soft m buf = (Ok tt, buf).
Proof.
  intros Hm. unfold append_matrix_soft, try_except, mbind, M_bind, bind, lift_outcome.
  now rewrite Hm.
Qed.

(** X20.  A relocation transform that cannot be written is passed over: a
    Form unit whose transform raises in [matrix_to_bytes], or has not six
    entries, renders as the same form without a transform, and so does a
    Curve unit whose transform raises. *)
Theorem failed_relocation_is_skipped :
  (forall (form : PdfForm float) (buf : string),
     (exists e, matrix_to_bytes (relocation_transform form) = Raise e) \/
     length (relocation_transform form) <> 6%nat ->
     form_render form buf
     = form_render {| relocation_transform := [];
                      pdf_matrix := pdf_matrix form;
                      form_graphic_state := form_graphic_state form;
                      pdf_form_subtype := pdf_form_subtype form;
                      form_xobj_id := form_xobj_id form;
                      form_render_order := form_render_order form |} buf) /\
  (forall (c : PdfCurve float) (buf : string),
     (exists e, matrix_to_bytes (curve_relocation_transform c) = Raise e) ->
     curve_render c buf
     = curve_render {| curve_relocation_transform := [];
                       ctm := ctm c;
                       curve_graphic_state := curve_graphic_state c;
                       pdf_original_path := pdf_original_path c;
                       pdf_path := pdf_path c;
                       evenodd := evenodd c;
                       curve_xobj_id := curve_xobj_id c |} buf).
Proof.
  split.
  - intros form buf Hfail.
    assert (Hskip : (if bool_decide (relocation_transform form ≠ [])
                        && bool_decide (length (relocation_transform form) = 6%nat)
                     then append_matrix_soft (relocation_transform form)
                     else mret tt) (buf +:+ "q ")
                    = (Ok tt, buf +:+ "q ")).
    { destruct Hfail as [[e He]|Hlen].
      - destruct (_ && _); [|reflexivity]. now apply (append_matrix_soft_failed _ e).
      - rewrite (bool_decide_eq_false_2 _ Hlen), andb_false_r. reflexivity. }
    unfold form_render, mbind, M_bind, bind, append.
    cbn [relocation_transform pdf_matrix form_graphic_state pdf_form_subtype].
    rewrite Hskip.
    rewrite (bool_decide_eq_false_2 (@nil float ≠ [])) by (intros Hne; now apply Hne).
    reflexivity.
  - intros c buf [e He].
    assert (Hskip : (if bool_decide (curve_relocation_transform c ≠ [])
                     then append_matrix_soft (curve_relocation_transform c)
                     else mret tt) (buf +:+ "q n ")
                    = (Ok tt, buf +:+ "q n ")).
    { destruct (bool_decide _); [|reflexivity]. now apply (append_matrix_soft_failed _ e). }
    unfold curve_render, mbind, M_bind, bind, append.
    cbn [curve_relocation_transform ctm curve_graphic_state pdf_original_path pdf_path
         evenodd].
    rewrite Hskip.
    rewrite (bool_decide_eq_false_2 (@nil float ≠ [])) by (intros Hne; now apply Hne).
    reflexivity.
Qed.

End RelocationFacts.

(** X20 for a relocation transform of three entries. *)
Lemma short_relocation_sample :
  form_render (sample_form [1000000; 0; 0]) "" = form_render (sample_form []) "".
Proof.
  apply (proj1 failed_relocation_is_skipped (sample_form [1000000; 0; 0]) "").
  left. now exists ValueError.
Defined.

(** ** The batches of the translator *)

Section BatchingFacts.
Context `{ParagraphSource Para PageRef}.
Implicit Types (s : pool Para PageRef) (p : Para) (batch : list Para) (pg : PageRef).

Lemma tokens_of_snoc batch p :
  tokens_of (batch ++ [p]) = tokens_of batch + calc_token_count (default "" (unicode p)).
Proof.
  unfold tokens_of. induction batch as [|q batch IH]; cbn [app foldr]; [lia|].
  rewrite IH. lia.
Qed.

Lemma submit_ok pg batch tokens s :
  pool_ok s ->
  batch_ok {| sub_paragraphs := batch; sub_page := pg; sub_tokens := tokens;
              sub_mid := mid s + 1 |} ->
  pool_ok (submit pg batch tokens s).
Proof.
  intros (Hall & Hmid & Hmids) Hb. unfold pool_ok, submit. cbn [submitted mid].
  split; [|split].
  - apply Forall_app. split; [assumption | now constructor].
  - rewrite length_app. cbn [length]. lia.
  - rewrite fmap_app, Hmids, length_app. cbn [length fmap list_fmap sub_mid].
    replace (length (submitted s) + 1)%nat with (S (length (submitted s))) by lia.
    rewrite seqZ_S. do 2 f_equal. lia.
Qed.

Lemma pool_ok_ids s (ids : gset Z) :
  pool_ok s ->
  pool_ok {| t_ids := ids; mid := mid s; submitted := submitted s |}.
Proof. intros H'. exact H'. Qed.

Lemma take_paragraph_ok pg batch tokens s p :
  p ∈ pdf_paragraph_of pg -> pool_ok s -> filling pg batch tokens ->
  pool_ok (take_paragraph pg (batch, tokens, s) p).2 /\
  filling pg (take_paragraph pg (batch, tokens, s) p).1.1
             (take_paragraph pg (batch, tokens, s) p).1.2.
Proof.
  intros Hp Hs Hf. pose proof Hf as (Htok & Hlen & Hmax & Hinit & Hall).
  unfold take_paragraph.
  destruct (unicode p) as [u|] eqn:Hu; [|now split].
  destruct (bool_decide (para_id p ∈ t_ids s) || bool_decide (u = "")) eqn:Hskip;
    [now split|].
  apply orb_false_iff in Hskip as [_ Hne]. apply bool_decide_eq_false in Hne.
  assert (Htext : has_text p) by (now exists u).
  assert (Htok' : tokens + calc_token_count u = tokens_of (batch ++ [p])).
  { rewrite tokens_of_snoc, Hu. cbn [from_option id]. lia. }
  assert (Hall' : Forall (fun q => q ∈ pdf_paragraph_of pg /\ has_text q) (batch ++ [p])).
  { apply Forall_app. split; [assumption | now repeat constructor]. }
  cbv zeta.
  destruct ((200 <? tokens + calc_token_count u) || (5 <? Z.of_nat (length (batch ++ [p]))))
    eqn:Hflush; cbn [fst snd].
  - split.
    + apply submit_ok; [exact Hs|].
      unfold batch_ok. cbn [sub_paragraphs sub_tokens sub_page].
      rewrite removelast_last, length_app. cbn [length].
      repeat split; try assumption; try lia.
    + unfold filling. cbn. repeat split; try lia. constructor.
  - apply orb_false_iff in Hflush as [Ht Hl].
    apply Z.ltb_ge in Ht, Hl. split; [exact Hs|].
    unfold filling. rewrite removelast_last.
    repeat split; try assumption; lia.
Qed.

Lemma take_paragraphs_ok pg (l : list Para) batch tokens s :
  (forall p, p ∈ l -> p ∈ pdf_paragraph_of pg) -> pool_ok s -> filling pg batch tokens ->
  pool_ok (foldl (take_paragraph pg) (batch, tokens, s) l).2 /\
  filling pg (foldl (take_paragraph pg) (batch, tokens, s) l).1.1
             (foldl (take_paragraph pg) (batch, tokens, s) l).1.2.
Proof.
  revert batch tokens s. induction l as [|p l IH]; intros batch tokens s Hl Hs Hf;
    [now split|].
  cbn [foldl].
  destruct (take_paragraph_ok pg batch tokens s p) as [Hs' Hf']; try assumption.
  { apply Hl. now left. }
  destruct (take_paragraph pg (batch, tokens, s) p) as [[b' t'] s'].
  apply IH; try assumption. intros q Hq. apply Hl. now right.
Qed.

Lemma translate_page_ok s pg : pool_ok s -> pool_ok (translate_page s pg).
Proof.
  intros Hs. unfold translate_page.
  destruct (take_paragraphs_ok pg (pdf_paragraph_of pg) [] 0 s) as [Hs' Hf'];
    [auto | assumption | unfold filling; cbn; repeat split; try lia; constructor |].
  destruct (foldl (take_paragraph pg) ([], 0, s) (pdf_paragraph_of pg)) as [[batch tokens] s'].
  cbn [fst snd] in *. destruct batch as [|p batch]; [assumption|].
  destruct Hf' as (Htok & Hlen & Hmax & Hinit & Hall).
  apply submit_ok; [assumption|]. unfold batch_ok. cbn [sub_paragraphs sub_tokens sub_page].
  repeat split; try assumption; cbn [length] in *; lia.
Qed.

Lemma translate_ok (pages : list PageRef) : pool_ok (translate pages).
Proof.
  unfold translate.
  assert (Hgen : forall s, pool_ok s -> pool_ok (foldl translate_page s pages)).
  { induction pages as [|pg pages IH]; intros s Hs; [exact Hs|].
    cbn [foldl]. apply IH. now apply translate_page_ok. }
  apply Hgen. repeat split. constructor.
Qed.

(** X22.  Every batch [translate] submits holds one to six paragraphs, all
    of them paragraphs with a text of the page submitted with it; the token
    count passed along is the sum over the batch; without its last paragraph
    the batch is within 200 tokens.  The submissions are numbered 1, 2, 3,
    ... in order. *)
Theorem batches_are_bounded (pages : list PageRef) :
  Forall (fun b =>
            (1 <= length (sub_paragraphs b) <= 6)%nat /\
            sub_tokens b = tokens_of (sub_paragraphs b) /\
            tokens_of (removelast (sub_paragraphs b)) <= 200 /\
            Forall (fun p => p ∈ pdf_paragraph_of (sub_page b) /\ has_text p)
                   (sub_paragraphs b))
         (submitted (translate pages)) /\
  sub_mid <$> submitted (translate pages)
    = seqZ 1 (Z.of_nat (length (submitted (translate pages)))).
Proof.
  destruct (translate_ok pages) as (Hall & _ & Hmids). split; [exact Hall | exact Hmids].
Qed.

Lemma all_taken_submit pg batch tokens s :
  all_taken (submit pg batch tokens s) [] = all_taken s batch.
Proof.
  unfold all_taken, submit. cbn [submitted].
  rewrite fmap_app, concat_app. cbn. now rewrite !app_nil_r.
Qed.

(** One paragraph: it is passed over, its identity being known if it has a
    text, or it is taken and its identity recorded. *)
Lemma take_paragraph_taken pg batch tokens s p :
  (all_taken (take_paragraph pg (batch, tokens, s) p).2
             (take_paragraph pg (batch, tokens, s) p).1.1 = all_taken s batch /\
   t_ids (take_paragraph pg (batch, tokens, s) p).2 = t_ids s /\
   (has_text p -> para_id p ∈ t_ids s)) \/
  (all_taken (take_paragraph pg (batch, tokens, s) p).2
             (take_paragraph pg (batch, tokens, s) p).1.1 = all_taken s batch ++ [p] /\
   t_ids (take_paragraph pg (batch, tokens, s) p).2 = {[ para_id p ]} ∪ t_ids s /\
   para_id p ∉ t_ids s).
Proof.
  unfold take_paragraph.
  destruct (unicode p) as [u|] eqn:Hu.
  2:{ left. repeat split. intros (u & Hu' & _). congruence. }
  destruct (decide (para_id p ∈ t_ids s)) as [Hin|Hout].
  { rewrite (bool_decide_eq_true_2 _ Hin). left. now repeat split. }
  rewrite (bool_decide_eq_false_2 _ Hout).
  destruct (decide (u = "")) as [->|Hne].
  { rewrite bool_decide_eq_true_2 by reflexivity. left. repeat split.
    intros (u & Hu' & Hne). congruence. }
  rewrite (bool_decide_eq_false_2 _ Hne). cbn [orb]. cbv zeta. right.
  destruct (_ || _); cbn [fst snd].
  - rewrite all_taken_submit. unfold all_taken. cbn [submitted t_ids submit].
    now rewrite app_assoc.
  - unfold all_taken. cbn [submitted t_ids]. now rewrite app_assoc.
Qed.

Lemma take_paragraph_covers pg (seen : list Para) batch tokens s p :
  covers seen s batch ->
  covers (seen ++ [p]) (take_paragraph pg (batch, tokens, s) p).2
         (take_paragraph pg (batch, tokens, s) p).1.1.
Proof.
  intros (Hids & Hnodup & Hsub & Hcov).
  destruct (take_paragraph_taken pg batch tokens s p)
    as [(Htaken & Hids' & Hknown)|(Htaken & Hids' & Hnew)];
    unfold covers; rewrite Htaken, Hids'.
  - split; [exact Hids|]. split; [exact Hnodup|]. split.
    + now apply sublist_inserts_r.
    + intros q Hq Hq'. apply elem_of_app in Hq as [Hq|Hq]; [now apply Hcov|].
      apply list_elem_of_singleton in Hq as ->. now apply Hknown.
  - split; [|split; [|split]].
    + rewrite fmap_app, list_to_set_app_L, <- Hids. cbn.
      rewrite (right_id_L ∅ (∪)). apply (comm_L (∪)).
    + rewrite fmap_app. apply NoDup_app. split; [exact Hnodup|]. split.
      * intros x Hx Hx'. apply list_elem_of_singleton in Hx' as ->.
        apply Hnew. rewrite Hids. now apply elem_of_list_to_set.
      * apply NoDup_singleton.
    + now apply sublist_app.
    + intros q Hq Hq'. apply elem_of_app in Hq as [Hq|Hq].
      * apply elem_of_union_r. now apply Hcov.
      * apply list_elem_of_singleton in Hq as ->. apply elem_of_union_l.
        now apply elem_of_singleton.
Qed.

Lemma take_paragraphs_cover pg (l seen : list Para) batch tokens s :
  covers seen s batch ->
  covers (seen ++ l) (foldl (take_paragraph pg) (batch, tokens, s) l).2
         (foldl (take_paragraph pg) (batch, tokens, s) l).1.1.
Proof.
  revert seen batch tokens s. induction l as [|p l IH]; intros seen batch tokens s Hc.
  - now rewrite app_nil_r.
  - cbn [foldl]. pose proof (take_paragraph_covers pg seen batch tokens s p Hc) as Hc'.
    destruct (take_paragraph pg (batch, tokens, s) p) as [[b' t'] s'].
    replace (seen ++ p :: l) with ((seen ++ [p]) ++ l) by (now rewrite <- app_assoc).
    now apply IH.
Qed.

Lemma translate_page_covers (seen : list Para) s pg :
  covers seen s [] -> covers (seen ++ pdf_paragraph_of pg) (translate_page s pg) [].
Proof.
  intros Hc. unfold translate_page.
  pose proof (take_paragraphs_cover pg (pdf_paragraph_of pg) seen [] 0 s Hc) as Hc'.
  destruct (foldl (take_paragraph pg) ([], 0, s) (pdf_paragraph_of pg)) as [[batch tokens] s'].
  cbn [fst snd] in Hc'. destruct batch as [|p batch]; [exact Hc'|].
  unfold covers in *. now rewrite all_taken_submit.
Qed.

Lemma translate_covers (pages : list PageRef) :
  covers (concat (pdf_paragraph_of <$> pages)) (translate pages) [].
Proof.
  unfold translate.
  assert (Hgen : forall seen s, covers seen s [] ->
            covers (seen ++ concat (pdf_paragraph_of <$> pages))
                   (foldl translate_page s pages) []).
  { induction pages as [|pg pages IH]; intros seen s Hc.
    - cbn. now rewrite app_nil_r.
    - cbn [foldl fmap list_fmap concat]. rewrite app_assoc. apply IH.
      now apply translate_page_covers. }
  apply (Hgen []). unfold covers, all_taken. cbn.
  repeat split; [constructor | constructor | intros p Hp; inversion Hp].
Qed.

(** X23.  Over all pages, [translate] submits every paragraph object that has
    a text exactly once: the paragraphs submitted, in order of submission,
    have pairwise distinct identities, they follow the order of the pages
    and of the paragraphs within them, and the identity of every paragraph
    with a text is among them. *)
Theorem every_text_is_submitted_once (pages : list PageRef) :
  let taken := concat (sub_paragraphs <$> submitted (translate pages)) in
  NoDup (para_id <$> taken) /\
  taken `sublist_of` concat (pdf_paragraph_of <$> pages) /\
  Forall (fun p => has_text p -> para_id p ∈ para_id <$> taken)
         (concat (pdf_paragraph_of <$> pages)).
Proof.
  intros taken. destruct (translate_covers pages) as (Hids & Hnodup & Hsub & Hcov).
  unfold all_taken in *. rewrite app_nil_r in *. fold taken in Hids, Hnodup, Hsub.
  split; [exact Hnodup|]. split; [exact Hsub|].
  apply Forall_forall. intros p Hp Htext.
  specialize (Hcov p Hp Htext). rewrite Hids in Hcov. now apply elem_of_list_to_set in Hcov.
Qed.

End BatchingFacts.

Section FontMapFacts.
Context {float : Type}.

Lemma xobj_font_maps_lookup (pf : gmap string PdfFont) (xs : list PdfXobject)
    (m : gmap string (gmap string PdfFont)) :
  let xf := foldl (fun m x => <[xobj_xobj_id x := font_by_id (xobj_pdf_font x) ∪ pf]> m) m xs in
  (forall k, k ∈ xobj_xobj_id <$> xs ->
     exists x, x ∈ xs /\ xobj_xobj_id x = k /\
               xf !! k = Some (font_by_id (xobj_pdf_font x) ∪ pf)) /\
  (forall k, k ∉ xobj_xobj_id <$> xs -> xf !! k = m !! k).
Proof.
  revert m. induction xs as [|x xs IH]; intros m xf.
  - split; [intros k Hk; inversion Hk | reflexivity].
  - destruct (IH (<[xobj_xobj_id x := font_by_id (xobj_pdf_font x) ∪ pf]> m)) as [Hin Hout].
    split.
    + intros k Hk. destruct (decide (k ∈ xobj_xobj_id <$> xs)) as [Hlater|Hlast].
      * destruct (Hin k Hlater) as (x' & Hx' & Hid & Hlook).
        exists x'. split; [now right | auto].
      * cbn [fmap list_fmap] in Hk. apply elem_of_cons in Hk as [->|Hk]; [|contradiction].
        exists x. split; [now left|]. split; [reflexivity|].
        unfold xf. cbn [foldl]. rewrite (Hout _ Hlast). apply lookup_insert_eq.
    + intros k Hk. cbn [fmap list_fmap] in Hk. apply not_elem_of_cons in Hk as [Hne Hk].
      unfold xf. cbn [foldl]. rewrite (Hout k Hk). now rewrite lookup_insert_ne by congruence.
Qed.

(** X21.  The font maps of the translator: for every XObject id of the page
    the map of that id is built from an XObject of that id; a font id the
    XObject declares resolves to the XObject's font, whatever the page
    declares under that id, and any other font id resolves as on the page.
    An id that is no XObject id of the page has no map. *)
Theorem xobject_fonts_shadow_page_fonts (pg : Page float) (k : string) :
  (k ∈ xobj_xobj_id <$> pdf_xobject pg ->
   exists x d,
     x ∈ pdf_xobject pg /\ xobj_xobj_id x = k /\
     (_build_font_maps pg).2 !! k = Some d /\
     (forall fid f, font_by_id (xobj_pdf_font x) !! fid = Some f -> d !! fid = Some f) /\
     (forall fid, font_by_id (xobj_pdf_font x) !! fid = None ->
                  d !! fid = (_build_font_maps pg).1 !! fid)) /\
  (k ∉ xobj_xobj_id <$> pdf_xobject pg -> (_build_font_maps pg).2 !! k = None).
Proof.
  unfold _build_font_maps. cbn [fst snd].
  destruct (xobj_font_maps_lookup (font_by_id (page_pdf_font pg)) (pdf_xobject pg) ∅)
    as [Hin Hout].
  split.
  - intros Hk. destruct (Hin k Hk) as (x & Hx & Hid & Hlook).
    exists x, (font_by_id (xobj_pdf_font x) ∪ font_by_id (page_pdf_font pg)).
    repeat split; try assumption.
    + intros fid f Hf. now apply lookup_union_Some_l.
    + intros fid Hf. now apply lookup_union_r.
  - intros Hk. now rewrite (Hout k Hk).
Qed.

End FontMapFacts.

(** ** The output of the child process, and the media boxes *)

Section ChildOutput.
Context `{Primitives float} `{Collaborators World Pdf Proc float}.

(** X24.  When the child process has left its output file: font subsetting
    returns the document opened from that file (or the exception of opening
    it); the final save copies that file to the output path and returns
    [True], or raises what the copy raises, and does not save the document
    itself. *)
Theorem child_output_is_used_when_present :
  (forall (pdf : Pdf) (config : TranslationConfig) (tag : string)
          (w w1 w2 w3 w4 : World) (p : Proc),
     pdf_save pdf (get_working_file_path config ("si_" +:+ tag +:+ ".pdf"))
       save_defaults w = (Ok tt, w1) ->
     process_start
       (SubsetFontsProcess (get_working_file_path config ("si_" +:+ tag +:+ ".pdf"))
                           (get_working_file_path config ("so_" +:+ tag +:+ ".pdf")))
       w1 = (Ok p, w2) ->
     process_join p 60 w2 = (Ok tt, w3) ->
     path_exists (get_working_file_path config ("so_" +:+ tag +:+ ".pdf")) w3
       = (Ok true, w4) ->
     subset_fonts_in_subprocess pdf config tag w
       = pymupdf_open (get_working_file_path config ("so_" +:+ tag +:+ ".pdf")) w4) /\
  (forall (pdf : Pdf) (output_path : string) (config : TranslationConfig)
          (g : Z) (d c df l : bool) (timeout : Z) (tag : string)
          (w w1 w2 w3 w4 : World) (p : Proc),
     pdf_save pdf (get_working_file_path config ("vi_" +:+ tag +:+ ".pdf"))
       save_defaults w = (Ok tt, w1) ->
     process_start
       (SavePdfCleanProcess (get_working_file_path config ("vi_" +:+ tag +:+ ".pdf"))
                            (get_working_file_path config ("vo_" +:+ tag +:+ ".pdf"))
                            g d c)
       w1 = (Ok p, w2) ->
     process_join p timeout w2 = (Ok tt, w3) ->
     path_exists (get_working_file_path config ("vo_" +:+ tag +:+ ".pdf")) w3
       = (Ok true, w4) ->
     let copy :=
       shutil_copy2 (get_working_file_path config ("vo_" +:+ tag +:+ ".pdf")) output_path w4 in
     (forall w5, copy = (Ok tt, w5) ->
        save_pdf_with_timeout pdf output_path config g d c df l timeout tag w = (Ok true, w5)) /\
     (forall e w5, copy = (Raise e, w5) ->
        save_pdf_with_timeout pdf output_path config g d c df l timeout tag w = (Raise e, w5))).
Proof.
  split.
  - intros pdf config tag w w1 w2 w3 w4 p Hsave Hstart Hjoin Hexists.
    unfold subset_fonts_in_subprocess.
    rewrite (bind_run _ _ _ _ _ Hsave), (bind_run _ _ _ _ _ Hstart).
    rewrite (bind_run _ _ _ _ _ Hjoin), (bind_run _ _ _ _ _ Hexists).
    reflexivity.
  - intros pdf output_path config g d c df l timeout tag w w1 w2 w3 w4 p
           Hsave Hstart Hjoin Hexists copy.
    assert (Hrun : save_pdf_with_timeout pdf output_path config g d c df l timeout tag w
                   = (shutil_copy2 (get_working_file_path config ("vo_" +:+ tag +:+ ".pdf"))
                        output_path;; mret true) w4).
    { unfold save_pdf_with_timeout.
      rewrite (bind_run _ _ _ _ _ Hsave), (bind_run _ _ _ _ _ Hstart).
      rewrite (bind_run _ _ _ _ _ Hjoin), (bind_run _ _ _ _ _ Hexists).
      reflexivity. }
    split.
    + intros w5 Hcopy. rewrite Hrun. now rewrite (bind_run _ _ _ _ _ Hcopy).
    + intros e w5 Hcopy. rewrite Hrun. unfold mbind, M_bind, bind.
      fold copy. now rewrite Hcopy.
Qed.

(** X25.  [write] sets the media boxes through a loop that never raises: a
    box that cannot be set is passed over, and the boxes listed after any
    part of the data are set from the state that part left, whatever failed
    in it. *)
Theorem mediabox_failures_are_passed_over :
  (forall (self : PDFCreater float) (config : TranslationConfig) (check : bool),
     write_pass self config check
     = (pdf ← pymupdf_open (original_pdf_path self);
        font_mapper_add_font pdf (docs self);;
        with_stage stage_name (Z.of_nat (length (page (docs self))))
          (for_each (page (docs self)) (fun pg =>
             update_page_content_stream self check pg pdf config false;;
             stage_advance));;
        pdf ← (if skip_clean config then mret pdf
               else subset_fonts_in_subprocess pdf config "mono");
        restore_mediaboxes pdf (mediabox_data self);;
        (if no_mono config then mret tt
         else save_pdf_with_timeout pdf (mono_output_path config) config 1 true
                (negb (skip_clean config)) true false 120 "mono";; mret tt);;
        mret {| mono_pdf_path := mono_output_path config;
                dual_pdf_path := None; no_watermark_path := None |})) /\
  (forall (pdf : Pdf) (data : list (Z * list (string * string))) (w : World),
     exists w', restore_mediaboxes pdf data w = (Ok tt, w')) /\
  (forall (pdf : Pdf) (first rest : list (Z * list (string * string))) (w : World),
     restore_mediaboxes pdf (first ++ rest) w
     = restore_mediaboxes pdf rest (restore_mediaboxes pdf first w).2).
Proof.
  split; [reflexivity|].
  assert (Hnever : forall (pdf : Pdf) (data : list (Z * list (string * string))) (w : World),
             exists w', restore_mediaboxes pdf data w = (Ok tt, w')).
  { intros pdf data. unfold restore_mediaboxes.
    assert (Hboxes : forall xref (boxes : list (string * string)) (w : World),
               exists w', for_each boxes (fun '(name, bx) =>
                            try_except (pdf_xref_set_key pdf xref name bx) (fun _ => mret tt)) w
                          = (Ok tt, w')).
    { intros xref boxes. induction boxes as [|[name bx] boxes IH]; intros w; [now exists w|].
      cbn [for_each]. unfold mbind, M_bind, bind, try_except.
      destruct (pdf_xref_set_key pdf xref name bx w) as [[[]|e] w1]; apply IH. }
    induction data as [|[xref boxes] data IH]; intros w; [now exists w|].
    cbn [for_each]. unfold mbind, M_bind, bind.
    destruct (Hboxes xref boxes w) as [w1 ->]. apply IH. }
  split; [exact Hnever|].
  intros pdf first rest w. destruct (Hnever pdf first w) as [w1 Hfirst].
  rewrite Hfirst. cbn [snd]. unfold restore_mediaboxes in *.
  now rewrite for_each_app, Hfirst.
Qed.

End ChildOutput.

(** X24 in the world whose children finish: subsetting returns the document
    of the child's file, and the final save copies the child's file. *)
Lemma child_output_sample :
  subset_fonts_in_subprocess "in.pdf" (sample_config "en") "mono" quick_world
    = (Ok "work/so_mono.pdf",
       toy_add_file "work/so_mono.pdf" (toy_add_file "work/si_mono.pdf" quick_world)) /\
  save_pdf_with_timeout "in.pdf" "out/x.pdf" (sample_config "en") 1 true true true false
    120 "mono" quick_world
    = (Ok true,
       toy_add_file "out/x.pdf"
         (toy_add_file "work/vo_mono.pdf" (toy_add_file "work/vi_mono.pdf" quick_world))).
Proof.
  pose proof (child_output_is_used_when_present (World := toy_world)) as [Hsubset Hsave].
  split.
  - apply (Hsubset "in.pdf" (sample_config "en") "mono" quick_world
             (toy_add_file "work/si_mono.pdf" quick_world)
             (toy_add_file "work/so_mono.pdf" (toy_add_file "work/si_mono.pdf" quick_world))
             (toy_add_file "work/so_mono.pdf" (toy_add_file "work/si_mono.pdf" quick_world))
             _ tt); reflexivity.
  - destruct (Hsave "in.pdf" "out/x.pdf" (sample_config "en") 1 true true true false 120 "mono"
                quick_world
                (toy_add_file "work/vi_mono.pdf" quick_world)
                (toy_add_file "work/vo_mono.pdf" (toy_add_file "work/vi_mono.pdf" quick_world))
                (toy_add_file "work/vo_mono.pdf" (toy_add_file "work/vi_mono.pdf" quick_world))
                (toy_add_file "work/vo_mono.pdf" (toy_add_file "work/vi_mono.pdf" quick_world))
                tt eq_refl eq_refl eq_refl eq_refl) as [Hok _].
    exact (Hok _ eq_refl).
Defined.

(** ** The further properties on examples *)

(** X6 on three numbers of different widths, the tokens one blank apart. *)
Lemma parse_mapping_sample :
  parse_mapping (concat_str (map (fun v => "<" +:+ format_04x v +:+ ">" +:+ " ")
                                 [0x41; 0x1F600; 0]))
  = [0x41; 0x1F600; 0].
Proof.
  apply (parse_mapping_reads_written_numbers [0x41; 0x1F600; 0] " "); [|reflexivity].
  repeat constructor; lia.
Defined.

(** X14 on the sample document: the CMap of [NotoSans] is rewritten for the
    one glyph that is drawn, the Type 1 font is passed over; and the document
    without a font to work on is left as it was. *)
Lemma reproduce_cmap_sample :
  (exists doc', reproduce_cmap sample_doc = (Ok tt, doc')) /\
  reproduce_cmap sample_doc
    = (Ok tt,
       {| toy_rows := toy_rows sample_doc;
          toy_keys := toy_keys sample_doc;
          toy_streams := <[ 12 := make_tounicode {[ 1 := 0x41; 2 := 0x42 ]} [1] ]>
                           (toy_streams sample_doc) |}) /\
  reproduce_cmap idle_doc = (Ok tt, idle_doc).
Proof.
  split; [apply (reproduce_cmap_never_raises sample_doc)|].
  split; [vm_compute; reflexivity|].
  apply (reproduce_cmap_never_raises idle_doc).
  intros pg f _ Hf. apply list_elem_of_In in Hf. destruct Hf as [<-|[]].
  left. discriminate.
Defined.

(** X21 on the page whose XObject [X1] declares [F1] with a length of its
    own: the translator's map for [X1] has the XObject's font. *)
Lemma xobject_font_shadows_sample :
  exists x d,
    x ∈ pdf_xobject layered_page /\ xobj_xobj_id x = "X1" /\
    (_build_font_maps layered_page).2 !! "X1" = Some d /\
    (forall fid f, font_by_id (xobj_pdf_font x) !! fid = Some f -> d !! fid = Some f) /\
    (forall fid, font_by_id (xobj_pdf_font x) !! fid = None ->
                 d !! fid = (_build_font_maps layered_page).1 !! fid).
Proof.
  apply (proj1 (xobject_fonts_shadow_page_fonts layered_page "X1")).
  apply list_elem_of_here.
Defined.

(** X22 and X23 on the sample pages: the first page gives one batch of two
    paragraphs and 300 tokens, the second page one batch of one paragraph. *)
Lemma batches_sample :
  submitted (translate sample_pages)
  = [ {| sub_paragraphs := [(1, Some "ab"); (2, Some "c")];
         sub_page := [ (1, Some "ab"); (2, Some "c"); (2, Some "c"); (3, None); (4, Some "") ];
         sub_tokens := 300; sub_mid := 1 |};
      {| sub_paragraphs := [(5, Some "d")]; sub_page := [ (5, Some "d") ];
         sub_tokens := 100; sub_mid := 2 |} ] /\
  sub_mid <$> submitted (translate sample_pages)
    = seqZ 1 (Z.of_nat (length (submitted (translate sample_pages)))).
Proof.
  split; [reflexivity|]. apply (batches_are_bounded sample_pages).
Defined.

Lemma submitted_once_sample :
  NoDup (para_id <$> concat (sub_paragraphs <$> submitted (translate sample_pages))) /\
  concat (sub_paragraphs <$> submitted (translate sample_pages))
    `sublist_of` concat (pdf_paragraph_of <$> sample_pages).
Proof.
  destruct (every_text_is_submitted_once sample_pages) as (Hnodup & Hsub & _).
  split; [exact Hnodup | exact Hsub].
Defined.

(** ** Running [reproduce_cmap] a second time *)

Section SecondRun.
Context `{UnicodeData} `{FontEngine Face} `{FontStore Doc PageRef}.

(** When the reads, the parser and the font engine all succeed, the body of
    the [try] is the one [update_stream]. *)
Lemma rebuild_font_cmap_run (f : FontRow) (doc : Doc) (mi : Z) (stream : string)
    (file : option string) (cmap : cmap_t) (used : list Z) :
  font_reads f doc = (Ok (mi, Some stream, file), doc) ->
  parse_tounicode_cmap stream = Ok cmap ->
  parse_truetype_data file = Ok used ->
  rebuild_font_cmap f doc = update_stream mi (make_tounicode cmap used) doc.
Proof.
  unfold font_reads, rebuild_font_cmap, mbind, M_bind, bind, reading, lift_outcome.
  intros Hreads Hcmap Hused.
  destruct (xref_get_key (row_xref f) "ToUnicode" doc) as [m|e]; [|discriminate].
  destruct (xref_get_key (row_xref f) "DescendantFonts" doc) as [fd|e]; [|discriminate].
  destruct (to_int m.2) as [mi'|e]; [|discriminate].
  destruct (to_int fd.2) as [d|e]; [|discriminate].
  destruct (xref_get_key d "FontDescriptor/FontFile2" doc) as [ff|e]; [|discriminate].
  destruct (xref_stream mi' doc) as [stream'|e]; [|discriminate].
  destruct (to_int ff.2) as [fi|e]; [|discriminate].
  destruct (xref_stream fi doc) as [file'|e]; [|discriminate].
  cbn in Hreads. injection Hreads as -> -> ->.
  cbn [parse_stream]. now rewrite Hcmap, Hused.
Qed.

(** X26.  Running the loop body of [reproduce_cmap] a second time on a font
    writes the same bytes into the same object.  When the first run read the
    stream of object [mi] and the font file, parsed them and updated the
    stream, every entry written has a non-negative glyph index and a code
    point below 0x10000 that [apply_normalization] stores unchanged, and the
    document after the update answers the same reads except that object [mi]
    now holds what was written, then the second run reaches [update_stream]
    for [mi] with exactly the content of the first run. *)
Theorem second_reproduction_writes_the_same_stream (f : FontRow) (doc doc1 : Doc)
    (mi : Z) (stream : string) (file : option string) (cmap : cmap_t) (used : list Z) :
  row_ext f = "ttf" -> row_basefont f ∈ FONT_NAMES ->
  font_reads f doc = (Ok (mi, Some stream, file), doc) ->
  parse_tounicode_cmap stream = Ok cmap ->
  parse_truetype_data file = Ok used ->
  (forall g c, (g, c) ∈ used_entries cmap used ->
     0 <= g /\ 0 <= c < 0x10000 /\
     (is_compatibility_code c = true -> normalize_nfd c = [c])) ->
  update_stream mi (make_tounicode cmap used) doc = (Ok tt, doc1) ->
  font_reads f doc1 = (Ok (mi, Some (make_tounicode cmap used), file), doc1) ->
  reproduce_font f doc = (Ok tt, doc1) /\
  reproduce_font f doc1
    = try_except (update_stream mi (make_tounicode cmap used)) (fun _ => mret tt) doc1.
Proof.
  intros Hext Hname Hreads Hcmap Hused Hplain Hup Hreads1.
  assert (Hparse1 : parse_tounicode_cmap (make_tounicode cmap used)
                    = Ok (with_entries ∅ (used_entries cmap used))).
  { apply parse_make_tounicode. apply Forall_forall. intros [g c] Hin.
    destruct (Hplain g c Hin) as (Hg & Hc & Hk). repeat split; try assumption; apply Hc. }
  assert (Hsame : make_tounicode (with_entries ∅ (used_entries cmap used)) used
                  = make_tounicode cmap used).
  { unfold make_tounicode, make_tounicode_lines. now rewrite used_entries_rebuilt. }
  unfold reproduce_font.
  rewrite (bool_decide_eq_true_2 _ Hext), (bool_decide_eq_true_2 _ Hname). cbn [andb].
  unfold try_except. split.
  - rewrite (rebuild_font_cmap_run f doc mi stream file cmap used) by assumption.
    now rewrite Hup.
  - rewrite (rebuild_font_cmap_run f doc1 mi (make_tounicode cmap used) file
               (with_entries ∅ (used_entries cmap used)) used) by assumption.
    now rewrite Hsame.
Qed.

End SecondRun.

(** X26 on the sample document: the second run on [NotoSans] writes into
    object 12 what the first run wrote. *)
Lemma second_reproduction_sample :
  reproduce_font {| row_xref := 5; row_ext := "ttf"; row_basefont := "NotoSans" |} sample_doc
    = (Ok tt, reproduced_doc) /\
  reproduce_font {| row_xref := 5; row_ext := "ttf"; row_basefont := "NotoSans" |}
      reproduced_doc
    = try_except (update_stream 12 (make_tounicode {[ 1 := 0x41; 2 := 0x42 ]} [1]))
        (fun _ => mret tt) reproduced_doc.
Proof.
  apply (second_reproduction_writes_the_same_stream
           {| row_xref := 5; row_ext := "ttf"; row_basefont := "NotoSans" |}
           sample_doc reproduced_doc 12
           (make_tounicode {[ 1 := 0x41; 2 := 0x42 ]} [1; 2]) (Some "010")
           {[ 1 := 0x41; 2 := 0x42 ]} [1]).
  - reflexivity.
  - apply elem_of_singleton. reflexivity.
  - vm_compute; reflexivity.
  - vm_compute; reflexivity.
  - vm_compute; reflexivity.
  - intros g c Hin.
    assert (Hentries : used_entries {[ 1 := 0x41; 2 := 0x42 ]} [1] = [(1, 0x41)])
      by reflexivity.
    rewrite Hentries in Hin. apply list_elem_of_singleton in Hin. injection Hin as -> ->.
    split; [lia|]. split; [lia | discriminate].
  - reflexivity.
  - vm_compute; reflexivity.
Defined.

(** * The text of the rebuilt CMap *)

(** ** Lines of a joined text *)

Lemma join_cons2 (sep x y : string) (l : list string) :
  join sep (x :: y :: l) = x +:+ sep +:+ join sep (y :: l).
Proof. reflexivity. Qed.

Lemma join_middle (sep : string) (l1 l2 : list string) (x : string) :
  l1 <> [] -> l2 <> [] ->
  join sep (l1 ++ x :: l2) = join sep l1 +:+ sep +:+ x +:+ sep +:+ join sep l2.
Proof.
  intros H1 H2. induction l1 as [|a l1 IH]; [contradiction|].
  destruct l1 as [|b l1].
  - cbn [app]. rewrite join_cons2. destruct l2 as [|y l2]; [contradiction|].
    now rewrite join_cons2.
  - change ((a :: b :: l1) ++ x :: l2) with (a :: b :: (l1 ++ x :: l2)).
    rewrite !join_cons2.
    change (b :: l1 ++ x :: l2) with ((b :: l1) ++ x :: l2).
    rewrite IH by discriminate. now rewrite !string_app_assoc.
Qed.

Lemma text_lines_nonempty (s : string) : text_lines s <> [].
Proof.
  induction s as [|c s IH]; [discriminate|].
  cbn [text_lines]. destruct (is_line_feed c); [discriminate|].
  destruct (text_lines s); discriminate.
Qed.

(** Splitting sees the line feed between two texts. *)
Lemma text_lines_feed (s t : string) :
  text_lines (s +:+ nl +:+ t) = text_lines s ++ text_lines t.
Proof.
  induction s as [|c s IH].
  - reflexivity.
  - rewrite string_app_cons. cbn [text_lines]. rewrite IH.
    destruct (is_line_feed c); [reflexivity|].
    pose proof (text_lines_nonempty s) as Hne.
    destruct (text_lines s) as [|l ls]; [contradiction | reflexivity].
Qed.

Lemma text_lines_plain (s : string) :
  string_forall (fun c => negb (is_line_feed c)) s = true -> text_lines s = [s].
Proof.
  induction s as [|c s IH]; [reflexivity|].
  cbn [string_forall text_lines]. intros [Hc Hs]%andb_true_iff.
  apply negb_true_iff in Hc. rewrite Hc, (IH Hs). reflexivity.
Qed.

Lemma text_lines_join (l : list string) :
  l <> [] -> text_lines (join nl l) = concat (map text_lines l).
Proof.
  induction l as [|x l IH]; [contradiction|]. intros _.
  destruct l as [|y l].
  - cbn. now rewrite app_nil_r.
  - rewrite join_cons2, text_lines_feed, IH by discriminate. reflexivity.
Qed.

Lemma text_lines_plain_lines (l : list string) :
  Forall (fun s => string_forall (fun c => negb (is_line_feed c)) s = true) l ->
  concat (map text_lines l) = l.
Proof.
  induction 1 as [|s l Hs Hl IH]; [reflexivity|].
  cbn [map concat]. now rewrite (text_lines_plain s Hs), IH.
Qed.

(** ** The lines [make_tounicode] writes *)

Lemma hex_is_no_line_feed (c : ascii) : is_hex_byte c = true -> negb (is_line_feed c) = true.
Proof.
  unfold is_hex_byte, is_line_feed, in_range.
  destruct c as [[] [] [] [] [] [] [] []]; simpl; intros; congruence.
Qed.

Lemma decimal_is_no_line_feed (c : ascii) :
  is_decimal c = true -> negb (is_line_feed c) = true.
Proof.
  unfold is_decimal, is_line_feed, in_range.
  destruct c as [[] [] [] [] [] [] [] []]; simpl; intros; congruence.
Qed.

Lemma format_04x_plain (v : Z) :
  0 <= v -> string_forall (fun c => negb (is_line_feed c)) (format_04x v) = true.
Proof.
  intros Hv. destruct (format_04x_roundtrip v Hv) as (Hhex & _ & _).
  revert Hhex. apply string_forall_impl, hex_is_no_line_feed.
Qed.

Lemma format_04x_four (v : Z) : 0 <= v < 0x10000 -> String.length (format_04x v) = 4%nat.
Proof.
  intros Hv. unfold format_04x.
  rewrite format_zero_padded_fits by (try lia; change (16 ^ Z.of_nat 4) with 65536; lia).
  apply digits_fixed_length.
Qed.

(** The halves written for a Unicode code point above [0xFFFF]. *)
Lemma surrogate_halves (c : Z) :
  0x10000 <= c <= 0x10FFFF ->
  0xD800 <= high_surrogate c <= 0xDBFF /\
  0xDC00 <= low_surrogate c <= 0xDFFF /\
  0x10000 + (high_surrogate c - 0xD800) * 0x400 + (low_surrogate c - 0xDC00) = c.
Proof.
  intros Hc. unfold high_surrogate, low_surrogate.
  rewrite shiftr_10_div, land_3ff_mod.
  pose proof (Z.mod_pos_bound (c - 0x10000) 1024 ltac:(lia)) as Hm.
  pose proof (Z.div_mod (c - 0x10000) 1024 ltac:(lia)) as Hdm.
  assert (0 <= (c - 0x10000) / 1024 <= 1023) as Hd.
  { split; [apply Z.div_pos; lia|].
    apply Z.lt_succ_r. apply Z.div_lt_upper_bound; lia. }
  lia.
Qed.

Lemma bfchar_line_plain (e : Z * Z) :
  code_point_entry e ->
  string_forall (fun c => negb (is_line_feed c)) (bfchar_line e) = true.
Proof.
  destruct e as [g c]. intros [Hg Hc]. cbn [fst snd] in *. unfold bfchar_line.
  destruct (Z.ltb_spec c 0x10000).
  - rewrite !string_forall_app, !format_04x_plain by lia. reflexivity.
  - destruct (surrogate_halves c ltac:(lia)) as (Hhi & Hlo & _).
    rewrite !string_forall_app, !format_04x_plain by lia. reflexivity.
Qed.

Lemma count_line_plain (n : nat) :
  string_forall (fun c => negb (is_line_feed c))
    (format_d (Z.of_nat n) +:+ " beginbfchar") = true.
Proof.
  rewrite string_forall_app. destruct (count_is_decimal n) as [Hdec _].
  rewrite (string_forall_impl _ _ _ decimal_is_no_line_feed Hdec). reflexivity.
Qed.

Lemma bfchar_block_plain (b : list (Z * Z)) :
  Forall code_point_entry b ->
  Forall (fun s => string_forall (fun c => negb (is_line_feed c)) s = true) (bfchar_block b).
Proof.
  intros Hb. unfold bfchar_block. constructor; [apply count_line_plain|].
  apply Forall_app. split.
  - apply Forall_forall. intros s Hs. apply list_elem_of_fmap in Hs as (e & -> & He).
    apply bfchar_line_plain. rewrite Forall_forall in Hb. now apply Hb.
  - now repeat constructor.
Qed.

(** The lines of the text are the lines of the header, the lines of the
    blocks and the lines of the footer. *)
Lemma make_tounicode_text_lines (cmap : cmap_t) (used : list Z) :
  Forall code_point_entry (used_entries cmap used) ->
  text_lines (make_tounicode cmap used)
  = text_lines cmap_header
    ++ concat (map bfchar_block (batched (used_entries cmap used) 100))
    ++ cmap_footer.
Proof.
  intros Hvalid. unfold make_tounicode, make_tounicode_lines.
  rewrite text_lines_join by discriminate.
  cbn [map concat]. f_equal. rewrite map_app, concat_app. f_equal.
  apply text_lines_plain_lines. apply Forall_concat, Forall_forall.
  intros ls Hls. apply list_elem_of_fmap in Hls as (b & -> & Hb).
  apply bfchar_block_plain. apply Forall_forall. intros e He.
  rewrite Forall_forall in Hvalid. apply Hvalid.
  rewrite <- (batched_concat (used_entries cmap used) 100) by lia.
  apply list_elem_of_In, in_concat. exists b. split; now apply list_elem_of_In.
Qed.

(** ** Reading an entry line *)

Lemma span_hex_stops (h : string) (c : ascii) (r : string) :
  string_forall is_hex_byte h = true -> is_hex_byte c = false ->
  span_hex (h +:+ String c r) = (h, String c r).
Proof.
  intros Hh Hc. induction h as [|a h IH].
  - rewrite string_app_nil_l. cbn [span_hex]. now rewrite Hc.
  - rewrite string_app_cons. cbn [string_forall] in Hh.
    apply andb_true_iff in Hh as [Ha Hh]. cbn [span_hex]. rewrite Ha, (IH Hh). reflexivity.
Qed.

Lemma substring_whole (s : string) : substring 0 (String.length s) s = s.
Proof. rewrite <- (string_app_nil_r s) at 2. apply substring_prefix. Qed.

Lemma substring_skip (a s : string) (n : nat) :
  substring (String.length a) n (a +:+ s) = substring 0 n s.
Proof.
  induction a as [|c a IH]; [reflexivity|].
  rewrite string_app_cons. cbn [String.length substring]. exact IH.
Qed.

Lemma utf16be_code_unit (c : Z) : 0 <= c < 0x10000 -> utf16be_code (format_04x c) = Some c.
Proof.
  intros Hc. unfold utf16be_code.
  rewrite bool_decide_eq_true_2 by (now apply format_04x_four).
  f_equal. apply format_04x_roundtrip. lia.
Qed.

Lemma utf16be_code_pair (c : Z) :
  0x10000 <= c <= 0x10FFFF ->
  utf16be_code (format_04x (high_surrogate c) +:+ format_04x (low_surrogate c)) = Some c.
Proof.
  intros Hc. destruct (surrogate_halves c Hc) as (Hhi & Hlo & Hback).
  pose proof (format_04x_four (high_surrogate c) ltac:(lia)) as Hlh.
  pose proof (format_04x_four (low_surrogate c) ltac:(lia)) as Hll.
  unfold utf16be_code.
  rewrite bool_decide_eq_false_2 by (rewrite string_length_app, Hlh, Hll; lia).
  rewrite bool_decide_eq_true_2 by (rewrite string_length_app, Hlh, Hll; lia).
  cbv zeta.
  pose proof (substring_prefix (format_04x (high_surrogate c))
                (format_04x (low_surrogate c))) as Hfirst.
  pose proof (substring_skip (format_04x (high_surrogate c))
                (format_04x (low_surrogate c)) 4) as Hsecond.
  pose proof (substring_whole (format_04x (low_surrogate c))) as Hwhole.
  rewrite Hlh in Hfirst, Hsecond. rewrite Hll in Hwhole.
  rewrite Hfirst, Hsecond, Hwhole.
  rewrite (proj2 (proj2 (format_04x_roundtrip (high_surrogate c) ltac:(lia)))).
  rewrite (proj2 (proj2 (format_04x_roundtrip (low_surrogate c) ltac:(lia)))).
  rewrite bool_decide_eq_true_2 by lia. now rewrite Hback.
Qed.

Lemma read_entry_shape (g : Z) (code : string) (c : Z) :
  0 <= g -> string_forall is_hex_byte code = true -> utf16be_code code = Some c ->
  read_entry ("<" +:+ format_04x g +:+ "><" +:+ code +:+ ">") = Some (g, c).
Proof.
  intros Hg Hhex Hcode. destruct (format_04x_roundtrip g Hg) as (Hghex & Hgne & Hgval).
  unfold read_entry. rewrite strip_literal_app.
  change ("><" +:+ code +:+ ">") with (String ">" ("<" +:+ code +:+ ">")).
  rewrite (span_hex_stops (format_04x g) ">" _ Hghex eq_refl). cbn [fst snd].
  change (String ">" ("<" +:+ code +:+ ">")) with ("><" +:+ code +:+ ">").
  rewrite strip_literal_app.
  change (code +:+ ">") with (code +:+ String ">" "").
  rewrite (span_hex_stops code ">" "" Hhex eq_refl). cbn [fst snd].
  rewrite bool_decide_eq_true_2 by reflexivity.
  rewrite (bool_decide_eq_false_2 _ Hgne). cbn [andb negb].
  now rewrite Hcode, Hgval.
Qed.

(** The reader finds in a line the entry the writer put there. *)
Lemma read_entry_bfchar_line (e : Z * Z) :
  code_point_entry e -> read_entry (bfchar_line e) = Some e.
Proof.
  destruct e as [g c]. intros [Hg Hc]. cbn [fst snd] in *. unfold bfchar_line.
  destruct (Z.ltb_spec c 0x10000).
  - apply read_entry_shape; [assumption| |apply utf16be_code_unit; lia].
    apply format_04x_roundtrip. lia.
  - destruct (surrogate_halves c ltac:(lia)) as (Hhi & Hlo & _).
    rewrite <- (string_app_assoc (format_04x (high_surrogate c))).
    apply read_entry_shape; [assumption| |apply utf16be_code_pair; lia].
    rewrite string_forall_app.
    rewrite (proj1 (format_04x_roundtrip (high_surrogate c) ltac:(lia))).
    now rewrite (proj1 (format_04x_roundtrip (low_surrogate c) ltac:(lia))).
Qed.

(** ** Reading the blocks *)

Lemma ends_with_suffix (suffix p : string) : ends_with suffix (p +:+ suffix) = true.
Proof.
  induction p as [|c p IH].
  - rewrite string_app_nil_l.
    destruct suffix; cbn [ends_with]; now rewrite bool_decide_eq_true_2.
  - rewrite string_app_cons. cbn [ends_with]. rewrite IH. apply orb_true_r.
Qed.

Lemma read_blocks_skip (pre rest : list string) :
  Forall (fun l => ends_with " beginbfchar" l = false) pre ->
  read_blocks None (pre ++ rest) = read_blocks None rest.
Proof.
  induction 1 as [|l pre Hl Hpre IH]; [reflexivity|].
  cbn [app read_blocks]. now rewrite Hl.
Qed.

Lemma bfchar_line_is_no_end (e : Z * Z) : bfchar_line e <> "endbfchar".
Proof.
  destruct e as [g c]. unfold bfchar_line.
  destruct (c <? 0x10000); rewrite string_app_cons; discriminate.
Qed.

Lemma read_blocks_entries (acc : list (option (Z * Z))) (b : list (Z * Z))
    (rest : list string) :
  Forall code_point_entry b ->
  read_blocks (Some acc) (map bfchar_line b ++ "endbfchar" :: rest)
  = (acc ++ map Some b) :: read_blocks None rest.
Proof.
  intros Hb. revert acc. induction Hb as [|e b He Hb IH]; intros acc.
  - cbn [map app read_blocks]. rewrite bool_decide_eq_true_2 by reflexivity.
    now rewrite app_nil_r.
  - cbn [map app read_blocks].
    rewrite (bool_decide_eq_false_2 _ (bfchar_line_is_no_end e)).
    rewrite (read_entry_bfchar_line e He), IH. now rewrite <- app_assoc.
Qed.

Lemma read_blocks_block (b : list (Z * Z)) (rest : list string) :
  Forall code_point_entry b ->
  read_blocks None (bfchar_block b ++ rest) = map Some b :: read_blocks None rest.
Proof.
  intros Hb. unfold bfchar_block. cbn [app read_blocks].
  rewrite ends_with_suffix, <- app_assoc. cbn [app].
  now rewrite read_blocks_entries.
Qed.

Lemma read_blocks_blocks (bs : list (list (Z * Z))) (rest : list string) :
  Forall (Forall code_point_entry) bs ->
  read_blocks None (concat (map bfchar_block bs) ++ rest)
  = map (map Some) bs ++ read_blocks None rest.
Proof.
  induction 1 as [|b bs Hb Hbs IH]; [reflexivity|].
  cbn [map concat]. rewrite <- app_assoc, read_blocks_block by assumption.
  now rewrite IH.
Qed.

(** Read line by line, the text holds the blocks the writer cut, entry for
    entry. *)
Lemma cmap_text_blocks_written (cmap : cmap_t) (used : list Z) :
  Forall code_point_entry (used_entries cmap used) ->
  cmap_text_blocks (make_tounicode cmap used)
  = map (map Some) (batched (used_entries cmap used) 100).
Proof.
  intros Hvalid. unfold cmap_text_blocks.
  rewrite make_tounicode_text_lines by assumption.
  rewrite read_blocks_skip by (vm_compute; repeat constructor).
  rewrite read_blocks_blocks.
  - rewrite <- (app_nil_r cmap_footer).
    rewrite (read_blocks_skip cmap_footer []) by (vm_compute; repeat constructor).
    apply app_nil_r.
  - apply Forall_forall. intros b Hb. apply Forall_forall. intros e He.
    rewrite Forall_forall in Hvalid. apply Hvalid.
    rewrite <- (batched_concat (used_entries cmap used) 100) by lia.
    apply list_elem_of_In, in_concat. exists b. split; now apply list_elem_of_In.
Qed.

(** An entry has its line in the text, between two line feeds. *)
Lemma bfchar_line_in_text (cmap : cmap_t) (used : list Z) (e : Z * Z) :
  e ∈ used_entries cmap used ->
  exists pre post, make_tounicode cmap used = pre +:+ nl +:+ bfchar_line e +:+ nl +:+ post.
Proof.
  intros Hin.
  assert (Hline : bfchar_line e ∈ concat (map bfchar_block (batched (used_entries cmap used) 100))).
  { rewrite <- (batched_concat (used_entries cmap used) 100) in Hin by lia.
    apply list_elem_of_In, in_concat in Hin as (b & Hb & He).
    apply list_elem_of_In, in_concat. exists (bfchar_block b). split.
    - now apply in_map.
    - unfold bfchar_block. right. apply in_or_app; left. now apply in_map. }
  apply list_elem_of_split in Hline as (l1 & l2 & Hsplit).
  exists (join nl (cmap_header :: l1)), (join nl (l2 ++ cmap_footer)).
  unfold make_tounicode, make_tounicode_lines. rewrite Hsplit, <- app_assoc.
  change (cmap_header :: l1 ++ (bfchar_line e :: l2) ++ cmap_footer)
    with ((cmap_header :: l1) ++ bfchar_line e :: (l2 ++ cmap_footer)).
  apply join_middle; [discriminate|]. destruct l2; discriminate.
Qed.

(** C2.  Every entry of the rebuilt CMap whose code point is at least
    [0x10000] has its line in the text [make_tounicode] returns: between two
    line feeds, [<glyph><high low>] with
    [high = 0xD800 + ((c - 0x10000) >> 10)] and
    [low = 0xDC00 + ((c - 0x10000) & 0x3FF)], the glyph index and each half
    printed by [04x].  For a Unicode code point (at most [0x10FFFF]) the
    halves lie in the high and the low surrogate range, decode back to the
    code point and take exactly four hexadecimal digits each. *)
Theorem astral_entry_is_surrogate_pair (cmap : cmap_t) (used : list Z) (g c : Z) :
  (g, c) ∈ used_entries cmap used ->
  0x10000 <= c ->
  (exists pre post,
     make_tounicode cmap used
     = pre +:+ nl
           +:+ "<" +:+ format_04x g +:+ "><"
           +:+ format_04x (0xD800 + Z.shiftr (c - 0x10000) 10)
           +:+ format_04x (0xDC00 + Z.land (c - 0x10000) 0x3FF) +:+ ">"
           +:+ nl +:+ post) /\
  bfchar_line (g, c) ∈ make_tounicode_lines cmap used /\
  bfchar_line (g, c) =
    "<" +:+ format_04x g +:+ "><" +:+ format_04x (high_surrogate c)
        +:+ format_04x (low_surrogate c) +:+ ">" /\
  high_surrogate c = 0xD800 + (c - 0x10000) / 1024 /\
  low_surrogate c = 0xDC00 + (c - 0x10000) mod 1024 /\
  (c <= 0x10FFFF ->
     0xD800 <= high_surrogate c <= 0xDBFF /\
     0xDC00 <= low_surrogate c <= 0xDFFF /\
     0x10000 + (high_surrogate c - 0xD800) * 0x400 + (low_surrogate c - 0xDC00) = c /\
     String.length (format_04x (high_surrogate c)) = 4%nat /\
     String.length (format_04x (low_surrogate c)) = 4%nat).
Proof.
  intros Hin Hc.
  assert (Hline : bfchar_line (g, c) =
            "<" +:+ format_04x g +:+ "><" +:+ format_04x (high_surrogate c)
                +:+ format_04x (low_surrogate c) +:+ ">").
  { unfold bfchar_line. destruct (Z.ltb_spec c 0x10000); [lia | reflexivity]. }
  split.
  { destruct (bfchar_line_in_text cmap used (g, c) Hin) as (pre & post & Htext).
    exists pre, post. rewrite Htext, Hline. unfold high_surrogate, low_surrogate.
    now rewrite !string_app_assoc. }
  split; [now apply bfchar_line_in_lines|].
  split; [exact Hline|].
  split; [unfold high_surrogate; now rewrite shiftr_10_div|].
  split; [unfold low_surrogate; now rewrite land_3ff_mod|].
  intros Hmax. destruct (surrogate_halves c ltac:(lia)) as (Hhi & Hlo & Hback).
  split; [exact Hhi|]. split; [exact Hlo|]. split; [exact Hback|].
  split; apply format_04x_four; lia.
Qed.

(** The example of the claim: the text written for glyph 1 at U+1F600 holds
    the line [<0001><d83dde00>]. *)
Lemma astral_entry_1F600 :
  (exists pre post,
     make_tounicode {[ 1 := 0x1F600 ]} [1]
     = pre +:+ nl +:+ "<0001><d83dde00>" +:+ nl +:+ post) /\
  make_tounicode {[ 1 := 0x1F600 ]} [1]
  = cmap_header +:+ nl +:+ "1 beginbfchar" +:+ nl +:+ "<0001><d83dde00>" +:+ nl
                +:+ "endbfchar" +:+ nl +:+ "endcmap" +:+ nl
                +:+ "CMapName currentdict /CMap defineresource pop" +:+ nl
                +:+ "end" +:+ nl +:+ "end" /\
  high_surrogate 0x1F600 = 0xD83D /\
  low_surrogate 0x1F600 = 0xDE00.
Proof.
  assert (Hin : (1, 0x1F600) ∈ used_entries ({[ 1 := 0x1F600 ]} : cmap_t) [1]).
  { apply used_entries_spec. split; [apply list_elem_of_here | apply lookup_singleton_eq]. }
  destruct (astral_entry_is_surrogate_pair {[ 1 := 0x1F600 ]} [1] 1 0x1F600 Hin ltac:(lia))
    as (Htext & _).
  split; [exact Htext|]. split; [reflexivity|]. split; reflexivity.
Defined.

(** C4.  The entries of the rebuilt CMap are exactly the pairs [(g, cmap[g])]
    for the glyphs [g] that are both used and in the original map: every such
    glyph gets an entry, no other glyph does, and the code point is the
    original one.  They are cut into blocks of one to a hundred entries, and
    the output is the header, the blocks in order, each announced by its
    count, and the footer.  Read back line by line, the text holds just these
    blocks: for glyph indices that are not negative and Unicode code points,
    the [bfchar] blocks of the text are the blocks cut, every line of a block
    being the entry [<glyph><code>] of its glyph and its original code
    point; so a glyph has an entry in the text exactly if it is used and in
    the original map, and no block of the text has more than a hundred
    entries. *)
Theorem rebuilt_cmap_entries_exact (cmap : cmap_t) (used : list Z) :
  (forall g c, (g, c) ∈ used_entries cmap used <-> g ∈ used /\ cmap !! g = Some c) /\
  (forall g, g ∈ (used_entries cmap used).*1 <-> g ∈ used /\ g ∈ dom cmap) /\
  concat (batched (used_entries cmap used) 100) = used_entries cmap used /\
  Forall (fun b => (1 <= length b <= 100)%nat) (batched (used_entries cmap used) 100) /\
  make_tounicode cmap used =
    join nl (cmap_header
             :: concat (map (fun b => (format_d (Z.of_nat (length b)) +:+ " beginbfchar")
                                        :: map bfchar_line b ++ ["endbfchar"])
                            (batched (used_entries cmap used) 100))
             ++ cmap_footer) /\
  ((forall g c, g ∈ used -> cmap !! g = Some c -> 0 <= g /\ 0 <= c <= 0x10FFFF) ->
   cmap_text_blocks (make_tounicode cmap used)
     = map (map Some) (batched (used_entries cmap used) 100) /\
   (forall g c, Some (g, c) ∈ concat (cmap_text_blocks (make_tounicode cmap used))
                <-> g ∈ used /\ cmap !! g = Some c) /\
   (None ∉ concat (cmap_text_blocks (make_tounicode cmap used))) /\
   Forall (fun b => (1 <= length b <= 100)%nat)
          (cmap_text_blocks (make_tounicode cmap used))).
Proof.
  assert (Hsizes : Forall (fun b : list (Z * Z) => (1 <= length b <= 100)%nat)
                     (batched (used_entries cmap used) 100)).
  { eapply Forall_impl; [apply batched_sizes|]. simpl. intros; lia. }
  split; [intros g c; apply used_entries_spec|].
  split.
  { intros g. rewrite list_elem_of_fmap, elem_of_dom. split.
    - intros ([g' c] & -> & Hin). apply used_entries_spec in Hin as [? Hc].
      simpl. split; [assumption | now exists c].
    - intros [Hg [c Hc]]. exists (g, c). split; [reflexivity|].
      now apply used_entries_spec. }
  split; [apply batched_concat; lia|].
  split; [exact Hsizes|].
  split; [reflexivity|].
  intros Hvalid.
  assert (Hentries : Forall code_point_entry (used_entries cmap used)).
  { apply Forall_forall. intros [g c] Hin. apply used_entries_spec in Hin as [Hg Hc].
    exact (Hvalid g c Hg Hc). }
  assert (Hflat : concat (cmap_text_blocks (make_tounicode cmap used))
                  = Some <$> used_entries cmap used).
  { rewrite (cmap_text_blocks_written cmap used Hentries).
    rewrite <- (batched_concat (used_entries cmap used) 100) at 2 by lia.
    generalize (batched (used_entries cmap used) 100). intros bs.
    induction bs as [|b bs IH]; [reflexivity|].
    cbn [map concat]. rewrite IH. now rewrite fmap_app. }
  split; [now apply cmap_text_blocks_written|].
  split.
  { intros g c. rewrite Hflat, list_elem_of_fmap. rewrite <- used_entries_spec. split.
    - now intros (e & [= ->] & He).
    - intros He. now exists (g, c). }
  split.
  { rewrite Hflat. intros (e & Heq & _)%list_elem_of_fmap. discriminate. }
  rewrite (cmap_text_blocks_written cmap used Hentries).
  apply Forall_fmap. eapply Forall_impl; [exact Hsizes|].
  intros b Hb. cbn. now rewrite length_map.
Qed.

(** C4 on a map of three glyphs of which two are used, with an unused glyph
    and a used glyph the map does not have: the text holds one block with
    the two entries, the astral one included. *)
Lemma rebuilt_cmap_sample :
  cmap_text_blocks (make_tounicode {[ 1 := 0x41; 2 := 0x1F600; 3 := 0x42 ]} [1; 2; 4])
  = [[Some (1, 0x41); Some (2, 0x1F600)]] /\
  make_tounicode {[ 1 := 0x41; 2 := 0x1F600; 3 := 0x42 ]} [1; 2; 4]
  = cmap_header +:+ nl +:+ "2 beginbfchar" +:+ nl +:+ "<0001><0041>" +:+ nl
                +:+ "<0002><d83dde00>" +:+ nl
                +:+ "endbfchar" +:+ nl +:+ "endcmap" +:+ nl
                +:+ "CMapName currentdict /CMap defineresource pop" +:+ nl
                +:+ "end" +:+ nl +:+ "end".
Proof.
  destruct (rebuilt_cmap_entries_exact {[ 1 := 0x41; 2 := 0x1F600; 3 := 0x42 ]} [1; 2; 4])
    as (_ & _ & _ & _ & _ & Htext).
  destruct Htext as (Hblocks & _).
  { intros g c Hg Hc.
    assert (Hin : (g, c) ∈ used_entries ({[ 1 := 0x41; 2 := 0x1F600; 3 := 0x42 ]} : cmap_t)
                            [1; 2; 4]) by (now apply used_entries_spec).
    assert (Hentries : used_entries ({[ 1 := 0x41; 2 := 0x1F600; 3 := 0x42 ]} : cmap_t)
                         [1; 2; 4] = [(1, 0x41); (2, 0x1F600)]) by reflexivity.
    rewrite Hentries in Hin.
    apply elem_of_cons in Hin as [[= -> ->]|Hin]; [lia|].
    apply list_elem_of_singleton in Hin as [= -> ->]. lia. }
  split; [exact Hblocks | reflexivity].
Defined.

(** ** The glyph code, digit by digit *)

Lemma hex_value_upper_digit (d : Z) :
  0 <= d < 16 -> hex_value (upper_char (digit_char d)) = d.
Proof.
  intros Hd.
  assert (Hcases : d = 0 \/ d = 1 \/ d = 2 \/ d = 3 \/ d = 4 \/ d = 5 \/ d = 6 \/ d = 7 \/
                   d = 8 \/ d = 9 \/ d = 10 \/ d = 11 \/ d = 12 \/ d = 13 \/ d = 14 \/ d = 15)
    by lia.
  repeat (destruct Hcases as [->|Hcases]; [reflexivity|]). now subst.
Qed.

(** [int(.., 16)] reads the upper-case digits back. *)
Lemma int16_upper_digits_fixed (n : nat) (v : Z) :
  0 <= v -> int16 (upper (digits_fixed 16 n v)) = v mod 16 ^ Z.of_nat n.
Proof.
  revert v. induction n as [|n IH]; intros v Hv.
  - simpl. now rewrite Z.mod_1_r.
  - cbn [digits_fixed]. rewrite upper_app. cbn [upper].
    rewrite int16_snoc, IH by (apply Z.div_pos; lia).
    rewrite hex_value_upper_digit by (apply Z.mod_pos_bound; lia).
    rewrite Nat2Z.inj_succ, Z.pow_succ_r by lia.
    rewrite (Z.rem_mul_r v 16 (16 ^ Z.of_nat n)) by lia. lia.
Qed.

Section GlyphCodeClaim.
Context `{Primitives float}.

(** C8.  When a Character unit writes its text-showing operator and the
    glyph id fits the font's encoding length ([0 <= id < 256 ^ n] with
    [n >= 1]), what it appends is its block opener, the glyph code and
    [ Tj ET Q]; the glyph code is [<], the [2 * n] low-order hexadecimal
    digits of the glyph id in upper case, [>]: exactly [2 * n] characters of
    [0-9A-F] whose value, read in base 16, is the glyph id. *)
Theorem glyph_code_width_when_id_fits
    (xid : option string) (char : PdfCharacter float) (ctx : RenderContext) (buf : string)
    (cid n : Z) :
  pdf_character_id char = Some cid ->
  char_unicode char <> Some nl ->
  (check_font_exists ctx = true ->
     font_id (pdf_style char) ∈ container_available_fonts ctx xid) ->
  lookup_encoding_length ctx xid (font_id (pdf_style char)) = Ok (PyInt n) ->
  0 < n ->
  0 <= cid < 256 ^ n ->
  character_render xid char ctx buf
    = (Ok tt, buf +:+ open_text_block char
                  +:+ "<" +:+ upper (digits_fixed 16 (Z.to_nat (2 * n)) cid) +:+ ">"
                  +:+ " Tj ET Q " +:+ nl) /\
  String.length (upper (digits_fixed 16 (Z.to_nat (2 * n)) cid)) = Z.to_nat (2 * n) /\
  string_forall is_upper_hex (upper (digits_fixed 16 (Z.to_nat (2 * n)) cid)) = true /\
  int16 (upper (digits_fixed 16 (Z.to_nat (2 * n)) cid)) = cid.
Proof.
  intros Hcid Hnl Hfont Hlen Hn Hfit.
  assert (Hwidth : Z.to_nat (n * 2) = Z.to_nat (2 * n)) by (f_equal; lia).
  assert (Hpow : 256 ^ n = 16 ^ Z.of_nat (Z.to_nat (2 * n))).
  { rewrite Z2Nat.id by lia. rewrite pow_256_16 by lia. f_equal. lia. }
  split; [|split; [|split]].
  - rewrite character_render_run, Hcid, Hlen.
    rewrite (bool_decide_eq_false_2 (char_unicode char = Some nl)) by assumption.
    assert (Hgate : check_font_exists ctx
                    && negb (bool_decide (font_id (pdf_style char)
                                            ∈ container_available_fonts ctx xid)) = false).
    { destruct (check_font_exists ctx); [|reflexivity].
      rewrite bool_decide_eq_true_2 by auto. reflexivity. }
    rewrite Hgate. destruct (Z.ltb_spec (n * 2) 0); [lia|].
    rewrite text_block_split, Hwidth.
    rewrite format_zero_padded_fits by (try lia; now rewrite <- Hpow).
    rewrite !upper_app. cbn [upper]. now rewrite !string_app_assoc.
  - rewrite upper_length. apply digits_fixed_length.
  - apply digits_fixed_upper_hex.
  - rewrite int16_upper_digits_fixed by lia. apply Z.mod_small. now rewrite <- Hpow.
Qed.

End GlyphCodeClaim.

(** C8 at the example of the claim: encoding length 2 and glyph id [0x41]
    give [<0041>]. *)
Lemma glyph_code_width_sample :
  character_render None (sample_char "A" (Some 0x41)) (sample_context (Some 2) false) ""
    = (Ok tt, "q BT /F1 12.000000 Tf 1 0 0 1 10.000000 20.000000 Tm <0041> Tj ET Q " +:+ nl) /\
  String.length "0041" = 4%nat /\
  string_forall is_upper_hex "0041" = true /\
  int16 "0041" = 0x41.
Proof.
  exact (glyph_code_width_when_id_fits None (sample_char "A" (Some 0x41))
           (sample_context (Some 2) false) "" 0x41 2
           eq_refl nl_is_not_A ltac:(discriminate) eq_refl ltac:(lia) ltac:(lia)).
Defined.

(** ** Routing on the table of the page *)

Section RoutingOnThePage.
Context `{Primitives float}.

Lemma route_page_table (pg : Page float) (u : RenderUnit float) :
  route (xobj_draw_ops_of (pdf_xobject pg)) (xobj_id u) = None <-> addressed_to_page pg u.
Proof.
  unfold route, addressed_to_page. rewrite xobj_draw_ops_dom.
  destruct (xobj_id u) as [k|]; [|tauto].
  case_bool_decide as Hk; rewrite elem_of_list_to_set in Hk; split; intros; try tauto.
  discriminate.
Qed.

Lemma route_known_key (ops : gmap string string) (xid : option string) (k : string) :
  k ∈ dom ops -> route ops xid = Some k <-> xid = Some k.
Proof.
  intros Hk. unfold route. destruct xid as [k'|]; [|split; discriminate].
  case_bool_decide as Hk'; [tauto|]. split; [discriminate|].
  intros [= ->]. contradiction.
Qed.

Lemma bytes_for_page_table ctx (pg : Page float) (l : list (RenderUnit float)) :
  bytes_for ctx (xobj_draw_ops_of (pdf_xobject pg)) None l
  = emitted_by ctx (filter (addressed_to_page pg) l).
Proof.
  unfold bytes_for, emitted_by. do 2 f_equal.
  apply list_filter_iff. intros u. apply route_page_table.
Qed.

Lemma bytes_for_known_key ctx (ops : gmap string string) (k : string)
    (l : list (RenderUnit float)) :
  k ∈ dom ops ->
  bytes_for ctx ops (Some k) l = emitted_by ctx (filter (fun u => xobj_id u = Some k) l).
Proof.
  intros Hk. unfold bytes_for, emitted_by. do 2 f_equal.
  apply list_filter_iff. intros u. now apply route_known_key.
Qed.

Lemma lookup_page_table ctx (pg : Page float) (l : list (RenderUnit float))
    (ops' : gmap string string) :
  (forall k, ops' !! k
             = (fun buf => buf +:+ bytes_for ctx (xobj_draw_ops_of (pdf_xobject pg)) (Some k) l)
                 <$> xobj_draw_ops_of (pdf_xobject pg) !! k) ->
  forall k, ops' !! k
            = (fun buf => buf +:+ emitted_by ctx (filter (fun u => xobj_id u = Some k) l))
                <$> xobj_draw_ops_of (pdf_xobject pg) !! k.
Proof.
  intros Hops k. rewrite Hops.
  destruct (xobj_draw_ops_of (pdf_xobject pg) !! k) as [buf|] eqn:Hbuf; [|reflexivity].
  cbn. rewrite bytes_for_known_key; [reflexivity|]. apply elem_of_dom. eauto.
Qed.

(** C10.  The buffer table built for a page has exactly the page's XObject
    ids as keys, and the assembler never changes that key set.  With that
    table the assembler routes every unit without a failing lookup.  When no
    unit's render raises, the assembler returns, the page buffer is what it
    was followed by the bytes of the units whose id is [None] or is not one
    of the page's XObject ids, and the buffer of each XObject of the page is
    what it was followed by the bytes of the units that carry its id, each in
    sorted order; no other buffer exists.  When a unit's render raises, the
    same holds for the units up to and including that one, and the exception
    is that render's.  One unit at a time: a unit addressed to the page
    leaves every XObject buffer alone, a unit addressed to an XObject of the
    page leaves the page buffer alone.  The units processed are the units
    given, each once. *)
Theorem routing_total_with_page_fallback (pg : Page float) (ctx : RenderContext) :
  dom (xobj_draw_ops_of (pdf_xobject pg)) = list_to_set (xobj_xobj_id <$> pdf_xobject pg) /\
  (forall units p_op,
     dom (render_units_to_stream units ctx (p_op, xobj_draw_ops_of (pdf_xobject pg))).2.2
       = list_to_set (xobj_xobj_id <$> pdf_xobject pg)) /\
  (forall units : list (RenderUnit float), sorted_by_key units ≡ₚ units) /\
  (forall (u : RenderUnit float) (page_op : string) (ops : gmap string string),
     dom ops = list_to_set (xobj_xobj_id <$> pdf_xobject pg) ->
     ((xobj_id u = None \/
       exists k, xobj_id u = Some k /\ k ∉ xobj_xobj_id <$> pdf_xobject pg) ->
      render_to_target u ctx (page_op, ops)
        = (render_status u ctx, (page_op +:+ emitted u ctx, ops))) /\
     (forall k, xobj_id u = Some k -> k ∈ xobj_xobj_id <$> pdf_xobject pg ->
      exists buf,
        ops !! k = Some buf /\
        render_to_target u ctx (page_op, ops)
          = (render_status u ctx, (page_op, <[k := buf +:+ emitted u ctx]> ops)))) /\
  (forall (units : list (RenderUnit float)) (p_op : string),
     Forall (fun u => render_status u ctx = Ok tt) units ->
     exists ops',
       render_units_to_stream units ctx (p_op, xobj_draw_ops_of (pdf_xobject pg))
         = (Ok tt,
            (p_op +:+ emitted_by ctx (filter (addressed_to_page pg) (sorted_by_key units)),
             ops')) /\
       forall k, ops' !! k
                 = (fun buf => buf +:+ emitted_by ctx (filter (fun u => xobj_id u = Some k)
                                                         (sorted_by_key units)))
                     <$> xobj_draw_ops_of (pdf_xobject pg) !! k) /\
  (forall (units done rest : list (RenderUnit float)) (u : RenderUnit float) (e : exn)
          (p_op : string),
     sorted_by_key units = done ++ u :: rest ->
     Forall (fun u => render_status u ctx = Ok tt) done ->
     render_status u ctx = Raise e ->
     exists ops',
       render_units_to_stream units ctx (p_op, xobj_draw_ops_of (pdf_xobject pg))
         = (Raise e,
            (p_op +:+ emitted_by ctx (filter (addressed_to_page pg) (done ++ [u])), ops')) /\
       forall k, ops' !! k
                 = (fun buf => buf +:+ emitted_by ctx (filter (fun u => xobj_id u = Some k)
                                                         (done ++ [u])))
                     <$> xobj_draw_ops_of (pdf_xobject pg) !! k).
Proof.
  split; [apply xobj_draw_ops_dom|].
  split.
  { intros units p_op. unfold render_units_to_stream.
    rewrite for_each_render_dom. apply xobj_draw_ops_dom. }
  split; [apply sorted_by_key_perm|].
  split.
  { intros u page_op ops Hdom. split.
    - intros Hpage. rewrite render_to_target_run. unfold route.
      destruct Hpage as [->|(k & -> & Hk)]; [reflexivity|].
      rewrite bool_decide_eq_false_2; [reflexivity|].
      rewrite Hdom. now rewrite elem_of_list_to_set.
    - intros k Hid Hk.
      assert (Hin : k ∈ dom ops) by (rewrite Hdom; now apply elem_of_list_to_set).
      apply elem_of_dom in Hin as Hbuf. destruct Hbuf as [buf Hbuf].
      exists buf. split; [assumption|].
      rewrite render_to_target_run, Hid. unfold route.
      rewrite bool_decide_eq_true_2 by assumption. now rewrite Hbuf. }
  split.
  - intros units p_op Hall. unfold render_units_to_stream.
    destruct (for_each_render_run ctx (sorted_by_key units) p_op
                (xobj_draw_ops_of (pdf_xobject pg))) as (ops' & Hrun & Hops').
    { now rewrite sorted_by_key_perm. }
    exists ops'. split.
    + now rewrite Hrun, bytes_for_page_table.
    + now apply lookup_page_table.
  - intros units done rest u e p_op Hsorted Hdone Hu. unfold render_units_to_stream.
    rewrite Hsorted.
    destruct (for_each_render_raise ctx done rest u e p_op
                (xobj_draw_ops_of (pdf_xobject pg)) Hdone Hu) as (ops' & Hrun & Hops').
    exists ops'. split.
    + now rewrite Hrun, bytes_for_page_table.
    + now apply lookup_page_table.
Qed.

End RoutingOnThePage.

(** C10 on the sample page, whose only XObject is [X1]: of three units the
    one addressed to [X1] appends to the buffer of [X1], the one addressed
    to an unknown [X9] and the one without id append to the page buffer. *)
Lemma routing_sample :
  exists ops',
    render_units_to_stream
      [ {| render_order := 1; sub_render_order := 0; xobj_id := Some "X1";
           payload := CharacterPayload (sample_char "A" (Some 0x41)) |};
        {| render_order := 2; sub_render_order := 0; xobj_id := Some "X9";
           payload := CharacterPayload (sample_char "B" (Some 0x42)) |};
        {| render_order := 3; sub_render_order := 0; xobj_id := None;
           payload := CharacterPayload (sample_char "C" (Some 0x43)) |} ]
      (sample_context (Some 2) false)
      ("page ", xobj_draw_ops_of (pdf_xobject sample_page))
    = (Ok tt,
       ("page " +:+
        ("q BT /F1 12.000000 Tf 1 0 0 1 10.000000 20.000000 Tm <0042> Tj ET Q " +:+ nl) +:+
        ("q BT /F1 12.000000 Tf 1 0 0 1 10.000000 20.000000 Tm <0043> Tj ET Q " +:+ nl),
        ops')) /\
    ops' !! "X1"
    = (fun buf => buf +:+
         ("q BT /F1 12.000000 Tf 1 0 0 1 10.000000 20.000000 Tm <0041> Tj ET Q " +:+ nl))
        <$> xobj_draw_ops_of (pdf_xobject sample_page) !! "X1" /\
    ops' !! "X9" = None.
Proof.
  destruct (routing_total_with_page_fallback sample_page (sample_context (Some 2) false))
    as (_ & _ & _ & _ & Hrun & _).
  destruct (Hrun
    [ {| render_order := 1; sub_render_order := 0; xobj_id := Some "X1";
         payload := CharacterPayload (sample_char "A" (Some 0x41)) |};
      {| render_order := 2; sub_render_order := 0; xobj_id := Some "X9";
         payload := CharacterPayload (sample_char "B" (Some 0x42)) |};
      {| render_order := 3; sub_render_order := 0; xobj_id := None;
         payload := CharacterPayload (sample_char "C" (Some 0x43)) |} ]
    "page " ltac:(repeat constructor)) as (ops' & Hops & Hlookup).
  exists ops'. split; [|split].
  - rewrite Hops. vm_compute. reflexivity.
  - rewrite Hlookup. vm_compute. reflexivity.
  - rewrite Hlookup. vm_compute. reflexivity.
Defined.
